(** * KakaoTalk transcript parser: [services/chatParser.ts]

    A shallow embedding of [parseChat] (both revisions found in the
    repository), of the regular expressions it matches lines against and of
    the handful of ECMAScript library operations it calls
    ([String.prototype.split], [trim], [match], [parseInt], [Date]),
    followed by the properties of the parser stated in the design notes. *)

From Stdlib Require Import ZArith List Bool Lia String Ascii.
Import ListNotations.

Local Open Scope Z_scope.

(** ** ECMAScript strings

    A JavaScript string is a sequence of UTF-16 code units.  All literals of
    the source lie in the Basic Multilingual Plane, so each source character
    is one code unit. *)

Definition char := Z.
Definition jsstring := list char.

(** Literals are written as Rocq strings (UTF-8 bytes) and decoded to code
    units, so that they can be compared with the source text directly. *)
Fixpoint utf16_bytes (fuel : nat) (bs : list Z) : jsstring :=
  match fuel with
  | O => []
  | S fuel' =>
      match bs with
      | [] => []
      | b :: rest =>
          if b <? 0x80 then b :: utf16_bytes fuel' rest
          else if b <? 0xE0 then
            match rest with
            | b1 :: rest' =>
                (Z.land b 0x1F * 64 + Z.land b1 0x3F) :: utf16_bytes fuel' rest'
            | _ => []
            end
          else
            match rest with
            | b1 :: b2 :: rest' =>
                (Z.land b 0x0F * 4096 + Z.land b1 0x3F * 64 + Z.land b2 0x3F)
                  :: utf16_bytes fuel' rest'
            | _ => []
            end
      end
  end.

Definition utf16 (s : string) : jsstring :=
  let bs := List.map (fun a => Z.of_nat (nat_of_ascii a)) (list_ascii_of_string s) in
  utf16_bytes (List.length bs) bs.

Fixpoint str_eqb (a b : jsstring) : bool :=
  match a, b with
  | [], [] => true
  | x :: a', y :: b' => (x =? y) && str_eqb a' b'
  | _, _ => false
  end.

(** [a === b] where [b] may be [null]. *)
Definition opt_str_eqb (a : jsstring) (b : option jsstring) : bool :=
  match b with
  | Some b' => str_eqb a b'
  | None => false
  end.

(** Truthiness of a string: the empty string is the only falsy one. *)
Definition truthy (s : jsstring) : bool :=
  match s with
  | [] => false
  | _ :: _ => true
  end.

(** Character classes of the ECMAScript grammar. *)
Definition is_digit (c : char) : bool := (0x30 <=? c) && (c <=? 0x39).

Definition is_line_terminator (c : char) : bool :=
  (c =? 0x0A) || (c =? 0x0D) || (c =? 0x2028) || (c =? 0x2029).

(** WhiteSpace and LineTerminator code points: what [\s] matches and what
    [trim] strips. *)
Definition is_space (c : char) : bool :=
  ((0x09 <=? c) && (c <=? 0x0D)) || (c =? 0x20) || (c =? 0xA0)
  || (c =? 0x1680) || ((0x2000 <=? c) && (c <=? 0x200A))
  || (c =? 0x2028) || (c =? 0x2029) || (c =? 0x202F) || (c =? 0x205F)
  || (c =? 0x3000) || (c =? 0xFEFF).

Fixpoint trimStart (s : jsstring) : jsstring :=
  match s with
  | [] => []
  | c :: s' => if is_space c then trimStart s' else s
  end.

Definition trimEnd (s : jsstring) : jsstring := rev (trimStart (rev s)).

(** [String.prototype.trim] *)
Definition trim (s : jsstring) : jsstring := trimEnd (trimStart s).

(** [s.split('\n')]: never returns an empty array. *)
Fixpoint split_nl (s : jsstring) : list jsstring :=
  match s with
  | [] => [[]]
  | c :: s' =>
      if c =? 0x0A then [] :: split_nl s'
      else match split_nl s' with
           | l :: ls => (c :: l) :: ls
           | [] => [[c]]
           end
  end.

(** [lines.join('\n')], used to write test inputs line by line. *)
Fixpoint join_nl (ls : list jsstring) : jsstring :=
  match ls with
  | [] => []
  | [l] => l
  | l :: ls' => l ++ 0x0A :: join_nl ls'
  end.

(** ** Regular expressions

    The backtracking semantics of ECMAScript patterns, restricted to the
    constructs the parser uses: characters, classes, sequence, disjunction,
    greedy and lazy quantifiers, capturing groups and the two anchors (the
    parser sets no flag; the [i] of the image-name pattern of [App.tsx] is
    written out with classes).  Instead of the continuation
    passing style of the language specification a matcher returns the list of
    its successes in the order backtracking explores them; the first element
    of the list for the whole pattern is the match. *)

Inductive regex : Type :=
| Chr (c : char)
| Cls (p : char -> bool)
| Seq (r1 r2 : regex)
| Alt (r1 r2 : regex)
| Rep (r : regex) (min : nat) (max : option nat) (greedy : bool)
| Grp (i : nat) (r : regex)
| Bol
| Eol.

(** A match state: the index reached, the input left and the captures set
    so far (most recent first). *)
Record mstate : Type := MState {
  pos : nat;
  rest : jsstring;
  caps : list (nat * jsstring)
}.

Section Repeat.
Variable m : mstate -> list mstate.

(** RepeatMatcher: [fuel] bounds the number of iterations.  An iteration
    that consumes nothing once [min] is reached is rejected. *)
Fixpoint rep (greedy : bool) (fuel : nat) (min : nat) (max : option nat)
    (x : mstate) : list mstate :=
  match max with
  | Some O => [x]
  | _ =>
      match fuel with
      | O => []
      | S fuel' =>
          let more :=
            flat_map
              (fun y =>
                 if (Nat.eqb min 0 && Nat.eqb (pos y) (pos x))%bool then []
                 else rep greedy fuel' (Nat.pred min) (option_map Nat.pred max) y)
              (m x) in
          if negb (Nat.eqb min 0) then more
          else if greedy then more ++ [x]
          else x :: more
      end
  end.
End Repeat.

Fixpoint matches (r : regex) (x : mstate) : list mstate :=
  match r with
  | Chr c =>
      match rest x with
      | d :: s => if d =? c then [MState (S (pos x)) s (caps x)] else []
      | [] => []
      end
  | Cls p =>
      match rest x with
      | d :: s => if p d then [MState (S (pos x)) s (caps x)] else []
      | [] => []
      end
  | Seq r1 r2 => flat_map (matches r2) (matches r1 x)
  | Alt r1 r2 => matches r1 x ++ matches r2 x
  | Rep r0 min max greedy =>
      let fuel := match max with
                  | Some n => n
                  | None => (min + S (List.length (rest x)))%nat
                  end in
      rep (matches r0) greedy fuel min max x
  | Grp i r0 =>
      List.map
        (fun y => MState (pos y) (rest y)
                    ((i, firstn (pos y - pos x) (rest x)) :: caps y))
        (matches r0 x)
  | Bol => if Nat.eqb (pos x) 0 then [x] else []
  | Eol => match rest x with [] => [x] | _ :: _ => [] end
  end.

(** The array returned by [RegExp.prototype.exec]: the matched text and,
    for each group, its capture ([None] is [undefined]). *)
Record match_result : Type := MatchResult {
  whole : jsstring;
  groups : list (nat * jsstring)
}.

Fixpoint assoc (i : nat) (l : list (nat * jsstring)) : option jsstring :=
  match l with
  | [] => None
  | (j, s) :: l' => if Nat.eqb i j then Some s else assoc i l'
  end.

(** [m[i]] *)
Definition mget (m : match_result) (i : nat) : option jsstring :=
  match i with
  | O => Some (whole m)
  | _ => assoc i (groups m)
  end.

(** The search loop of [exec]: try every start index from the left. *)
Fixpoint search (r : regex) (p : nat) (s : jsstring) : option match_result :=
  match matches r (MState p s []) with
  | y :: _ => Some (MatchResult (firstn (pos y - p) s) (caps y))
  | [] =>
      match s with
      | [] => None
      | _ :: s' => search r (S p) s'
      end
  end.

(** [str.match(r)] for a pattern without the global flag. *)
Definition jsmatch (s : jsstring) (r : regex) : option match_result :=
  search r 0 s.

(** ** The patterns of [chatParser.ts] *)

Declare Scope regex_scope.
Delimit Scope regex_scope with re.
Infix ";;" := Seq (at level 61, right associativity) : regex_scope.

Definition SP : char := 0x20.
Definition COMMA : char := 0x2C.
Definition COLON : char := 0x3A.
Definition NYEON : char := Eval cbv in hd 0 (utf16 "년").
Definition WOL : char := Eval cbv in hd 0 (utf16 "월").
Definition IL : char := Eval cbv in hd 0 (utf16 "일").
Definition O_ : char := Eval cbv in hd 0 (utf16 "오").
Definition JEON : char := Eval cbv in hd 0 (utf16 "전").
Definition HU : char := Eval cbv in hd 0 (utf16 "후").

(** The quantified atoms: [\d{4}], [\d{1,2}], [\d{2}], [.+?] and the
    greedy star of [\s\S]. *)
Definition d4 : regex := Rep (Cls is_digit) 4 (Some 4%nat) true.
Definition d12 : regex := Rep (Cls is_digit) 1 (Some 2%nat) true.
Definition d2 : regex := Rep (Cls is_digit) 2 (Some 2%nat) true.
Definition dot_plus_lazy : regex :=
  Rep (Cls (fun c => negb (is_line_terminator c))) 1 None false.
Definition any_star : regex :=
  Rep (Cls (fun c => is_space c || negb (is_space c))) 0 None true.

(** [(?:오전|오후)] *)
Definition AMPM : regex := Alt (Chr O_ ;; Chr JEON)%re (Chr O_ ;; Chr HU)%re.

(** [\d{4}년 \d{1,2}월 \d{1,2}일] *)
Definition DATE : regex :=
  (d4 ;; Chr NYEON ;; Chr SP ;; d12 ;; Chr WOL ;; Chr SP ;; d12 ;; Chr IL)%re.

(** [ (?:오전|오후) \d{1,2}:\d{2}], with its leading space *)
Definition TIME : regex :=
  (Chr SP ;; AMPM ;; Chr SP ;; d12 ;; Chr COLON ;; d2)%re.

(** [messageRegex], in both revisions: [^(T), (.+?) : (R)] where [T] is
    [\d{4}년 \d{1,2}월 \d{1,2}일 (?:오전|오후) \d{1,2}:\d{2}] and [R] is
    the greedy star of the class [\s\S]. *)
Definition messageRegex : regex :=
  (Bol ;; Grp 1 (Seq DATE TIME) ;; Chr COMMA ;; Chr SP ;; Grp 2 dot_plus_lazy
       ;; Chr SP ;; Chr COLON ;; Chr SP ;; Grp 3 any_star)%re.

(** [/(\d{4}년 \d{1,2}월 \d{1,2}일)/] and [/^(\d{4}년 \d{1,2}월 \d{1,2}일)/] *)
Definition datePartRegex : regex := Grp 1 DATE.
Definition messageDateRegex : regex := (Bol ;; Grp 1 DATE)%re.

(** [/(\d{4})년 (\d{1,2})월 (\d{1,2})일/] *)
Definition ymdRegex : regex :=
  (Grp 1 d4 ;; Chr NYEON ;; Chr SP ;; Grp 2 d12 ;; Chr WOL ;; Chr SP
         ;; Grp 3 d12 ;; Chr IL)%re.

(** [/(오전|오후)\s(\d{1,2}:\d{2})/] *)
Definition displayTimeRegex : regex :=
  (Grp 1 AMPM ;; Cls is_space ;; Grp 2 (d12 ;; Chr COLON ;; d2))%re.

(** ** [parseInt] and [Date] *)

Fixpoint decimal_value (acc : Z) (s : jsstring) : Z :=
  match s with
  | c :: s' => if is_digit c then decimal_value (acc * 10 + (c - 0x30)) s' else acc
  | [] => acc
  end.

Definition hex_digit (c : char) : option Z :=
  if is_digit c then Some (c - 0x30)
  else if (0x41 <=? c) && (c <=? 0x46) then Some (c - 0x41 + 10)
  else if (0x61 <=? c) && (c <=? 0x66) then Some (c - 0x61 + 10)
  else None.

Fixpoint hex_value (acc : Z) (s : jsstring) : Z :=
  match s with
  | c :: s' =>
      match hex_digit c with
      | Some v => hex_value (acc * 16 + v) s'
      | None => acc
      end
  | [] => acc
  end.

(** [parseInt(s)] without a radix; [None] is [NaN]. *)
Definition parseInt (s : jsstring) : option Z :=
  let s1 := trimStart s in
  let '(sign, s2) :=
    match s1 with
    | 0x2D :: t => (-1, t)
    | 0x2B :: t => (1, t)
    | _ => (1, s1)
    end in
  match s2 with
  | 0x30 :: x :: h :: _ =>
      if ((x =? 0x78) || (x =? 0x58)) && (match hex_digit h with Some _ => true | None => false end)
      then Some (sign * hex_value 0 (tl (tl s2)))
      else Some (sign * decimal_value 0 s2)
  | c :: _ => if is_digit c then Some (sign * decimal_value 0 s2) else None
  | [] => None
  end.

(** [parseInt] of a destructured capture; [undefined] converts to the string
    "undefined", which has no digits. *)
Definition parseInt_capture (o : option jsstring) : option Z :=
  match o with
  | Some s => parseInt s
  | None => None
  end.

Definition msPerDay : Z := 86400000.

Definition DayFromYear (y : Z) : Z :=
  365 * (y - 1970) + (y - 1969) / 4 - (y - 1901) / 100 + (y - 1601) / 400.

Definition InLeapYear (y : Z) : bool :=
  (y mod 4 =? 0) && (negb (y mod 100 =? 0) || (y mod 400 =? 0)).

Definition DaysBeforeMonth (leap : bool) (mn : Z) : Z :=
  let l := if leap then 1 else 0 in
  match mn with
  | 0 => 0 | 1 => 31 | 2 => 59 + l | 3 => 90 + l | 4 => 120 + l
  | 5 => 151 + l | 6 => 181 + l | 7 => 212 + l | 8 => 243 + l
  | 9 => 273 + l | 10 => 304 + l | _ => 334 + l
  end.

Definition MakeDay (year month date : Z) : Z :=
  let ym := year + month / 12 in
  let mn := month mod 12 in
  DayFromYear ym + DaysBeforeMonth (InLeapYear ym) mn + date - 1.

Definition TimeClip (t : Z) : option Z :=
  if Z.abs t >? 8640000000000000 then None else Some t.

(** [new Date(year, month, date)].  The constructor reads its arguments in
    local time and [getDay] answers in local time, so the date object is
    represented by its local time value; [None] is an invalid date. *)
Definition newDate (year month date : option Z) : option Z :=
  match year, month, date with
  | Some y, Some m, Some d =>
      let yr := if (0 <=? y) && (y <=? 99) then 1900 + y else y in
      TimeClip (MakeDay yr m d * msPerDay)
  | _, _, _ => None
  end.

Definition getDay (t : Z) : Z := (t / msPerDay + 4) mod 7.

(** ** Helpers of [chatParser.ts] (identical in both revisions) *)

Definition UNDEFINED : jsstring := Eval cbv in utf16 "undefined".

(** A value interpolated in a template literal. *)
Definition interpolate (o : option jsstring) : jsstring :=
  match o with
  | Some s => s
  | None => UNDEFINED
  end.

Definition KOREAN_DAYS : list jsstring :=
  Eval cbv in List.map utf16 ["일"; "월"; "화"; "수"; "목"; "금"; "토"]%string.

Definition YOIL : jsstring := Eval cbv in utf16 "요일".

Definition formatDateWithDay (dateStr : jsstring) : jsstring :=
  match jsmatch dateStr ymdRegex with
  | None => dateStr
  | Some m =>
      let year := mget m 1 in
      let month := mget m 2 in
      let day := mget m 3 in
      match newDate (parseInt_capture year)
                    (option_map (fun x => x - 1) (parseInt_capture month))
                    (parseInt_capture day) with
      | None => dateStr
      | Some date =>
          let dayOfWeek := nth_error KOREAN_DAYS (Z.to_nat (getDay date)) in
          dateStr ++ SP :: interpolate dayOfWeek ++ YOIL
      end
  end.

Definition parseTimestampToDisplayTime (timestampString : jsstring) : jsstring :=
  match jsmatch timestampString displayTimeRegex with
  | Some m => interpolate (mget m 1) ++ SP :: interpolate (mget m 2)
  | None => []
  end.

(** ** Data model ([types.ts])

    Every item carries an [id] drawn from [Math.random()].  The parser never
    inspects it; its type is left abstract and the generator is a parameter:
    [random k] is the value of the [k]-th call during one parse. *)

Record Message (Id : Type) : Type := mkMessage {
  msg_id : Id;
  user : jsstring;
  content : jsstring;
  timestamp : jsstring;
  fullTimestamp : option jsstring;   (* only the first revision stores it *)
  isContinuation : bool
}.
Arguments mkMessage {Id}.
Arguments msg_id {Id}.
Arguments user {Id}.
Arguments content {Id}.
Arguments timestamp {Id}.
Arguments fullTimestamp {Id}.
Arguments isContinuation {Id}.

Inductive ChatItem (Id : Type) : Type :=
| ItemMessage (m : Message Id)
| ItemDate (id : Id) (date : jsstring)
| ItemSystem (id : Id) (text : jsstring).
Arguments ItemMessage {Id}.
Arguments ItemDate {Id}.
Arguments ItemSystem {Id}.

(** The value [parseChat] returns. *)
Record ParsedChat (Id : Type) : Type := mkParsedChat {
  chat_messages : list (ChatItem Id);
  chat_users : list jsstring;
  chat_title : jsstring
}.
Arguments mkParsedChat {Id}.
Arguments chat_messages {Id}.
Arguments chat_users {Id}.
Arguments chat_title {Id}.

(** The local variables of [parseChat] that the loop updates.  [messages]
    only grows at its end, so an element is identified by its index, and
    [lastMessage], a reference to an element of [messages], is that index.
    [draws] counts the calls to [Math.random]. *)
Record pstate (Id : Type) : Type := mkState {
  messages : list (ChatItem Id);
  users : list jsstring;
  lastMessage : option nat;
  lastDate : option jsstring;
  draws : nat
}.
Arguments mkState {Id}.
Arguments messages {Id}.
Arguments users {Id}.
Arguments lastMessage {Id}.
Arguments lastDate {Id}.
Arguments draws {Id}.

(** Calling a method on [undefined] throws. *)
Inductive result (A : Type) : Type :=
| Ok (a : A)
| TypeError.
Arguments Ok {A}.
Arguments TypeError {A}.

Definition bind {A B : Type} (r : result A) (k : A -> result B) : result B :=
  match r with
  | Ok a => k a
  | TypeError => TypeError
  end.

Notation "x <- e ; k" := (bind e (fun x => k))
  (at level 200, e at level 100, k at level 200, right associativity).

(** Use of a destructured capture as a receiver. *)
Definition defined (o : option jsstring) : result jsstring :=
  match o with
  | Some s => Ok s
  | None => TypeError
  end.

Definition DELETED : jsstring := Eval cbv in utf16 "메시지가 삭제되었습니다.".
Definition DEFAULT_TITLE : jsstring := Eval cbv in utf16 "카카오톡 대화".

(** [users.add(name)] on an insertion-ordered [Set]. *)
Definition set_add (name : jsstring) (s : list jsstring) : list jsstring :=
  if existsb (str_eqb name) s then s else s ++ [name].

(** Replace the element at index [i] (the index is always in range here). *)
Fixpoint update {A : Type} (i : nat) (a : A) (l : list A) : list A :=
  match l, i with
  | [], _ => []
  | _ :: l', O => a :: l'
  | x :: l', S i' => x :: update i' a l'
  end.

Section Shared.
Context {Id : Type}.

(** [messages.push(item)] *)
Definition push (st : pstate Id) (item : ChatItem Id) : pstate Id :=
  mkState (messages st ++ [item]) (users st) (lastMessage st) (lastDate st)
          (S (draws st)).

(** The object [lastMessage] refers to, if it is a message. *)
Definition lastMessage_object (st : pstate Id) : option (Message Id) :=
  match lastMessage st with
  | None => None
  | Some i =>
      match nth_error (messages st) i with
      | Some (ItemMessage m) => Some m
      | _ => None
      end
  end.

(** [lastMessage?.type === 'message' && lastMessage.user === name &&
    lastMessage.timestamp === timestamp] *)
Definition continues (st : pstate Id) (name timestamp' : jsstring) : bool :=
  match lastMessage_object st with
  | Some m => str_eqb (user m) name && str_eqb (timestamp m) timestamp'
  | None => false
  end.

(** [else if (lastMessage && lastMessage.type === 'message')
      lastMessage.content += '\n' + line]: the object is the one stored in
    [messages], which therefore changes too. *)
Definition absorb (st : pstate Id) (line : jsstring) : pstate Id :=
  match lastMessage st with
  | None => st
  | Some i =>
      match nth_error (messages st) i with
      | Some (ItemMessage m) =>
          let m' := mkMessage (msg_id m) (user m) (content m ++ 0x0A :: line)
                              (timestamp m) (fullTimestamp m) (isContinuation m) in
          mkState (update i (ItemMessage m') (messages st)) (users st)
                  (lastMessage st) (lastDate st) (draws st)
      | _ => st
      end
  end.

(** The deletion-marker branch, the same in both revisions. *)
Definition delete_notice (random : nat -> Id) (st : pstate Id) : pstate Id :=
  let st1 := push st (ItemSystem (random (draws st)) DELETED) in
  mkState (messages st1) (users st1) None (lastDate st1) (draws st1).

(** The loop of [parseChat] over [lines.slice(3)]. *)
Fixpoint run (step : pstate Id -> jsstring -> result (pstate Id))
    (st : pstate Id) (lines : list jsstring) : result (pstate Id) :=
  match lines with
  | [] => Ok st
  | line :: lines' => st' <- step st line; run step st' lines'
  end.

Definition initial : pstate Id := mkState [] [] None None 0.

(** [const title = lines[0] || '카카오톡 대화'] *)
Definition title_of (lines : list jsstring) : jsstring :=
  match lines with
  | l0 :: _ => if truthy l0 then l0 else DEFAULT_TITLE
  | [] => DEFAULT_TITLE
  end.

Definition parse_with (step : pstate Id -> jsstring -> result (pstate Id))
    (txtContent : jsstring) : result (ParsedChat Id) :=
  let lines := List.map trim (split_nl txtContent) in
  let title := title_of lines in
  st <- run step initial (skipn 3 lines);
  Ok (mkParsedChat (messages st) (users st) title).
End Shared.

(** ** First revision of [parseChat] (the first file of [chatParser.ts]) *)
Module V1.
Section Parser.
Context {Id : Type}.
Variable random : nat -> Id.

(** "/^(\d{4}년 \d{1,2}월 \d{1,2}일 (?:오전|오후) \d{1,2}:\d{2})$/" *)
Definition dateSeparatorRegex : regex := (Bol ;; Grp 1 (Seq DATE TIME) ;; Eol)%re.

(** One iteration of the loop body. *)
Definition step (st : pstate Id) (line : jsstring) : result (pstate Id) :=
  if negb (truthy line) then Ok st
  else if str_eqb line DELETED then Ok (delete_notice random st)
  else
    match jsmatch line dateSeparatorRegex with
    | Some dateMatch =>
        fullDateStr <- defined (mget dateMatch 1);
        match jsmatch fullDateStr datePartRegex with
        | Some datePartMatch =>
            datePart <- defined (mget datePartMatch 1);
            let formattedDate := formatDateWithDay datePart in
            if negb (opt_str_eqb formattedDate (lastDate st)) then
              let st1 := push st (ItemDate (random (draws st)) fullDateStr) in
              Ok (mkState (messages st1) (users st1) None (Some formattedDate)
                          (draws st1))
            else Ok st
        | None => Ok st
        end
    | None =>
        match jsmatch line messageRegex with
        | Some messageMatch =>
            fullTimestamp <- defined (mget messageMatch 1);
            userName <- defined (mget messageMatch 2);
            content <- defined (mget messageMatch 3);
            let st1 :=
              match jsmatch fullTimestamp messageDateRegex with
              | Some messageDateMatch =>
                  let messageDate := whole messageDateMatch in
                  if truthy messageDate
                     && negb (opt_str_eqb (formatDateWithDay messageDate) (lastDate st))
                  then
                    let st0 := mkState (messages st) (users st) (lastMessage st)
                                 (Some (formatDateWithDay messageDate)) (draws st) in
                    push st0 (ItemDate (random (draws st0)) fullTimestamp)
                  else st
              | None => st
              end in
            let timestamp := parseTimestampToDisplayTime fullTimestamp in
            let isContinuation := continues st1 (trim userName) timestamp in
            let newMessage :=
              mkMessage (random (draws st1)) (trim userName) (trim content)
                        timestamp (Some fullTimestamp) isContinuation in
            let st2 := push st1 (ItemMessage newMessage) in
            Ok (mkState (messages st2) (set_add (trim userName) (users st2))
                        (Some (List.length (messages st1))) (lastDate st2)
                        (draws st2))
        | None => Ok (absorb st line)
        end
    end.

Definition parseChat (txtContent : jsstring) : result (ParsedChat Id) :=
  parse_with step txtContent.
End Parser.
End V1.

(** ** Second revision of [parseChat] (the second file of [chatParser.ts]) *)
Module V2.
Section Parser.
Context {Id : Type}.
Variable random : nat -> Id.

(** "/^(\d{4}년 \d{1,2}월 \d{1,2}일) (?:오전|오후) \d{1,2}:\d{2}$/" *)
Definition dateSeparatorRegex : regex := (Bol ;; Grp 1 DATE ;; TIME ;; Eol)%re.

Definition step (st : pstate Id) (line : jsstring) : result (pstate Id) :=
  if negb (truthy line) then Ok st
  else if str_eqb line DELETED then Ok (delete_notice random st)
  else
    match jsmatch line dateSeparatorRegex with
    | Some dateMatch =>
        datePart <- defined (mget dateMatch 1);
        let formattedDate := formatDateWithDay datePart in
        if negb (opt_str_eqb formattedDate (lastDate st)) then
          let st1 := push st (ItemDate (random (draws st)) formattedDate) in
          Ok (mkState (messages st1) (users st1) None (Some formattedDate)
                      (draws st1))
        else Ok st
    | None =>
        match jsmatch line messageRegex with
        | Some messageMatch =>
            fullTimestamp <- defined (mget messageMatch 1);
            userName <- defined (mget messageMatch 2);
            content <- defined (mget messageMatch 3);
            let messageDate :=
              option_map whole (jsmatch fullTimestamp messageDateRegex) in
            let st1 :=
              match messageDate with
              | Some messageDate' =>
                  if truthy messageDate'
                     && negb (opt_str_eqb (formatDateWithDay messageDate') (lastDate st))
                  then
                    let lastDate' := formatDateWithDay messageDate' in
                    let st0 := mkState (messages st) (users st) (lastMessage st)
                                 (Some lastDate') (draws st) in
                    push st0 (ItemDate (random (draws st0)) lastDate')
                  else st
              | None => st
              end in
            let timestamp := parseTimestampToDisplayTime fullTimestamp in
            let isContinuation := continues st1 (trim userName) timestamp in
            let newMessage :=
              mkMessage (random (draws st1)) (trim userName) (trim content)
                        timestamp None isContinuation in
            let st2 := push st1 (ItemMessage newMessage) in
            Ok (mkState (messages st2) (set_add (trim userName) (users st2))
                        (Some (List.length (messages st1))) (lastDate st2)
                        (draws st2))
        | None => Ok (absorb st line)
        end
    end.

Definition parseChat (txtContent : jsstring) : result (ParsedChat Id) :=
  parse_with step txtContent.
End Parser.
End V2.

(** ** Deterministic readers

    The patterns above never need to backtrack across a literal: each of
    them is equivalent to a reader that walks the input once.  A reader
    returns the text it consumed, the captures it set and the input left.
    The readers are proof devices; the program is stated with [matches]. *)

Definition reader : Type :=
  jsstring -> option (jsstring * list (nat * jsstring) * jsstring).

Definition run_reader (q : reader) (x : mstate) : list mstate :=
  match q (rest x) with
  | Some (c, u, r) => [MState (pos x + List.length c) r (u ++ caps x)]
  | None => []
  end.

Definition qcls (p : char -> bool) : reader :=
  fun s =>
    match s with
    | d :: s' => if p d then Some ([d], [], s') else None
    | [] => None
    end.

Definition qchr (c : char) : reader := qcls (fun d => d =? c).

Definition qseq (q1 q2 : reader) : reader :=
  fun s =>
    match q1 s with
    | Some (c1, u1, r1) =>
        match q2 r1 with
        | Some (c2, u2, r2) => Some (c1 ++ c2, u2 ++ u1, r2)
        | None => None
        end
    | None => None
    end.

Definition qgrp (i : nat) (q : reader) : reader :=
  fun s =>
    match q s with
    | Some (c, u, r) => Some (c, (i, c) :: u, r)
    | None => None
    end.

(** Exactly [n] characters of class [p]. *)
Fixpoint qcount (p : char -> bool) (n : nat) : reader :=
  match n with
  | O => fun s => Some ([], [], s)
  | S n' => qseq (qcls p) (qcount p n')
  end.

(** One or two digits, as many as there are. *)
Definition qd12 : reader :=
  fun s =>
    match s with
    | a :: s1 =>
        if is_digit a then
          match s1 with
          | b :: s2 => if is_digit b then Some ([a; b], [], s2) else Some ([a], [], s1)
          | [] => Some ([a], [], [])
          end
        else None
    | [] => None
    end.

Definition qampm : reader :=
  fun s =>
    match s with
    | o :: j :: r =>
        if (o =? O_) && ((j =? JEON) || (j =? HU)) then Some ([o; j], [], r) else None
    | _ => None
    end.

Definition qDATE : reader :=
  qseq (qcount is_digit 4) (qseq (qchr NYEON) (qseq (qchr SP)
    (qseq qd12 (qseq (qchr WOL) (qseq (qchr SP) (qseq qd12 (qchr IL))))))).

Definition qTIME : reader :=
  qseq (qchr SP) (qseq qampm (qseq (qchr SP)
    (qseq qd12 (qseq (qchr COLON) (qcount is_digit 2))))).

Definition qYMD : reader :=
  qseq (qgrp 1 (qcount is_digit 4)) (qseq (qchr NYEON) (qseq (qchr SP)
    (qseq (qgrp 2 qd12) (qseq (qchr WOL) (qseq (qchr SP)
      (qseq (qgrp 3 qd12) (qchr IL))))))).

Definition qDISPLAY : reader :=
  qseq (qgrp 1 qampm) (qseq (qcls is_space)
    (qgrp 2 (qseq qd12 (qseq (qchr COLON) (qcount is_digit 2))))).

(** The date of a date-only header line: what both revisions of
    [dateSeparatorRegex] accept. *)
Definition header_date (line : jsstring) : option jsstring :=
  match qDATE line with
  | Some (d, _, r) =>
      match qTIME r with
      | Some (_, _, []) => Some d
      | _ => None
      end
  | None => None
  end.

(** The first " : " that follows at least one character, none of the
    characters before it being a line terminator: where [(.+?) : ] stops. *)
Fixpoint split_speaker (acc s : jsstring) : option (jsstring * jsstring) :=
  match s with
  | [] => None
  | x :: s' =>
      if is_line_terminator x then None
      else
        match s' with
        | a :: b :: c :: body =>
            if (a =? SP) && (b =? COLON) && (c =? SP) then Some (acc ++ [x], body)
            else split_speaker (acc ++ [x]) s'
        | _ => split_speaker (acc ++ [x]) s'
        end
  end.

(** Timestamp, speaker and body of a message line: what [messageRegex]
    captures. *)
Definition message_parts (line : jsstring)
    : option (jsstring * jsstring * jsstring) :=
  match qseq qDATE qTIME line with
  | Some (ts, _, r) =>
      match r with
      | a :: b :: r' =>
          if (a =? COMMA) && (b =? SP) then
            match split_speaker [] r' with
            | Some (name, body) => Some (ts, name, body)
            | None => None
            end
          else None
      | _ => None
      end
  | None => None
  end.

(** A pattern is deterministic when it has at most one success, the one
    its reader finds. *)
Definition det (r : regex) (q : reader) : Prop :=
  forall x, matches r x = run_reader q x.

(** A reader is local when its answer depends on the consumed text only. *)
Definition local (q : reader) : Prop :=
  forall s c u r, q s = Some (c, u, r) ->
    s = c ++ r /\ forall r', q (c ++ r') = Some (c, u, r').

(** The pattern cannot start on a character other than [c]. *)
Definition starts_with (c : char) (r : regex) : Prop :=
  forall x, match rest x with d :: _ => d =? c | [] => false end = false ->
            matches r x = [].

(** The reader consumes a text that starts with [c]. *)
Definition qstarts (c : char) (q : reader) : Prop :=
  forall s t u r, q s = Some (t, u, r) -> exists t', t = c :: t'.

(** The successes of [\d{1,2}], longest first. *)
Definition d12_states (x : mstate) : list mstate :=
  match rest x with
  | a :: s1 =>
      if is_digit a then
        match s1 with
        | b :: s2 =>
            if is_digit b
            then [MState (S (S (pos x))) s2 (caps x); MState (S (pos x)) s1 (caps x)]
            else [MState (S (pos x)) s1 (caps x)]
        | [] => [MState (S (pos x)) [] (caps x)]
        end
      else []
  | [] => []
  end.

(** A reader is local in front of [c] when its answer depends on the
    consumed text only, provided the next character is [c]. *)
Definition local_before (c : char) (q : reader) : Prop :=
  forall s t u r, q s = Some (t, u, r) ->
    s = t ++ r /\ forall r', q (t ++ c :: r') = Some (t, u, c :: r').

(** A reader that sets no capture. *)
Definition nocaps (q : reader) : Prop :=
  forall s c u r, q s = Some (c, u, r) -> u = [].

(** The successes of a lazy star of the class [p], shortest first. *)
Fixpoint lazy_states (p : char -> bool) (k : nat) (s : jsstring)
    (cs : list (nat * jsstring)) : list mstate :=
  MState k s cs ::
  match s with
  | d :: s' => if p d then lazy_states p (S k) s' cs else []
  | [] => []
  end.

(** The end of [messageRegex]: the separator [ : ] and the body group. *)
Definition message_tail : regex :=
  (Chr SP ;; Chr COLON ;; Chr SP ;; Grp 3 any_star)%re.

(** One or two digits. *)
Definition is_d12 (m : jsstring) : Prop :=
  (exists a, m = [a] /\ is_digit a = true)
  \/ (exists a b, m = [a; b] /\ is_digit a = true /\ is_digit b = true).

(** ** The loop body by kind of line

    The readers classify a line the way the tests of the loop body do; the
    transition taken for each kind is written once for both revisions,
    which differ in the payload of the date items and in the
    [fullTimestamp] field only.  The lemmas [V1_step_model] and
    [V2_step_model] below prove that the loop bodies are these
    transitions. *)

Inductive line_kind : Type :=
| KBlank
| KDeleted
| KHeader (d : jsstring)
| KMessage (ts : jsstring) (od : option jsstring) (name body : jsstring)
| KOther.

Definition classify (line : jsstring) : line_kind :=
  if negb (truthy line) then KBlank
  else if str_eqb line DELETED then KDeleted
  else
    match header_date line with
    | Some d => KHeader d
    | None =>
        match message_parts line with
        | Some (ts, name, body) =>
            KMessage ts
              (match qDATE ts with Some (d, _, _) => Some d | None => None end)
              name body
        | None => KOther
        end
    end.

(** What distinguishes the two revisions. *)
Record revision : Type := mkRevision {
  header_payload : jsstring -> jsstring -> jsstring;   (* line, date *)
  message_payload : jsstring -> jsstring -> jsstring;  (* timestamp, date *)
  stored_timestamp : jsstring -> option jsstring
}.

Definition rev1 : revision :=
  mkRevision (fun line _ => line) (fun ts _ => ts) (fun ts => Some ts).

Definition rev2 : revision :=
  mkRevision (fun _ d => formatDateWithDay d) (fun _ d => formatDateWithDay d)
             (fun _ => None).

Section Model.
Context {Id : Type}.
Variable random : nat -> Id.
Variable v : revision.

Definition on_header (line d : jsstring) (st : pstate Id) : pstate Id :=
  let formattedDate := formatDateWithDay d in
  if negb (opt_str_eqb formattedDate (lastDate st)) then
    mkState (messages st ++ [ItemDate (random (draws st)) (header_payload v line d)])
            (users st) None (Some formattedDate) (S (draws st))
  else st.

(** The state after the date item a message line may emit. *)
Definition message_date_state (ts : jsstring) (od : option jsstring)
    (st : pstate Id) : pstate Id :=
  match od with
  | Some d =>
      if truthy d && negb (opt_str_eqb (formatDateWithDay d) (lastDate st)) then
        mkState (messages st ++ [ItemDate (random (draws st)) (message_payload v ts d)])
                (users st) (lastMessage st) (Some (formatDateWithDay d))
                (S (draws st))
      else st
  | None => st
  end.

Definition on_message (ts : jsstring) (od : option jsstring)
    (name body : jsstring) (st : pstate Id) : pstate Id :=
  let st1 := message_date_state ts od st in
  let timestamp' := parseTimestampToDisplayTime ts in
  let newMessage :=
    mkMessage (random (draws st1)) (trim name) (trim body) timestamp'
              (stored_timestamp v ts) (continues st1 (trim name) timestamp') in
  mkState (messages st1 ++ [ItemMessage newMessage])
          (set_add (trim name) (users st1))
          (Some (List.length (messages st1))) (lastDate st1) (S (draws st1)).

Definition step_model (st : pstate Id) (line : jsstring) : pstate Id :=
  match classify line with
  | KBlank => st
  | KDeleted => delete_notice random st
  | KHeader d => on_header line d st
  | KMessage ts od name body => on_message ts od name body st
  | KOther => absorb st line
  end.

Definition run_model (st : pstate Id) (lines : list jsstring) : pstate Id :=
  fold_left step_model lines st.
End Model.

(** The date text of the payload of a first-revision date item, extracted
    the way the loop body does for a header line. *)
Definition date_text (payload : jsstring) : jsstring :=
  match jsmatch payload datePartRegex with
  | Some m => interpolate (mget m 1)
  | None => payload
  end.

(** The lines the loop runs over. *)
Definition body_lines (txtContent : jsstring) : list jsstring :=
  skipn 3 (List.map trim (split_nl txtContent)).

(** ** Notions used in the statements *)

Definition is_message {Id : Type} (it : ChatItem Id) : bool :=
  match it with
  | ItemMessage _ => true
  | _ => false
  end.

(** The first message of a list of items, if any, is not a continuation. *)
Definition first_message_fresh {Id : Type} (l : list (ChatItem Id)) : Prop :=
  match find is_message l with
  | Some (ItemMessage m) => isContinuation m = false
  | _ => True
  end.

(** The speakers of the message items, in order. *)
Definition speakers_of {Id : Type} (l : list (ChatItem Id)) : list jsstring :=
  flat_map (fun it => match it with
                      | ItemMessage m => [user m]
                      | _ => []
                      end) l.

(** The payloads of the date items, in order. *)
Definition dates_of {Id : Type} (l : list (ChatItem Id)) : list jsstring :=
  flat_map (fun it => match it with
                      | ItemDate _ d => [d]
                      | _ => []
                      end) l.

(** Each distinct element once, in the order of first occurrence. *)
Fixpoint nub (l : list jsstring) : list jsstring :=
  match l with
  | [] => []
  | x :: l' => x :: filter (fun y => negb (str_eqb x y)) (nub l')
  end.

(** The message [m] with [line] absorbed into its body. *)
Definition absorbed {Id : Type} (m : Message Id) (line : jsstring) : Message Id :=
  mkMessage (msg_id m) (user m) (content m ++ 0x0A :: line) (timestamp m)
            (fullTimestamp m) (isContinuation m).

(** Items that differ at most in the body of a message. *)
Definition same_but_content {Id : Type} (a b : ChatItem Id) : Prop :=
  match a, b with
  | ItemMessage m, ItemMessage m' =>
      msg_id m = msg_id m' /\ user m = user m' /\ timestamp m = timestamp m'
      /\ fullTimestamp m = fullTimestamp m' /\ isContinuation m = isContinuation m'
  | _, _ => a = b
  end.

(** The index [lastMessage] holds between two iterations: that of the last
    item when it is a message. *)
Definition tracker_of {Id : Type} (l : list (ChatItem Id)) : option nat :=
  match rev l with
  | ItemMessage _ :: _ => Some (Nat.pred (List.length l))
  | _ => None
  end.

Definition item_id {Id : Type} (it : ChatItem Id) : Id :=
  match it with
  | ItemMessage m => msg_id m
  | ItemDate i _ => i
  | ItemSystem i _ => i
  end.

(** Every message item has a display timestamp. *)
Definition timestamps_set {Id : Type} (st : pstate Id) : Prop :=
  forall m, In (ItemMessage m) (messages st) -> timestamp m <> [].

(** The users are the distinct speakers in first-seen order. *)
Definition users_ok {Id : Type} (st : pstate Id) : Prop :=
  users st = nub (speakers_of (messages st)).

(** [lastMessage], when set, refers to an item at index [n] or later. *)
Definition tracker_after {Id : Type} (n : nat) (st : pstate Id) : Prop :=
  forall i, lastMessage st = Some i -> (n <= i)%nat.

(** The items [base] are a frozen prefix of [messages]: the tracker points
    behind them, and the first message emitted after them is not a
    continuation. *)
Definition frozen {Id : Type} (base : list (ChatItem Id)) (st : pstate Id) : Prop :=
  exists cur, messages st = base ++ cur
              /\ first_message_fresh cur
              /\ tracker_after (List.length base) st.

(** What a date-only header line does in state [st]: nothing when its
    formatted date is [lastDate]; otherwise it emits a date item with the
    given payload and resets the tracker, after which the items emitted so
    far are frozen. *)
Definition header_law {Id : Type} (random : nat -> Id)
    (step : pstate Id -> jsstring -> result (pstate Id))
    (payload : jsstring -> jsstring) (st : pstate Id) (line : jsstring) : Prop :=
  let formattedDate := formatDateWithDay (date_text line) in
  (opt_str_eqb formattedDate (lastDate st) = true -> step st line = Ok st)
  /\ (opt_str_eqb formattedDate (lastDate st) = false ->
      exists st',
        step st line = Ok st'
        /\ messages st' = messages st ++ [ItemDate (random (draws st)) (payload line)]
        /\ lastMessage st' = None
        /\ lastDate st' = Some formattedDate
        /\ forall later,
             exists st'' tail,
               run step st' later = Ok st''
               /\ messages st'' = messages st' ++ tail
               /\ first_message_fresh tail).

(** Neighbours in a list of date payloads have different date texts. *)
Fixpoint adjacent_distinct (l : list jsstring) : Prop :=
  match l with
  | p1 :: l' =>
      match l' with
      | p2 :: _ => date_text p1 <> date_text p2 /\ adjacent_distinct l'
      | [] => True
      end
  | [] => True
  end.

Definition last_error {A : Type} (l : list A) : option A :=
  match rev l with
  | x :: _ => Some x
  | [] => None
  end.

(** [lastDate] is the formatted date of the last date item emitted, and
    the date items emitted so far have pairwise different neighbours. *)
Definition dates_ok {Id : Type} (st : pstate Id) : Prop :=
  adjacent_distinct (dates_of (messages st))
  /\ forall p, last_error (dates_of (messages st)) = Some p ->
               lastDate st = Some (formatDateWithDay (date_text p)).

(** The payloads of a revision keep the date text they were made from. *)
Definition keeps_date_text (v : revision) : Prop :=
  (forall line d, header_date line = Some d ->
                  date_text (header_payload v line d) = d)
  /\ (forall ts d t, qDATE ts = Some (d, [], t) ->
                     date_text (message_payload v ts d) = d).

(** The calendar date a payload denotes: the numbers [formatDateWithDay]
    reads from it (year, month, day). *)
Definition calendar_date (payload : jsstring) : option (Z * Z * Z) :=
  match jsmatch payload ymdRegex with
  | Some m =>
      match parseInt_capture (mget m 1), parseInt_capture (mget m 2),
            parseInt_capture (mget m 3) with
      | Some y, Some mo, Some d => Some (y, mo, d)
      | _, _, _ => None
      end
  | None => None
  end.

(** An item of the first revision against the item of the second revision
    at the same position: same kind, the same message fields and system
    text; the date item of the first revision carries a raw timestamp, the
    one of the second revision the weekday-annotated date of that
    timestamp. *)
Definition item_rel {Id1 Id2 : Type} (a : ChatItem Id1) (b : ChatItem Id2) : Prop :=
  match a, b with
  | ItemMessage m1, ItemMessage m2 =>
      user m1 = user m2 /\ content m1 = content m2
      /\ timestamp m1 = timestamp m2 /\ isContinuation m1 = isContinuation m2
  | ItemDate _ p1, ItemDate _ p2 =>
      jsmatch p1 V1.dateSeparatorRegex <> None
      /\ p2 = formatDateWithDay (date_text p1)
  | ItemSystem _ c1, ItemSystem _ c2 => c1 = c2
  | _, _ => False
  end.

Definition state_rel {Id1 Id2 : Type} (st1 : pstate Id1) (st2 : pstate Id2) : Prop :=
  Forall2 item_rel (messages st1) (messages st2)
  /\ users st1 = users st2
  /\ lastMessage st1 = lastMessage st2
  /\ lastDate st1 = lastDate st2.

(** The identity of the [k]-th item is the [k]-th draw, and every draw went
    into an item. *)
Definition ids_ok {Id : Type} (random : nat -> Id) (st : pstate Id) : Prop :=
  draws st = List.length (messages st)
  /\ List.map item_id (messages st) = List.map random (seq 0 (List.length (messages st))).

Definition is_system {Id : Type} (it : ChatItem Id) : bool :=
  match it with
  | ItemSystem _ _ => true
  | _ => false
  end.

(** The tests of the loop body on a line. *)
Definition matches_message (line : jsstring) : bool :=
  match jsmatch line messageRegex with
  | Some _ => true
  | None => false
  end.

(** [b] is [a], possibly with lines appended to its body. *)
Definition extends {Id : Type} (a b : ChatItem Id) : Prop :=
  same_but_content a b
  /\ match a, b with
     | ItemMessage m, ItemMessage m' => exists more, content m' = content m ++ more
     | _, _ => True
     end.

(** Same speaker and same display timestamp. *)
Definition same_group {Id : Type} (m0 m : Message Id) : bool :=
  str_eqb (user m0) (user m) && str_eqb (timestamp m0) (timestamp m).

(** The continuation flag of an item given the item before it. *)
Definition flag_law {Id : Type} (prev : option (ChatItem Id)) (x : ChatItem Id) : Prop :=
  match x with
  | ItemMessage m =>
      match prev with
      | Some (ItemMessage m0) => isContinuation m = same_group m0 m
      | Some (ItemDate _ _) => True
      | Some (ItemSystem _ _) => isContinuation m = false
      | None => isContinuation m = false
      end
  | _ => True
  end.

Fixpoint flags_ok {Id : Type} (prev : option (ChatItem Id))
    (l : list (ChatItem Id)) : Prop :=
  match l with
  | [] => True
  | x :: l' => flag_law prev x /\ flags_ok (Some x) l'
  end.

(** The last item of [l], or [prev] when [l] is empty. *)
Definition last_or {A : Type} (prev : option A) (l : list A) : option A :=
  match last_error l with
  | Some y => Some y
  | None => prev
  end.

(** The tracker is the last item when that is a message, and the flags set
    so far follow [flag_law]. *)
Definition flags_invariant {Id : Type} (st : pstate Id) : Prop :=
  lastMessage st = tracker_of (messages st) /\ flags_ok None (messages st).

(** ** The callers in [App.tsx] *)

(** [isLastInGroup] of the render loop, computed for the message [item] at
    [index]: [!(nextItem?.type === 'message' && item.type === 'message' &&
    nextItem.user === item.user && nextItem.timestamp === item.timestamp)]. *)
Definition isLastInGroup {Id : Type} (chatItems : list (ChatItem Id))
    (index : nat) (item : Message Id) : bool :=
  negb match nth_error chatItems (index + 1) with
       | Some (ItemMessage nextItem) =>
           str_eqb (user nextItem) (user item)
           && str_eqb (timestamp nextItem) (timestamp item)
       | _ => false
       end.

(** [handleUpdateMessage(id, newContent)] applied to the list of items:
    [prevItems.map(item => item.id === id && item.type === 'message'
       ? { ...item, content: newContent } : item)].
    [id_eqb] is [===] on the ids. *)
Definition handleUpdateMessage {Id : Type} (id_eqb : Id -> Id -> bool) (id : Id)
    (newContent : jsstring) (prevItems : list (ChatItem Id)) : list (ChatItem Id) :=
  List.map
    (fun item =>
       match item with
       | ItemMessage m =>
           if id_eqb (msg_id m) id
           then ItemMessage (mkMessage (msg_id m) (user m) newContent (timestamp m)
                                       (fullTimestamp m) (isContinuation m))
           else item
       | _ => item
       end)
    prevItems.

(** [User] of [types.ts]; [avatarUrl] is never set. *)
Record User : Type := mkUser {
  name : jsstring;
  isMe : bool;
  avatarColor : option jsstring   (* [None] is [undefined] *)
}.

Definition AVATAR_COLORS : list jsstring :=
  Eval cbv in List.map utf16
    ["bg-red-500"; "bg-green-500"; "bg-blue-500"; "bg-indigo-500";
     "bg-purple-500"; "bg-pink-500"]%string.

(** The own properties of a [Record<string, User>] in insertion order;
    [obj_set] is [o[k] = u] and [obj_get] is [o[k]] for a key that was set
    (properties inherited from [Object.prototype] are not modelled). *)
Fixpoint obj_set (k : jsstring) (u : User) (o : list (jsstring * User))
    : list (jsstring * User) :=
  match o with
  | [] => [(k, u)]
  | (k', u') :: o' =>
      if str_eqb k k' then (k', u) :: o' else (k', u') :: obj_set k u o'
  end.

Fixpoint obj_get (k : jsstring) (o : list (jsstring * User)) : option User :=
  match o with
  | [] => None
  | (k', u') :: o' => if str_eqb k k' then Some u' else obj_get k o'
  end.

(** The profiles [handleSelectUser] builds:
    [parsedUsers.forEach((name, index) => userProfiles[name] =
       { name, isMe: name === selectedName,
         avatarColor: AVATAR_COLORS[index % AVATAR_COLORS.length] })]. *)
Fixpoint build_profiles (selectedName : jsstring) (index : nat)
    (parsedUsers : list jsstring) (userProfiles : list (jsstring * User))
    : list (jsstring * User) :=
  match parsedUsers with
  | [] => userProfiles
  | n :: rest =>
      build_profiles selectedName (S index) rest
        (obj_set n
           (mkUser n (str_eqb n selectedName)
                   (nth_error AVATAR_COLORS (index mod List.length AVATAR_COLORS)))
           userProfiles)
  end.

Definition userProfiles_of (selectedName : jsstring) (parsedUsers : list jsstring)
    : list (jsstring * User) :=
  build_profiles selectedName 0 parsedUsers [].

(** A profile as [handleSelectUser] makes it for the user at [index]. *)
Definition profile_of (selectedName n : jsstring) (index : nat) : User :=
  mkUser n (str_eqb n selectedName)
         (nth_error AVATAR_COLORS (index mod List.length AVATAR_COLORS)).

(** Previous items that differ at most in a message body. *)
Definition same_prev {Id : Type} (a b : option (ChatItem Id)) : Prop :=
  match a, b with
  | Some x, Some y => same_but_content x y
  | None, None => True
  | _, _ => False
  end.

(** The date text of the last date item of [l], or [cur] when [l] has no
    date item. *)
Fixpoint current_date {Id : Type} (cur : option jsstring)
    (l : list (ChatItem Id)) : option jsstring :=
  match l with
  | [] => cur
  | ItemDate _ p :: l' => current_date (Some (date_text p)) l'
  | _ :: l' => current_date cur l'
  end.

(** Walking the items from the first one, every message stores a full
    timestamp whose date text is that of the date item last passed. *)
Fixpoint under_own_date {Id : Type} (cur : option jsstring)
    (l : list (ChatItem Id)) : Prop :=
  match l with
  | [] => True
  | ItemMessage m :: l' =>
      (exists ft, fullTimestamp m = Some ft /\ cur = Some (date_text ft))
      /\ under_own_date cur l'
  | ItemDate _ p :: l' => under_own_date (Some (date_text p)) l'
  | ItemSystem _ _ :: l' => under_own_date cur l'
  end.

(** The state between two iterations of the first revision: the messages
    sit under their dates, and [lastDate] is the formatted date of the last
    date item. *)
Definition dated {Id : Type} (st : pstate Id) : Prop :=
  under_own_date None (messages st)
  /\ lastDate st = option_map formatDateWithDay (current_date None (messages st))
  /\ forall d, current_date None (messages st) = Some d ->
               exists s u r, qDATE s = Some (d, u, r).

(** ** The display of a date item ([App.tsx], first revision)

    [App.tsx] carries its own copy of [formatDateWithDay], the same text as
    the one of [chatParser.ts]. *)

Inductive ui_mode : Type := Kakaotalk | Instagram.

(** [/(오전|오후) \d{1,2}:\d{2}/] *)
Definition timeOfDayRegex : regex :=
  (Grp 1 AMPM ;; Chr SP ;; d12 ;; Chr COLON ;; d2)%re.

(** [parseInt(s, 10)]; [None] is [NaN]. *)
Definition parseInt10 (s : jsstring) : option Z :=
  let s1 := trimStart s in
  let '(sign, s2) :=
    match s1 with
    | 0x2D :: t => (-1, t)
    | 0x2B :: t => (1, t)
    | _ => (1, s1)
    end in
  match s2 with
  | c :: _ => if is_digit c then Some (sign * decimal_value 0 s2) else None
  | [] => None
  end.

Definition parseInt10_capture (o : option jsstring) : option Z :=
  match o with
  | Some s => parseInt10 s
  | None => None
  end.

Fixpoint decimal_digits (fuel : nat) (n : Z) (acc : jsstring) : jsstring :=
  let acc' := (0x30 + n mod 10) :: acc in
  match fuel with
  | O => acc'
  | S f => if n / 10 =? 0 then acc' else decimal_digits f (n / 10) acc'
  end.

Definition NAN : jsstring := Eval cbv in utf16 "NaN".

(** A number interpolated in a template literal: an integer of magnitude
    below 10^21 is written in decimal digits; [None] is [NaN]. *)
Definition number_toString (v : option Z) : jsstring :=
  match v with
  | None => NAN
  | Some n =>
      if n <? 0 then 0x2D :: decimal_digits (Z.to_nat (Z.log2 (- n))) (- n) []
      else decimal_digits (Z.to_nat (Z.log2 n)) n []
  end.

Definition DOT : char := 0x2E.

Definition formatDateForDisplay (dateString : jsstring) (mode : ui_mode) : jsstring :=
  match jsmatch dateString ymdRegex with
  | None => dateString
  | Some dateMatch =>
      match mode with
      | Kakaotalk => formatDateWithDay (whole dateMatch)
      | Instagram =>
          let timeMatch := jsmatch dateString timeOfDayRegex in
          let year := mget dateMatch 1 in
          let month := mget dateMatch 2 in
          let day := mget dateMatch 3 in
          let time :=
            match timeMatch with
            | Some tm => SP :: whole tm
            | None => []
            end in
          let formattedMonth := parseInt10_capture month in
          let formattedDay := parseInt10_capture day in
          interpolate year ++ DOT :: SP :: number_toString formattedMonth
            ++ DOT :: SP :: number_toString formattedDay ++ DOT :: time
      end
  end.

(** The reader of [timeOfDayRegex]. *)
Definition qTOD : reader :=
  qseq (qgrp 1 qampm) (qseq (qchr SP)
    (qseq qd12 (qseq (qchr COLON) (qcount is_digit 2)))).

(** One or two digits without a leading zero. *)
Definition without_leading_zero (s : jsstring) : jsstring :=
  match s with
  | 0x30 :: (_ :: _) as s' => s'
  | _ => s
  end.

(** A date item of the first revision next to the item of the second
    revision at the same position: what the first [App.tsx] displays in
    the [kakaotalk] mode is the payload of the second. *)
Definition same_date_display {Id1 Id2 : Type} (a : ChatItem Id1) (b : ChatItem Id2)
    : Prop :=
  match a, b with
  | ItemDate _ p1, ItemDate _ p2 => formatDateForDisplay p1 Kakaotalk = p2
  | ItemDate _ _, _ => False
  | _, ItemDate _ _ => False
  | _, _ => True
  end.

(** ** Saving an edit ([ChatBubble.tsx])

    [handleSave] of a bubble whose text area holds [editText], with
    [onUpdate] bound to [handleUpdateMessage] as [App.tsx] passes it; the
    editing flag of the bubble is not part of the item list. *)
Definition handleSave {Id : Type} (id_eqb : Id -> Id -> bool) (message : Message Id)
    (editText : jsstring) (items : list (ChatItem Id)) : list (ChatItem Id) :=
  if negb (str_eqb (trim editText) (content message))
  then handleUpdateMessage id_eqb (msg_id message) (trim editText) items
  else items.

(** A text that is not empty and does not start with white space. *)
Definition starts_clean (s : jsstring) : Prop :=
  match s with
  | c :: _ => is_space c = false
  | [] => False
  end.

(** A text that is not empty and has no white space at either end. *)
Definition tidy (s : jsstring) : Prop := starts_clean s /\ starts_clean (rev s).

Definition contents_tidy {Id : Type} (st : pstate Id) : Prop :=
  forall m, In (ItemMessage m) (messages st) -> tidy (content m).

(** ** Images ([ChatBubble.tsx] and the folder upload of [App.tsx]) *)

(** [s.endsWith(suffix)] *)
Definition endsWith (s suffix : jsstring) : bool :=
  if (List.length s <? List.length suffix)%nat then false
  else str_eqb (skipn (List.length s - List.length suffix) s) suffix.

Definition DOT_JPG : jsstring := Eval cbv in utf16 ".jpg".
Definition DOT_PNG : jsstring := Eval cbv in utf16 ".png".
Definition DOT_JPEG : jsstring := Eval cbv in utf16 ".jpeg".

(** [isImage] of a bubble. *)
Definition isImage (content : jsstring) : bool :=
  endsWith content DOT_JPG || endsWith content DOT_PNG || endsWith content DOT_JPEG.

(** A lower-case ASCII letter under the [i] flag: the letter or its upper
    case (no character outside ASCII is canonicalized to an ASCII one). *)
Definition ci (c : char) : regex := Cls (fun d => (d =? c) || (d =? c - 0x20)).

(** [/\.(jpg|jpeg|png|gif)$/i] *)
Definition imageFileRegex : regex :=
  (Chr DOT ;;
   Grp 1 (Alt (ci 0x6A ;; ci 0x70 ;; ci 0x67)
         (Alt (ci 0x6A ;; ci 0x70 ;; ci 0x65 ;; ci 0x67)
         (Alt (ci 0x70 ;; ci 0x6E ;; ci 0x67)
              (ci 0x67 ;; ci 0x69 ;; ci 0x66)))) ;;
   Eol)%re.

(** The own properties of a [Record<string, V>], as for the profiles. *)
Fixpoint store_set {V : Type} (k : jsstring) (v : V) (o : list (jsstring * V))
    : list (jsstring * V) :=
  match o with
  | [] => [(k, v)]
  | (k', v') :: o' =>
      if str_eqb k k' then (k', v) :: o' else (k', v') :: store_set k v o'
  end.

Fixpoint store_get {V : Type} (k : jsstring) (o : list (jsstring * V)) : option V :=
  match o with
  | [] => None
  | (k', v') :: o' => if str_eqb k k' then Some v' else store_get k o'
  end.

Section FolderUpload.
Context {File Url : Type}.
Variable file_name : File -> jsstring.          (* [f.name] *)
Variable createObjectURL : File -> Url.         (* [URL.createObjectURL(f)] *)

(** [for (const imageFile of imageFiles)
       newImageStore[imageFile.name] = URL.createObjectURL(imageFile)] *)
Fixpoint fill_store (imageFiles : list File) (newImageStore : list (jsstring * Url))
    : list (jsstring * Url) :=
  match imageFiles with
  | [] => newImageStore
  | imageFile :: more =>
      fill_store more
        (store_set (file_name imageFile) (createObjectURL imageFile) newImageStore)
  end.

(** The image store [handleFolderUpload] builds from the files of a
    folder. *)
Definition folderImageStore (fileArray : list File) : list (jsstring * Url) :=
  let imageFiles :=
    filter (fun f => match jsmatch (file_name f) imageFileRegex with
                     | Some _ => true
                     | None => false
                     end) fileArray in
  fill_store imageFiles [].
End FolderUpload.

(** * Properties *)

(** ** The matcher *)

Lemma str_eqb_eq (a b : jsstring) : str_eqb a b = true <-> a = b.
Proof.
  revert b; induction a as [|x a IH]; intros [|y b]; simpl; split; intro H;
    try reflexivity; try discriminate.
  - apply andb_prop in H as [H1 H2]. apply Z.eqb_eq in H1. apply IH in H2.
    congruence.
  - injection H as -> ->. rewrite Z.eqb_refl. simpl. now apply IH.
Qed.

Lemma str_eqb_refl (a : jsstring) : str_eqb a a = true.
Proof. now apply str_eqb_eq. Qed.

Lemma str_eqb_neq (a b : jsstring) : str_eqb a b = false <-> a <> b.
Proof.
  split.
  - intros H E. apply str_eqb_eq in E. congruence.
  - intros H. destruct (str_eqb a b) eqn:E; [|reflexivity].
    apply str_eqb_eq in E. contradiction.
Qed.

Lemma flat_map_single {A B : Type} (f : A -> list B) (a : A) :
  flat_map f [a] = f a.
Proof. simpl. apply app_nil_r. Qed.

Lemma matches_seq (r1 r2 : regex) (x : mstate) :
  matches (Seq r1 r2) x = flat_map (matches r2) (matches r1 x).
Proof. reflexivity. Qed.

Lemma succ_neq (n : nat) : Nat.eqb (S n) n = false.
Proof. apply Nat.eqb_neq. lia. Qed.

Lemma matches_d12 (x : mstate) : matches d12 x = d12_states x.
Proof.
  destruct x as [p s cs]. unfold d12, d12_states. cbn -[Nat.eqb is_digit].
  destruct s as [|a s1]; [reflexivity|].
  destruct (is_digit a); [|reflexivity].
  destruct s1 as [|b s2]; cbn -[Nat.eqb is_digit]; [reflexivity|].
  destruct (is_digit b); cbn -[Nat.eqb is_digit]; rewrite ?succ_neq; reflexivity.
Qed.

Lemma det_cls (p : char -> bool) : det (Cls p) (qcls p).
Proof.
  intros [n s cs]. unfold run_reader, qcls. simpl.
  destruct s as [|d s]; [reflexivity|]. destruct (p d); [|reflexivity].
  simpl. repeat f_equal. lia.
Qed.

Lemma det_chr (c : char) : det (Chr c) (qchr c).
Proof.
  intros [n s cs]. unfold run_reader, qchr, qcls. simpl.
  destruct s as [|d s]; [reflexivity|]. destruct (d =? c); [|reflexivity].
  simpl. repeat f_equal. lia.
Qed.

Lemma det_seq (r1 r2 : regex) (q1 q2 : reader) :
  det r1 q1 -> det r2 q2 -> det (Seq r1 r2) (qseq q1 q2).
Proof.
  intros H1 H2 [n s cs]. rewrite matches_seq, H1.
  unfold run_reader, qseq. simpl.
  destruct (q1 s) as [[[c1 u1] s1]|]; [|reflexivity].
  rewrite flat_map_single, H2. unfold run_reader. simpl.
  destruct (q2 s1) as [[[c2 u2] s2]|]; [|reflexivity].
  rewrite length_app, Nat.add_assoc, app_assoc. reflexivity.
Qed.

Lemma det_grp (i : nat) (r : regex) (q : reader) :
  det r q -> local q -> det (Grp i r) (qgrp i q).
Proof.
  intros H L [n s cs]. simpl. rewrite H. unfold run_reader, qgrp. simpl.
  destruct (q s) as [[[c u] s1]|] eqn:E; [|reflexivity].
  simpl. destruct (L _ _ _ _ E) as [-> _].
  replace (n + List.length c - n)%nat with (List.length c) by lia.
  rewrite firstn_app, firstn_all, Nat.sub_diag. simpl. rewrite app_nil_r.
  reflexivity.
Qed.

Lemma single_state (p p' : nat) (r : jsstring) (c c' : list (nat * jsstring)) :
  p = p' -> c = c' -> [MState p r c] = [MState p' r c'].
Proof. intros -> ->. reflexivity. Qed.

Ltac solve_state :=
  apply single_state;
  [ rewrite ?length_app; cbn [List.length]; lia
  | rewrite <- ?app_assoc, ?app_nil_r; cbn [firstn app]; reflexivity ].

Lemma rep_exact (p : char -> bool) (g : bool) (n : nat) (x : mstate) :
  rep (matches (Cls p)) g n n (Some n) x = run_reader (qcount p n) x.
Proof.
  revert x; induction n as [|n IH]; intros [k s cs].
  - unfold run_reader. simpl. solve_state.
  - cbn -[Nat.eqb]. destruct s as [|d s]; [reflexivity|].
    unfold run_reader, qseq, qcls. cbn -[Nat.eqb].
    destruct (p d); [|reflexivity].
    cbn -[Nat.eqb]. rewrite app_nil_r, IH. unfold run_reader. simpl.
    destruct (qcount p n s) as [[[c u] s1]|]; [|reflexivity].
    solve_state.
Qed.

Lemma det_d4 : det d4 (qcount is_digit 4).
Proof. intro x. apply (rep_exact is_digit true 4). Qed.

Lemma det_d2 : det d2 (qcount is_digit 2).
Proof. intro x. apply (rep_exact is_digit true 2). Qed.

Lemma starts_chr (c : char) : starts_with c (Chr c).
Proof.
  intros [k s cs] H. simpl in *. destruct s as [|d s]; [reflexivity|].
  now rewrite H.
Qed.

Lemma starts_seq (c : char) (r1 r2 : regex) :
  starts_with c r1 -> starts_with c (Seq r1 r2).
Proof. intros H x Hx. rewrite matches_seq, (H x Hx). reflexivity. Qed.

Lemma digit_neq (b c : char) :
  is_digit b = true -> is_digit c = false -> (b =? c) = false.
Proof.
  intros Hb Hc. apply Z.eqb_neq. intros ->. congruence.
Qed.

(** [\d{1,2}] in front of a literal that is not a digit never backtracks. *)
Lemma det_d12_then (c : char) (K : regex) (qK : reader) :
  is_digit c = false -> starts_with c K -> det K qK ->
  det (Seq d12 K) (qseq qd12 qK).
Proof.
  intros Hc HK HD [k s cs]. rewrite matches_seq, matches_d12.
  unfold d12_states, run_reader, qseq, qd12. cbn [rest pos caps].
  destruct s as [|a s1]; [reflexivity|].
  destruct (is_digit a); [|reflexivity].
  destruct s1 as [|b s2].
  - rewrite flat_map_single, HD. unfold run_reader. cbn [rest pos caps].
    destruct (qK []) as [[[c2 u2] r2]|]; [|reflexivity].
    solve_state.
  - destruct (is_digit b) eqn:Hb.
    + cbn [flat_map]. rewrite app_nil_r.
      rewrite (HK (MState (S k) (b :: s2) cs)), app_nil_r
        by (simpl; now apply digit_neq).
      rewrite HD. unfold run_reader. cbn [rest pos caps].
      destruct (qK s2) as [[[c2 u2] r2]|]; [|reflexivity].
      solve_state.
    + rewrite flat_map_single, HD. unfold run_reader. cbn [rest pos caps].
      destruct (qK (b :: s2)) as [[[c2 u2] r2]|]; [|reflexivity].
      solve_state.
Qed.

(** The same inside a capturing group. *)
Lemma det_grp_d12_then (i : nat) (c : char) (K : regex) (qK : reader) :
  is_digit c = false -> starts_with c K -> det K qK ->
  det (Seq (Grp i d12) K) (qseq (qgrp i qd12) qK).
Proof.
  intros Hc HK HD [k s cs]. rewrite matches_seq.
  cbn [matches]. fold d12. rewrite matches_d12.
  unfold d12_states, run_reader, qseq, qgrp, qd12. cbn [rest pos caps].
  destruct s as [|a s1]; [reflexivity|].
  destruct (is_digit a); [|reflexivity].
  replace (S k - k)%nat with 1%nat by lia.
  destruct s1 as [|b s2].
  - cbn [List.map rest pos caps].
    replace (S k - k)%nat with 1%nat by lia.
    rewrite flat_map_single, HD. unfold run_reader. cbn [rest pos caps].
    destruct (qK []) as [[[c2 u2] r2]|]; [|reflexivity].
    solve_state.
  - destruct (is_digit b) eqn:Hb.
    + cbn [List.map rest pos caps flat_map].
      replace (S (S k) - k)%nat with 2%nat by lia.
      replace (S k - k)%nat with 1%nat by lia.
      rewrite app_nil_r.
      rewrite (HK (MState (S k) (b :: s2) _)), app_nil_r
        by (simpl; now apply digit_neq).
      rewrite HD. unfold run_reader. cbn [rest pos caps].
      destruct (qK s2) as [[[c2 u2] r2]|]; [|reflexivity].
      solve_state.
    + cbn [List.map rest pos caps].
      replace (S k - k)%nat with 1%nat by lia.
      rewrite flat_map_single, HD. unfold run_reader. cbn [rest pos caps].
      destruct (qK (b :: s2)) as [[[c2 u2] r2]|]; [|reflexivity].
      solve_state.
Qed.

Lemma det_ampm : det AMPM qampm.
Proof.
  intros [k s cs]. unfold run_reader, qampm, AMPM. cbn [matches rest pos caps].
  destruct s as [|o [|j r]]; cbn [flat_map app].
  - reflexivity.
  - destruct (o =? O_); reflexivity.
  - destruct (o =? O_); cbn [flat_map app rest pos caps andb]; [|reflexivity].
    destruct (j =? JEON) eqn:E1; destruct (j =? HU) eqn:E2;
      cbn [flat_map app orb]; try reflexivity; try solve_state.
    apply Z.eqb_eq in E1, E2. subst j. discriminate.
Qed.

(** ** Locality of the readers *)

Lemma local_cls (p : char -> bool) : local (qcls p).
Proof.
  intros s c u r H. unfold qcls in *. destruct s as [|d s]; [discriminate|].
  destruct (p d) eqn:E; [|discriminate]. injection H as <- <- <-.
  split; [reflexivity|]. intros r'. simpl. now rewrite E.
Qed.

Lemma local_chr (c : char) : local (qchr c).
Proof. apply local_cls. Qed.

Lemma local_seq (q1 q2 : reader) : local q1 -> local q2 -> local (qseq q1 q2).
Proof.
  intros L1 L2 s c u r H. unfold qseq in *.
  destruct (q1 s) as [[[c1 u1] r1]|] eqn:E1; [|discriminate].
  destruct (q2 r1) as [[[c2 u2] r2]|] eqn:E2; [|discriminate].
  injection H as <- <- <-.
  destruct (L1 _ _ _ _ E1) as [-> K1]. destruct (L2 _ _ _ _ E2) as [-> K2].
  split; [now rewrite app_assoc|]. intros r'.
  now rewrite <- app_assoc, K1, K2.
Qed.

Lemma local_grp (i : nat) (q : reader) : local q -> local (qgrp i q).
Proof.
  intros L s c u r H. unfold qgrp in *.
  destruct (q s) as [[[c1 u1] r1]|] eqn:E1; [|discriminate].
  injection H as <- <- <-. destruct (L _ _ _ _ E1) as [-> K1].
  split; [reflexivity|]. intros r'. now rewrite K1.
Qed.

Lemma local_count (p : char -> bool) (n : nat) : local (qcount p n).
Proof.
  induction n as [|n IH]; simpl.
  - intros s c u r H. injection H as <- <- <-. split; reflexivity.
  - apply local_seq; [apply local_cls | exact IH].
Qed.

Lemma local_ampm : local qampm.
Proof.
  intros s c u r H. unfold qampm in *. destruct s as [|o [|j s]]; try discriminate.
  destruct ((o =? O_) && ((j =? JEON) || (j =? HU))) eqn:E; [|discriminate].
  injection H as <- <- <-. split; [reflexivity|]. intros r'. simpl. now rewrite E.
Qed.

Lemma qstarts_chr (c : char) : qstarts c (qchr c).
Proof.
  intros s t u r H. unfold qchr, qcls in H. destruct s as [|d s]; [discriminate|].
  destruct (d =? c) eqn:E; [|discriminate]. injection H as <- <- <-.
  apply Z.eqb_eq in E. subst. now exists [].
Qed.

Lemma qstarts_seq (c : char) (q1 q2 : reader) :
  qstarts c q1 -> qstarts c (qseq q1 q2).
Proof.
  intros H1 s t u r H. unfold qseq in H.
  destruct (q1 s) as [[[c1 u1] r1]|] eqn:E1; [|discriminate].
  destruct (q2 r1) as [[[c2 u2] r2]|] eqn:E2; [|discriminate].
  injection H as <- <- <-. destruct (H1 _ _ _ _ E1) as [t' ->].
  now exists (t' ++ c2).
Qed.

(** What [qd12] returns. *)
Lemma qd12_inv (s c : jsstring) (u : list (nat * jsstring)) (r : jsstring) :
  qd12 s = Some (c, u, r) ->
  u = [] /\ s = c ++ r /\
  ((exists a, c = [a] /\ is_digit a = true
              /\ match r with b :: _ => is_digit b = false | [] => True end)
   \/ (exists a b, c = [a; b] /\ is_digit a = true /\ is_digit b = true)).
Proof.
  unfold qd12. destruct s as [|a s1]; [discriminate|].
  destruct (is_digit a) eqn:Ha; [|discriminate].
  destruct s1 as [|b s2].
  - intros H. injection H as <- <- <-. repeat split. left. now exists a.
  - destruct (is_digit b) eqn:Hb; intros H; injection H as <- <- <-;
      repeat split; [right; now exists a, b | left; now exists a].
Qed.

Lemma qd12_one (a : char) (s : jsstring) :
  is_digit a = true ->
  match s with b :: _ => is_digit b = false | [] => True end ->
  qd12 (a :: s) = Some ([a], [], s).
Proof.
  intros Ha Hs. unfold qd12. rewrite Ha. destruct s as [|b s]; [reflexivity|].
  now rewrite Hs.
Qed.

Lemma qd12_two (a b : char) (s : jsstring) :
  is_digit a = true -> is_digit b = true ->
  qd12 (a :: b :: s) = Some ([a; b], [], s).
Proof. intros Ha Hb. unfold qd12. now rewrite Ha, Hb. Qed.

Lemma local_before_d12 (c : char) : is_digit c = false -> local_before c qd12.
Proof.
  intros Hc s t u r H. destruct (qd12_inv _ _ _ _ H) as (-> & -> & Hs).
  split; [reflexivity|]. intros r'.
  destruct Hs as [(a & -> & Ha & _)|(a & b & -> & Ha & Hb)].
  - now apply (qd12_one a (c :: r')).
  - now apply (qd12_two a b (c :: r')).
Qed.

Lemma local_before_grp (i : nat) (c : char) (q : reader) :
  local_before c q -> local_before c (qgrp i q).
Proof.
  intros L s t u r H. unfold qgrp in *.
  destruct (q s) as [[[c1 u1] r1]|] eqn:E1; [|discriminate].
  injection H as <- <- <-. destruct (L _ _ _ _ E1) as [-> K1].
  split; [reflexivity|]. intros r'. now rewrite K1.
Qed.

Lemma local_seq_before (c : char) (q1 qK : reader) :
  local_before c q1 -> qstarts c qK -> local qK -> local (qseq q1 qK).
Proof.
  intros L1 HS LK s t u r H. unfold qseq in *.
  destruct (q1 s) as [[[c1 u1] r1]|] eqn:E1; [|discriminate].
  destruct (qK r1) as [[[c2 u2] r2]|] eqn:E2; [|discriminate].
  injection H as <- <- <-.
  destruct (L1 _ _ _ _ E1) as [-> K1]. destruct (LK _ _ _ _ E2) as [-> K2].
  destruct (HS _ _ _ _ E2) as [t' ->].
  split; [now rewrite app_assoc|]. intros r'.
  rewrite <- app_assoc. simpl. rewrite K1.
  change (c :: t' ++ r') with ((c :: t') ++ r'). now rewrite K2.
Qed.

Ltac qstarts_tac :=
  first [ apply qstarts_chr | apply qstarts_seq; apply qstarts_chr ].

Ltac starts_tac :=
  first [ apply starts_chr | apply starts_seq; apply starts_chr ].

(** Locality of a reader built from the combinators. *)
Ltac local_tac :=
  lazymatch goal with
  | |- local (qseq qd12 (qchr ?c)) =>
      apply (local_seq_before c);
      [ apply local_before_d12; reflexivity | qstarts_tac | local_tac ]
  | |- local (qseq qd12 (qseq (qchr ?c) _)) =>
      apply (local_seq_before c);
      [ apply local_before_d12; reflexivity | qstarts_tac | local_tac ]
  | |- local (qseq (qgrp _ qd12) (qchr ?c)) =>
      apply (local_seq_before c);
      [ apply local_before_grp, local_before_d12; reflexivity
      | qstarts_tac | local_tac ]
  | |- local (qseq (qgrp _ qd12) (qseq (qchr ?c) _)) =>
      apply (local_seq_before c);
      [ apply local_before_grp, local_before_d12; reflexivity
      | qstarts_tac | local_tac ]
  | |- local (qseq _ _) => apply local_seq; local_tac
  | |- local (qgrp _ _) => apply local_grp; local_tac
  | |- local (qcount _ _) => apply local_count
  | |- local (qchr _) => apply local_chr
  | |- local (qcls _) => apply local_cls
  | |- local qampm => apply local_ampm
  end.

(** Determinism of a pattern against the reader of the same shape. *)
Ltac det_tac :=
  lazymatch goal with
  | |- det (Seq d12 (Chr ?c)) _ =>
      apply (det_d12_then c); [ reflexivity | starts_tac | det_tac ]
  | |- det (Seq d12 (Seq (Chr ?c) _)) _ =>
      apply (det_d12_then c); [ reflexivity | starts_tac | det_tac ]
  | |- det (Seq (Grp ?i d12) (Chr ?c)) _ =>
      apply (det_grp_d12_then i c); [ reflexivity | starts_tac | det_tac ]
  | |- det (Seq (Grp ?i d12) (Seq (Chr ?c) _)) _ =>
      apply (det_grp_d12_then i c); [ reflexivity | starts_tac | det_tac ]
  | |- det (Seq _ _) _ => apply det_seq; det_tac
  | |- det (Grp _ _) _ => apply det_grp; [ det_tac | local_tac ]
  | |- det d4 _ => apply det_d4
  | |- det d2 _ => apply det_d2
  | |- det AMPM _ => apply det_ampm
  | |- det (Chr _) _ => apply det_chr
  | |- det (Cls _) _ => apply det_cls
  end.

Lemma local_DATE : local qDATE.
Proof. unfold qDATE. local_tac. Qed.

Lemma local_TIME : local qTIME.
Proof. unfold qTIME. local_tac. Qed.

Lemma local_YMD : local qYMD.
Proof. unfold qYMD. local_tac. Qed.

Lemma local_DISPLAY : local qDISPLAY.
Proof. unfold qDISPLAY. local_tac. Qed.

Lemma det_DATE : det DATE qDATE.
Proof. unfold DATE, qDATE. det_tac. Qed.

Lemma det_TIME : det TIME qTIME.
Proof. unfold TIME, qTIME. det_tac. Qed.

Lemma det_YMD : det ymdRegex qYMD.
Proof. unfold ymdRegex, qYMD. det_tac. Qed.

Lemma det_DISPLAY : det displayTimeRegex qDISPLAY.
Proof. unfold displayTimeRegex, qDISPLAY. det_tac. Qed.

(** ** The search loop *)

Lemma search_first (r : regex) (p : nat) (s : jsstring) (y : mstate)
    (l : list mstate) :
  matches r (MState p s []) = y :: l ->
  search r p s = Some (MatchResult (firstn (pos y - p) s) (caps y)).
Proof. intros H. destruct s; simpl; rewrite H; reflexivity. Qed.

Lemma search_bol_fail (r : regex) (s : jsstring) :
  forall p, p <> 0%nat -> search (Seq Bol r) p s = None.
Proof.
  induction s as [|c s IH]; intros p Hp; cbn [search matches pos];
    destruct (Nat.eqb_spec p 0) as [E|_]; try contradiction; cbn [flat_map].
  - reflexivity.
  - apply IH. lia.
Qed.

(** A pattern that starts with [^] is tried at index 0 only. *)
Lemma jsmatch_bol (r : regex) (s : jsstring) :
  jsmatch s (Seq Bol r) =
  match matches r (MState 0 s []) with
  | y :: _ => Some (MatchResult (firstn (pos y) s) (caps y))
  | [] => None
  end.
Proof.
  unfold jsmatch.
  assert (E : matches (Seq Bol r) (MState 0 s []) = matches r (MState 0 s [])).
  { cbn [matches pos Nat.eqb flat_map]. apply app_nil_r. }
  destruct (matches r (MState 0 s [])) as [|y l] eqn:M.
  - destruct s as [|c s]; cbn [search]; rewrite E; [reflexivity|].
    apply search_bol_fail. lia.
  - rewrite (search_first _ _ _ _ _ E). now rewrite Nat.sub_0_r.
Qed.

Lemma nocaps_cls (p : char -> bool) : nocaps (qcls p).
Proof.
  intros s c u r H. unfold qcls in H. destruct s as [|d s]; [discriminate|].
  destruct (p d); [|discriminate]. now injection H as <- <- <-.
Qed.

Lemma nocaps_chr (c : char) : nocaps (qchr c).
Proof. apply nocaps_cls. Qed.

Lemma nocaps_seq (q1 q2 : reader) : nocaps q1 -> nocaps q2 -> nocaps (qseq q1 q2).
Proof.
  intros N1 N2 s c u r H. unfold qseq in H.
  destruct (q1 s) as [[[c1 u1] r1]|] eqn:E1; [|discriminate].
  destruct (q2 r1) as [[[c2 u2] r2]|] eqn:E2; [|discriminate].
  injection H as <- <- <-. now rewrite (N1 _ _ _ _ E1), (N2 _ _ _ _ E2).
Qed.

Lemma nocaps_count (p : char -> bool) (n : nat) : nocaps (qcount p n).
Proof.
  induction n as [|n IH]; simpl.
  - intros s c u r H. now injection H as <- <- <-.
  - apply nocaps_seq; [apply nocaps_cls | exact IH].
Qed.

Lemma nocaps_d12 : nocaps qd12.
Proof. intros s c u r H. now apply qd12_inv in H. Qed.

Lemma nocaps_ampm : nocaps qampm.
Proof.
  intros s c u r H. unfold qampm in H. destruct s as [|o [|j s]]; try discriminate.
  destruct ((o =? O_) && ((j =? JEON) || (j =? HU))); [|discriminate].
  now injection H as <- <- <-.
Qed.

Ltac nocaps_tac :=
  repeat first [ apply nocaps_count | apply nocaps_d12 | apply nocaps_ampm
               | apply nocaps_chr | apply nocaps_cls | apply nocaps_seq ].

Lemma nocaps_DATE : nocaps qDATE.
Proof. unfold qDATE. nocaps_tac. Qed.

Lemma nocaps_TIME : nocaps qTIME.
Proof. unfold qTIME. nocaps_tac. Qed.

Lemma det_timestamp : det (Seq DATE TIME) (qseq qDATE qTIME).
Proof. apply det_seq; [apply det_DATE | apply det_TIME]. Qed.

Lemma local_timestamp : local (qseq qDATE qTIME).
Proof. apply local_seq; [apply local_DATE | apply local_TIME]. Qed.

Lemma nocaps_timestamp : nocaps (qseq qDATE qTIME).
Proof. apply nocaps_seq; [apply nocaps_DATE | apply nocaps_TIME]. Qed.

(** ** What the patterns of the parser match *)

Lemma matches_then_eol (r : regex) (q : reader) (x : mstate) :
  det r q ->
  matches (Seq r Eol) x =
  match q (rest x) with
  | Some (c, u, []) => [MState (pos x + List.length c) [] (u ++ caps x)]
  | _ => []
  end.
Proof.
  intros D. rewrite matches_seq, D. unfold run_reader.
  destruct (q (rest x)) as [[[c u] [|e r']]|]; reflexivity.
Qed.

Lemma qDATE_shape (s d : jsstring) (u : list (nat * jsstring)) (r : jsstring) :
  qDATE s = Some (d, u, r) -> u = [] /\ s = d ++ r.
Proof.
  intros H. split; [exact (nocaps_DATE _ _ _ _ H)|].
  exact (proj1 (local_DATE _ _ _ _ H)).
Qed.

Lemma qTIME_shape (s t : jsstring) (u : list (nat * jsstring)) (r : jsstring) :
  qTIME s = Some (t, u, r) -> u = [] /\ s = t ++ r.
Proof.
  intros H. split; [exact (nocaps_TIME _ _ _ _ H)|].
  exact (proj1 (local_TIME _ _ _ _ H)).
Qed.

Lemma firstn_length_app {A : Type} (a b : list A) :
  firstn (List.length a) (a ++ b) = a.
Proof.
  rewrite firstn_app, firstn_all, Nat.sub_diag. simpl. apply app_nil_r.
Qed.

(** First revision: group 1 of a date-only header is the whole line. *)
Lemma match_header_v1 (line : jsstring) :
  jsmatch line V1.dateSeparatorRegex =
  option_map (fun _ => MatchResult line [(1%nat, line)]) (header_date line).
Proof.
  unfold V1.dateSeparatorRegex. rewrite jsmatch_bol.
  rewrite (matches_then_eol _ (qgrp 1 (qseq qDATE qTIME)))
    by (apply det_grp; [apply det_timestamp | apply local_timestamp]).
  unfold qgrp, qseq, header_date. cbn [rest pos caps].
  destruct (qDATE line) as [[[d u] r]|] eqn:ED; [|reflexivity].
  destruct (qTIME r) as [[[t u'] r']|] eqn:ET; [|reflexivity].
  destruct r' as [|e r']; [|reflexivity].
  destruct (qDATE_shape _ _ _ _ ED) as [-> ->].
  destruct (qTIME_shape _ _ _ _ ET) as [-> ->].
  cbn [option_map pos caps app Nat.add]. rewrite app_nil_r.
  now rewrite firstn_all.
Qed.

(** Second revision: group 1 of a date-only header is its date. *)
Lemma match_header_v2 (line : jsstring) :
  jsmatch line V2.dateSeparatorRegex =
  option_map (fun d => MatchResult line [(1%nat, d)]) (header_date line).
Proof.
  unfold V2.dateSeparatorRegex. rewrite jsmatch_bol.
  rewrite matches_seq.
  rewrite (det_grp 1 DATE qDATE det_DATE local_DATE).
  unfold run_reader, qgrp, header_date. cbn [rest pos caps].
  destruct (qDATE line) as [[[d u] r]|] eqn:ED; [|reflexivity].
  rewrite flat_map_single, (matches_then_eol _ qTIME) by apply det_TIME.
  cbn [rest pos caps].
  destruct (qTIME r) as [[[t u'] r']|] eqn:ET; [|reflexivity].
  destruct r' as [|e r']; [|reflexivity].
  destruct (qDATE_shape _ _ _ _ ED) as [-> ->].
  destruct (qTIME_shape _ _ _ _ ET) as [-> ->].
  cbn [option_map pos caps app Nat.add]. rewrite app_nil_r.
  replace (List.length d + List.length t)%nat with (List.length (d ++ t))
    by apply length_app.
  now rewrite firstn_all.
Qed.

Lemma matches_grp_DATE (k : nat) (s : jsstring) :
  matches (Grp 1 DATE) (MState k s []) =
  match qDATE s with
  | Some (d, _, r) => [MState (k + List.length d) r [(1%nat, d)]]
  | None => []
  end.
Proof.
  rewrite (det_grp 1 DATE qDATE det_DATE local_DATE).
  unfold run_reader, qgrp. cbn [rest pos caps].
  destruct (qDATE s) as [[[d u] r]|] eqn:ED; [|reflexivity].
  destruct (qDATE_shape _ _ _ _ ED) as [-> _]. reflexivity.
Qed.

(** The unanchored date pattern on a text that starts with a date. *)
Lemma match_datePart (s d : jsstring) (u : list (nat * jsstring)) (r : jsstring) :
  qDATE s = Some (d, u, r) ->
  jsmatch s datePartRegex = Some (MatchResult d [(1%nat, d)]).
Proof.
  intros H. unfold jsmatch, datePartRegex.
  pose proof (matches_grp_DATE 0 s) as M. rewrite H in M.
  rewrite (search_first _ _ _ _ _ M). cbn [pos caps Nat.add].
  destruct (qDATE_shape _ _ _ _ H) as [_ ->].
  now rewrite Nat.sub_0_r, firstn_length_app.
Qed.

(** The anchored date pattern. *)
Lemma match_messageDate (s : jsstring) :
  jsmatch s messageDateRegex =
  match qDATE s with
  | Some (d, _, _) => Some (MatchResult d [(1%nat, d)])
  | None => None
  end.
Proof.
  unfold messageDateRegex. rewrite jsmatch_bol, matches_grp_DATE.
  destruct (qDATE s) as [[[d u] r]|] eqn:ED; [|reflexivity].
  cbn [pos caps Nat.add]. destruct (qDATE_shape _ _ _ _ ED) as [_ ->].
  now rewrite firstn_length_app.
Qed.

(** ** The unbounded quantifiers of [messageRegex] *)

Lemma rep_star_unfold (m : mstate -> list mstate) (g : bool) (f : nat)
    (x : mstate) :
  rep m g (S f) 0 None x =
  let more :=
    flat_map (fun y => if Nat.eqb (pos y) (pos x) then []
                       else rep m g f 0 None y) (m x) in
  if g then more ++ [x] else x :: more.
Proof. reflexivity. Qed.

Lemma rep_plus_unfold (m : mstate -> list mstate) (g : bool) (f : nat)
    (x : mstate) :
  rep m g (S f) 1 None x = flat_map (fun y => rep m g f 0 None y) (m x).
Proof. reflexivity. Qed.

Lemma matches_chr (c : char) (k : nat) (s : jsstring)
    (cs : list (nat * jsstring)) :
  matches (Chr c) (MState k s cs) =
  match s with
  | d :: s' => if d =? c then [MState (S k) s' cs] else []
  | [] => []
  end.
Proof. reflexivity. Qed.

Lemma matches_grp (i : nat) (r : regex) (x : mstate) :
  matches (Grp i r) x =
  List.map (fun y => MState (pos y) (rest y)
                       ((i, firstn (pos y - pos x) (rest x)) :: caps y))
           (matches r x).
Proof. reflexivity. Qed.

Lemma matches_cls (p : char -> bool) (k : nat) (s : jsstring)
    (cs : list (nat * jsstring)) :
  matches (Cls p) (MState k s cs) =
  match s with
  | d :: s' => if p d then [MState (S k) s' cs] else []
  | [] => []
  end.
Proof. reflexivity. Qed.

(** The lazy star explores the shortest repetition first. *)
Lemma rep_lazy_states (p : char -> bool) (s : jsstring) :
  forall (f k : nat) (cs : list (nat * jsstring)),
    (List.length s < f)%nat ->
    rep (matches (Cls p)) false f 0 None (MState k s cs) = lazy_states p k s cs.
Proof.
  induction s as [|d s IH]; intros f k cs Hf; (destruct f as [|f]; [simpl in Hf; lia|]);
    rewrite rep_star_unfold, matches_cls; cbv zeta; cbn [lazy_states].
  - reflexivity.
  - destruct (p d); [|reflexivity].
    cbn [flat_map pos]. rewrite succ_neq, app_nil_r, IH by (simpl in Hf; lia).
    reflexivity.
Qed.

Lemma matches_dot_plus_lazy (k : nat) (s : jsstring) (cs : list (nat * jsstring)) :
  matches dot_plus_lazy (MState k s cs) =
  match s with
  | d :: s' =>
      if negb (is_line_terminator d)
      then lazy_states (fun c => negb (is_line_terminator c)) (S k) s' cs
      else []
  | [] => []
  end.
Proof.
  change (matches dot_plus_lazy (MState k s cs))
    with (rep (matches (Cls (fun c => negb (is_line_terminator c)))) false
              (S (S (List.length s))) 1 None (MState k s cs)).
  rewrite rep_plus_unfold, matches_cls.
  destruct s as [|d s]; [reflexivity|].
  destruct (negb (is_line_terminator d)); [|reflexivity].
  cbn [flat_map]. rewrite app_nil_r. apply rep_lazy_states. simpl. lia.
Qed.

(** The greedy star of a class that holds of every character first tries
    the whole input. *)
Lemma rep_greedy_all (p : char -> bool) (s : jsstring) :
  (forall c, p c = true) ->
  forall (f k : nat) (cs : list (nat * jsstring)),
    (List.length s < f)%nat ->
    exists l, rep (matches (Cls p)) true f 0 None (MState k s cs)
              = MState (k + List.length s) [] cs :: l.
Proof.
  intros Hp. induction s as [|d s IH]; intros f k cs Hf;
    (destruct f as [|f]; [simpl in Hf; lia|]);
    rewrite rep_star_unfold, matches_cls; cbv zeta.
  - exists []. cbn [flat_map app List.length]. now rewrite Nat.add_0_r.
  - rewrite Hp. cbn [flat_map pos]. rewrite succ_neq, app_nil_r.
    destruct (IH f (S k) cs) as [l E]; [simpl in Hf; lia|].
    rewrite E. exists (l ++ [MState k (d :: s) cs]).
    cbn [List.length app]. now rewrite Nat.add_succ_r.
Qed.

Lemma body_group_hd (k : nat) (s : jsstring) (cs : list (nat * jsstring)) :
  exists l, matches (Grp 3 any_star) (MState k s cs)
            = MState (k + List.length s) [] ((3%nat, s) :: cs) :: l.
Proof.
  destruct (rep_greedy_all (fun c => is_space c || negb (is_space c)) s
              (fun c => orb_negb_r (is_space c)) (S (List.length s)) k cs) as [l E];
    [lia|].
  change (matches (Grp 3 any_star) (MState k s cs))
    with (List.map
            (fun y => MState (pos y) (rest y)
                        ((3%nat, firstn (pos y - k) s) :: caps y))
            (rep (matches (Cls (fun c => is_space c || negb (is_space c)))) true
                 (S (List.length s)) 0 None (MState k s cs))).
  rewrite E. cbn [List.map pos rest caps]. eexists.
  replace (k + List.length s - k)%nat with (List.length s) by lia.
  now rewrite firstn_all.
Qed.

Lemma message_tail_hd (k : nat) (s : jsstring) (cs : list (nat * jsstring)) :
  hd_error (matches message_tail (MState k s cs)) =
  match s with
  | a :: b :: c :: body =>
      if (a =? SP) && (b =? COLON) && (c =? SP)
      then Some (MState (k + 3 + List.length body) [] ((3%nat, body) :: cs))
      else None
  | _ => None
  end.
Proof.
  unfold message_tail. rewrite matches_seq, matches_chr.
  destruct s as [|a s]; [reflexivity|].
  destruct (a =? SP); cbn [andb flat_map];
    [|destruct s as [|b [|c body]]; reflexivity].
  rewrite app_nil_r, matches_seq, matches_chr.
  destruct s as [|b s]; [reflexivity|].
  destruct (b =? COLON); cbn [andb flat_map];
    [|destruct s as [|c body]; reflexivity].
  rewrite app_nil_r, matches_seq, matches_chr.
  destruct s as [|c body]; [reflexivity|].
  destruct (c =? SP); cbn [andb flat_map]; [|reflexivity].
  rewrite app_nil_r.
  destruct (body_group_hd (S (S (S k))) body cs) as [l ->].
  cbn [hd_error]. do 2 f_equal. lia.
Qed.

Lemma hd_error_app {A : Type} (a b : list A) :
  hd_error (a ++ b) = match hd_error a with
                      | Some x => Some x
                      | None => hd_error b
                      end.
Proof. destruct a; reflexivity. Qed.

Lemma match_hd {A B : Type} (f : A -> B) (l : list A) :
  match l with y :: _ => Some (f y) | [] => None end = option_map f (hd_error l).
Proof. destruct l; reflexivity. Qed.

(** [(.+?) : ] followed by the body stops at the first separator. *)
Lemma speaker_search (k0 : nat) (s0 : jsstring) (cs : list (nat * jsstring)) :
  forall s acc, s0 = acc ++ s ->
    hd_error
      (flat_map (matches message_tail)
         (List.map
            (fun y => MState (pos y) (rest y)
                        ((2%nat, firstn (pos y - k0) s0) :: caps y))
            (match s with
             | x :: s' =>
                 if negb (is_line_terminator x)
                 then lazy_states (fun c => negb (is_line_terminator c))
                        (S (k0 + List.length acc)) s' cs
                 else []
             | [] => []
             end)))
    = option_map
        (fun nb => MState (k0 + List.length s0) []
                     ((3%nat, snd nb) :: (2%nat, fst nb) :: cs))
        (split_speaker acc s).
Proof.
  induction s as [|x s' IH]; intros acc E; [reflexivity|].
  cbn [split_speaker].
  destruct (is_line_terminator x); cbn [negb]; [reflexivity|].
  assert (IH' := IH (acc ++ [x])).
  rewrite length_app, <- app_assoc in IH'. cbn [List.length app] in IH'.
  replace (k0 + (List.length acc + 1))%nat with (S (k0 + List.length acc)) in IH'
    by lia.
  specialize (IH' E).
  destruct s' as [|a s1]; [exact IH'|].
  cbn [lazy_states List.map flat_map pos rest caps] in *.
  rewrite hd_error_app, message_tail_hd.
  replace (S (k0 + List.length acc) - k0)%nat with (List.length (acc ++ [x]))
    by (rewrite length_app; cbn [List.length]; lia).
  assert (F : firstn (List.length (acc ++ [x])) s0 = acc ++ [x]).
  { rewrite E. change (x :: a :: s1) with ([x] ++ a :: s1).
    rewrite app_assoc. apply firstn_length_app. }
  destruct s1 as [|b [|c body]]; try exact IH'.
  destruct ((a =? SP) && (b =? COLON) && (c =? SP)); [|exact IH'].
  cbn [option_map fst snd]. rewrite F. do 2 f_equal.
  rewrite E, length_app. simpl. lia.
Qed.

(** What [messageRegex] captures. *)
Lemma match_message (line : jsstring) :
  jsmatch line messageRegex =
  option_map
    (fun p => MatchResult line
                [(3%nat, snd p); (2%nat, snd (fst p)); (1%nat, fst (fst p))])
    (message_parts line).
Proof.
  change messageRegex with
    (Seq Bol (Seq (Grp 1 (Seq DATE TIME)) (Seq (Chr COMMA) (Seq (Chr SP)
       (Seq (Grp 2 dot_plus_lazy) message_tail))))).
  rewrite jsmatch_bol, match_hd, matches_seq.
  rewrite (det_grp 1 _ _ det_timestamp local_timestamp).
  unfold run_reader, qgrp, message_parts. cbn [rest pos caps].
  destruct (qseq qDATE qTIME line) as [[[ts u] r]|] eqn:ET; [|reflexivity].
  rewrite flat_map_single.
  pose proof (nocaps_timestamp _ _ _ _ ET) as ->.
  destruct (local_timestamp _ _ _ _ ET) as [-> _].
  rewrite matches_seq, matches_chr.
  destruct r as [|a r]; [reflexivity|].
  destruct (a =? COMMA); cbn [andb flat_map]; [|destruct r; reflexivity].
  rewrite app_nil_r, matches_seq, matches_chr.
  destruct r as [|b r]; [reflexivity|].
  destruct (b =? SP); cbn [andb flat_map]; [|reflexivity].
  rewrite app_nil_r, matches_seq, matches_grp, matches_dot_plus_lazy.
  cbn [pos rest caps app Nat.add].
  pose proof (speaker_search (S (S (List.length ts))) r [(1%nat, ts)] r [] eq_refl)
    as H.
  cbn [List.length] in H. rewrite Nat.add_0_r in H. rewrite H.
  destruct (split_speaker [] r) as [[name body]|]; [|reflexivity].
  cbn [option_map fst snd pos caps app]. do 2 f_equal.
  apply firstn_all2. rewrite length_app. cbn [List.length]. lia.
Qed.

(** ** [parseInt] and [Date] on what the date pattern captures *)

Lemma is_digit_range (a : char) : is_digit a = true <-> 48 <= a <= 57.
Proof. unfold is_digit. rewrite andb_true_iff, !Z.leb_le. reflexivity. Qed.

Ltac digit_cases a H :=
  apply is_digit_range in H;
  assert (a = 48 \/ a = 49 \/ a = 50 \/ a = 51 \/ a = 52 \/ a = 53 \/ a = 54
          \/ a = 55 \/ a = 56 \/ a = 57) as D by lia;
  clear H; repeat (destruct D as [D|D]); subst a.

Lemma qcount_digit4_inv (s c : jsstring) (u : list (nat * jsstring)) (r : jsstring) :
  qcount is_digit 4 s = Some (c, u, r) ->
  exists a b d e, c = [a; b; d; e] /\ is_digit a = true /\ is_digit b = true
                  /\ is_digit d = true /\ is_digit e = true.
Proof.
  cbn [qcount]. unfold qseq, qcls.
  destruct s as [|a [|b [|d [|e s]]]]; try discriminate;
    repeat match goal with
           | |- context [is_digit ?x] =>
               lazymatch goal with
               | H : is_digit x = _ |- _ => rewrite H
               | _ => destruct (is_digit x) eqn:?
               end
           end; try discriminate.
  intros H. injection H as <- <- <-. now exists a, b, d, e.
Qed.

(** Decimal value of one or two digits and of four digits. *)
Lemma parseInt_d12 (m : jsstring) :
  is_d12 m ->
  exists v, parseInt m = Some v /\ 0 <= v <= 99.
Proof.
  intros [(a & -> & Ha)|(a & b & -> & Ha & Hb)].
  - digit_cases a Ha; (eexists; split; [vm_compute; reflexivity | lia]).
  - digit_cases a Ha; digit_cases b Hb;
      (eexists; split; [vm_compute; reflexivity | lia]).
Qed.

Lemma parseInt_d4 (a b d e : char) :
  is_digit a = true -> is_digit b = true -> is_digit d = true ->
  is_digit e = true ->
  exists v, parseInt [a; b; d; e] = Some v /\ 0 <= v <= 9999.
Proof.
  intros Ha Hb Hd He.
  assert (E : parseInt [a; b; d; e] = Some (1 * decimal_value 0 [a; b; d; e])).
  { clear Hd He. digit_cases a Ha; digit_cases b Hb; reflexivity. }
  rewrite E, Z.mul_1_l. eexists; split; [reflexivity|].
  cbn [decimal_value]. rewrite Ha, Hb, Hd, He.
  apply is_digit_range in Ha, Hb, Hd, He. lia.
Qed.

Lemma DaysBeforeMonth_range (l : bool) (mn : Z) : 0 <= DaysBeforeMonth l mn <= 335.
Proof.
  unfold DaysBeforeMonth.
  destruct l; destruct mn as [|p|p]; try lia;
    do 4 (try destruct p as [p|p|]; try lia).
Qed.

(** Dates in the range the pattern can express are valid. *)
Lemma newDate_valid (y m d : Z) :
  0 <= y <= 9999 -> 0 <= m <= 99 -> 0 <= d <= 99 ->
  exists t, newDate (Some y) (Some (m - 1)) (Some d) = Some t.
Proof.
  intros Hy Hm Hd. unfold newDate, TimeClip.
  set (yr := if (0 <=? y) && (y <=? 99) then 1900 + y else y).
  assert (Hyr : 0 <= yr <= 9999) by (unfold yr; destruct ((0 <=? y) && (y <=? 99)) eqn:E;
    [apply andb_prop in E as [_ E]; apply Z.leb_le in E|]; lia).
  assert (B : -100000000 <= MakeDay yr (m - 1) d <= 100000000).
  { unfold MakeDay, DayFromYear.
    pose proof (DaysBeforeMonth_range (InLeapYear (yr + (m - 1) / 12)) ((m - 1) mod 12)).
    generalize dependent (DaysBeforeMonth (InLeapYear (yr + (m - 1) / 12)) ((m - 1) mod 12)).
    intros z Hz. Z.div_mod_to_equations. lia. }
  destruct (Z.abs (MakeDay yr (m - 1) d * msPerDay) >? 8640000000000000) eqn:E.
  - apply Z.gtb_lt in E. unfold msPerDay in E. lia.
  - eauto.
Qed.

Lemma getDay_range (t : Z) : 0 <= getDay t < 7.
Proof. unfold getDay. apply Z.mod_pos_bound. lia. Qed.

Lemma KOREAN_DAYS_nth (n : nat) :
  (n < 7)%nat -> exists w, nth_error KOREAN_DAYS n = Some [w].
Proof.
  intros H. do 7 (destruct n as [|n]; [eexists; reflexivity|]). lia.
Qed.

Lemma app_inv_length_tail {A : Type} (a1 a2 b1 b2 : list A) :
  List.length b1 = List.length b2 -> a1 ++ b1 = a2 ++ b2 -> a1 = a2.
Proof.
  intros HL HE.
  assert (HA : List.length a1 = List.length a2).
  { apply (f_equal (@List.length A)) in HE. rewrite !length_app in HE. lia. }
  revert a2 HE HA. induction a1 as [|x a1 IH]; intros [|y a2] HE HA;
    simpl in *; try lia; [reflexivity|].
  injection HE as -> HE. f_equal. apply IH; [exact HE | lia].
Qed.

Lemma qd12_is_d12 (s c : jsstring) (u : list (nat * jsstring)) (r : jsstring) :
  qd12 s = Some (c, u, r) -> is_d12 c.
Proof.
  intros H. destruct (qd12_inv _ _ _ _ H) as (_ & _ & [(a & -> & Ha & _)|(a & b & -> & Ha & Hb)]).
  - left. now exists a.
  - right. now exists a, b.
Qed.

Lemma qseq_inv (q1 q2 : reader) (s c : jsstring) (u : list (nat * jsstring))
    (r : jsstring) :
  qseq q1 q2 s = Some (c, u, r) ->
  exists c1 u1 r1 c2 u2,
    q1 s = Some (c1, u1, r1) /\ q2 r1 = Some (c2, u2, r)
    /\ c = c1 ++ c2 /\ u = u2 ++ u1.
Proof.
  unfold qseq. intros H.
  destruct (q1 s) as [[[c1 u1] r1]|]; [|discriminate].
  destruct (q2 r1) as [[[c2 u2] r2]|] eqn:E2; [|discriminate].
  injection H as <- <- <-. exists c1, u1, r1, c2, u2. auto.
Qed.

Lemma qseq_intro (q1 q2 : reader) (s c1 r1 c2 r2 : jsstring)
    (u1 u2 : list (nat * jsstring)) :
  q1 s = Some (c1, u1, r1) -> q2 r1 = Some (c2, u2, r2) ->
  qseq q1 q2 s = Some (c1 ++ c2, u2 ++ u1, r2).
Proof. intros H1 H2. unfold qseq. now rewrite H1, H2. Qed.

Lemma qgrp_intro (i : nat) (q : reader) (s c r : jsstring)
    (u : list (nat * jsstring)) :
  q s = Some (c, u, r) -> qgrp i q s = Some (c, (i, c) :: u, r).
Proof. intros H. unfold qgrp. now rewrite H. Qed.

Lemma qchr_inv (c : char) (s t : jsstring) (u : list (nat * jsstring))
    (r : jsstring) :
  qchr c s = Some (t, u, r) -> s = c :: r /\ t = [c] /\ u = [].
Proof.
  unfold qchr, qcls. destruct s as [|d s]; [discriminate|].
  destruct (d =? c) eqn:E; [|discriminate]. intros H. injection H as <- <- <-.
  apply Z.eqb_eq in E. now subst.
Qed.

Lemma qchr_intro (c : char) (r : jsstring) : qchr c (c :: r) = Some ([c], [], r).
Proof. unfold qchr, qcls. now rewrite Z.eqb_refl. Qed.

(** Split the hypotheses on sequenced readers into their parts. *)
Ltac reader_inv :=
  repeat match goal with
         | H : qseq _ _ _ = Some _ |- _ =>
             apply qseq_inv in H;
             let c1 := fresh "c" in let u1 := fresh "u" in let r1 := fresh "r" in
             let c2 := fresh "c" in let u2 := fresh "u" in
             let H2 := fresh "H" in let E1 := fresh "E" in let E2 := fresh "E" in
             destruct H as (c1 & u1 & r1 & c2 & u2 & H & H2 & E1 & E2)
         | H : qchr _ _ = Some _ |- _ =>
             apply qchr_inv in H;
             let E1 := fresh "E" in let E2 := fresh "E" in
             destruct H as (H & E1 & E2)
         end.

(** The pattern of [formatDateWithDay] captures the three numbers of the
    date that [DATE] reads. *)
Lemma qYMD_of_qDATE (s d : jsstring) (u : list (nat * jsstring)) (r : jsstring) :
  qDATE s = Some (d, u, r) ->
  exists a b c e m dd,
    qYMD s = Some (d, [(3%nat, dd); (2%nat, m); (1%nat, [a; b; c; e])], r)
    /\ is_digit a = true /\ is_digit b = true /\ is_digit c = true
    /\ is_digit e = true /\ is_d12 m /\ is_d12 dd.
Proof.
  unfold qDATE. intros H. reader_inv. subst.
  destruct (qcount_digit4_inv _ _ _ _ H) as (a & b & c' & e & -> & Ha & Hb & Hc & He).
  pose proof (nocaps_count _ _ _ _ _ _ H). subst.
  match goal with
  | H1 : qd12 _ = Some (?m, _, _), H2 : qd12 _ = Some (?dd, _, _) |- _ =>
      pose proof (qd12_is_d12 _ _ _ _ H1); pose proof (qd12_is_d12 _ _ _ _ H2);
      pose proof (nocaps_d12 _ _ _ _ H1); pose proof (nocaps_d12 _ _ _ _ H2); subst;
      exists a, b, c', e, m, dd
  end.
  split; [|auto 10].
  unfold qYMD.
  erewrite qseq_intro;
    [ | apply qgrp_intro; eassumption
      | erewrite qseq_intro;
        [ | apply qchr_intro
          | erewrite qseq_intro;
            [ | apply qchr_intro
              | erewrite qseq_intro;
                [ | apply qgrp_intro; eassumption
                  | erewrite qseq_intro;
                    [ | apply qchr_intro
                      | erewrite qseq_intro;
                        [ | apply qchr_intro
                          | erewrite qseq_intro;
                            [ | apply qgrp_intro; eassumption
                              | apply qchr_intro ];
                            reflexivity ];
                        reflexivity ];
                    reflexivity ];
                reflexivity ];
            reflexivity ];
        reflexivity ].
  reflexivity.
Qed.

Lemma jsmatch_ymd (d : jsstring) (g : list (nat * jsstring)) :
  qYMD d = Some (d, g, []) -> jsmatch d ymdRegex = Some (MatchResult d g).
Proof.
  intros H. unfold jsmatch.
  assert (M : matches ymdRegex (MState 0 d [])
              = [MState (0 + List.length d) [] (g ++ [])]).
  { rewrite det_YMD. unfold run_reader. cbn [rest pos caps]. now rewrite H. }
  rewrite (search_first _ _ _ _ _ M). cbn [pos caps Nat.add].
  now rewrite Nat.sub_0_r, firstn_all, app_nil_r.
Qed.

(** On a date read by [DATE] the formatter appends a space, a one-letter
    day name and the two letters of "요일". *)
Lemma formatDateWithDay_date (s d : jsstring) (u : list (nat * jsstring))
    (r : jsstring) :
  qDATE s = Some (d, u, r) ->
  exists w, formatDateWithDay d = d ++ SP :: [w] ++ YOIL.
Proof.
  intros H. destruct (local_DATE _ _ _ _ H) as [_ L].
  specialize (L []). rewrite app_nil_r in L.
  destruct (qYMD_of_qDATE _ _ _ _ L)
    as (a & b & c & e & m & dd & Q & Ha & Hb & Hc & He & Hm & Hd).
  unfold formatDateWithDay. rewrite (jsmatch_ymd _ _ Q).
  cbn [mget assoc Nat.eqb groups parseInt_capture].
  destruct (parseInt_d4 a b c e Ha Hb Hc He) as (vy & -> & Hvy).
  destruct (parseInt_d12 m Hm) as (vm & -> & Hvm).
  destruct (parseInt_d12 dd Hd) as (vd & -> & Hvd).
  cbn [option_map].
  destruct (newDate_valid vy vm vd Hvy Hvm Hvd) as [t ->].
  destruct (KOREAN_DAYS_nth (Z.to_nat (getDay t))) as [w ->].
  { pose proof (getDay_range t). lia. }
  exists w. reflexivity.
Qed.

Lemma formatDateWithDay_inj (s1 d1 s2 d2 : jsstring)
    (u1 u2 : list (nat * jsstring)) (r1 r2 : jsstring) :
  qDATE s1 = Some (d1, u1, r1) -> qDATE s2 = Some (d2, u2, r2) ->
  formatDateWithDay d1 = formatDateWithDay d2 -> d1 = d2.
Proof.
  intros H1 H2.
  destruct (formatDateWithDay_date _ _ _ _ H1) as [w1 ->].
  destruct (formatDateWithDay_date _ _ _ _ H2) as [w2 ->].
  apply app_inv_length_tail. reflexivity.
Qed.

(** ** The display time of a timestamp *)

Lemma search_hit (r : regex) (s : jsstring) :
  forall pre p,
    matches r (MState (p + List.length pre) s []) <> [] ->
    search r p (pre ++ s) <> None.
Proof.
  induction pre as [|c pre IH]; intros p H.
  - rewrite Nat.add_0_r in H. cbn [app].
    destruct (matches r (MState p s [])) as [|y l] eqn:M; [contradiction|].
    now rewrite (search_first _ _ _ _ _ M).
  - cbn [app search].
    destruct (matches r (MState p (c :: pre ++ s) [])); [|discriminate].
    apply IH. now rewrite Nat.add_succ_comm.
Qed.

(** The time part of a timestamp, without its leading space, is a display
    time. *)
Lemma qDISPLAY_of_qTIME (s t : jsstring) (u : list (nat * jsstring))
    (r : jsstring) :
  qTIME s = Some (t, u, r) ->
  exists t', t = SP :: t' /\ qDISPLAY t' <> None.
Proof.
  intros H0. destruct (local_TIME _ _ _ _ H0) as [_ L].
  specialize (L []). rewrite app_nil_r in L. clear H0.
  unfold qTIME in L. reader_inv. subst.
  eexists. split; [reflexivity|].
  unfold qDISPLAY.
  erewrite qseq_intro;
    [ discriminate
    | apply qgrp_intro; eassumption
    | erewrite qseq_intro;
      [ reflexivity
      | reflexivity
      | apply qgrp_intro;
        erewrite qseq_intro;
        [ reflexivity
        | eassumption
        | erewrite qseq_intro; [ reflexivity | apply qchr_intro | eassumption ] ] ] ].
Qed.

Lemma app_cons_not_nil {A : Type} (a b : list A) (x : A) : a ++ x :: b <> [].
Proof. destruct a; discriminate. Qed.

(** The display time of a timestamp read by [DATE] and [TIME] is not
    empty. *)
Lemma display_time_nonempty (line ts : jsstring) (u : list (nat * jsstring))
    (r : jsstring) :
  qseq qDATE qTIME line = Some (ts, u, r) ->
  parseTimestampToDisplayTime ts <> [].
Proof.
  intros H. reader_inv. subst.
  match goal with
  | H1 : qTIME _ = Some _ |- _ =>
      destruct (qDISPLAY_of_qTIME _ _ _ _ H1) as (t' & -> & Q)
  end.
  unfold parseTimestampToDisplayTime, jsmatch.
  match goal with
  | |- context [search _ 0 (?d ++ SP :: t')] =>
      assert (S : search displayTimeRegex 0 ((d ++ [SP]) ++ t') <> None);
      [ | rewrite <- app_assoc in S; cbn [app] in S;
          destruct (search displayTimeRegex 0 (d ++ SP :: t')); [|contradiction] ]
  end.
  - apply search_hit. rewrite det_DISPLAY. unfold run_reader. cbn [rest].
    destruct (qDISPLAY t') as [[[? ?] ?]|]; [discriminate | contradiction].
  - apply app_cons_not_nil.
Qed.

(** ** The loop bodies are the transitions of [step_model] *)

Section StepModel.
Context {Id : Type}.
Variable random : nat -> Id.

Lemma V1_step_model (st : pstate Id) (line : jsstring) :
  V1.step random st line = Ok (step_model random rev1 st line).
Proof.
  unfold V1.step, step_model, classify.
  destruct (negb (truthy line)); [reflexivity|].
  destruct (str_eqb line DELETED); [reflexivity|].
  rewrite match_header_v1.
  destruct (header_date line) as [d|] eqn:HD.
  - cbn [option_map mget assoc Nat.eqb groups defined bind].
    assert (Q : exists u r, qDATE line = Some (d, u, r)).
    { unfold header_date in HD.
      destruct (qDATE line) as [[[d' u] r]|]; [|discriminate].
      destruct (qTIME r) as [[[t u'] [|? ?]]|]; try discriminate.
      injection HD as ->. eauto. }
    destruct Q as (u & r & Q). rewrite (match_datePart _ _ _ _ Q).
    cbn [mget assoc Nat.eqb groups defined bind]. unfold on_header, push.
    cbn [header_payload rev1 messages users lastMessage lastDate draws].
    destruct (negb (opt_str_eqb (formatDateWithDay d) (lastDate st))); reflexivity.
  - cbn [option_map]. rewrite match_message.
    destruct (message_parts line) as [[[ts name] body]|]; [|reflexivity].
    cbn [option_map mget assoc Nat.eqb groups defined bind fst snd].
    rewrite match_messageDate. unfold on_message, message_date_state, push.
    destruct (qDATE ts) as [[[d u] r]|]; [|reflexivity].
    cbn [whole message_payload stored_timestamp rev1
         messages users lastMessage lastDate draws].
    destruct (truthy d && negb (opt_str_eqb (formatDateWithDay d) (lastDate st)));
      reflexivity.
Qed.

Lemma V2_step_model (st : pstate Id) (line : jsstring) :
  V2.step random st line = Ok (step_model random rev2 st line).
Proof.
  unfold V2.step, step_model, classify.
  destruct (negb (truthy line)); [reflexivity|].
  destruct (str_eqb line DELETED); [reflexivity|].
  rewrite match_header_v2.
  destruct (header_date line) as [d|] eqn:HD.
  - cbn [option_map mget assoc Nat.eqb groups defined bind].
    unfold on_header, push.
    cbn [header_payload rev2 messages users lastMessage lastDate draws].
    destruct (negb (opt_str_eqb (formatDateWithDay d) (lastDate st))); reflexivity.
  - cbn [option_map]. rewrite match_message.
    destruct (message_parts line) as [[[ts name] body]|]; [|reflexivity].
    cbn [option_map mget assoc Nat.eqb groups defined bind fst snd].
    rewrite match_messageDate. unfold on_message, message_date_state, push.
    destruct (qDATE ts) as [[[d u] r]|]; [|reflexivity].
    cbn [option_map whole message_payload stored_timestamp rev2
         messages users lastMessage lastDate draws].
    destruct (truthy d && negb (opt_str_eqb (formatDateWithDay d) (lastDate st)));
      reflexivity.
Qed.

Lemma run_step_model (v : revision)
    (step : pstate Id -> jsstring -> result (pstate Id)) :
  (forall st line, step st line = Ok (step_model random v st line)) ->
  forall lines st, run step st lines = Ok (run_model random v st lines).
Proof.
  intros H. induction lines as [|l ls IH]; intros st; [reflexivity|].
  cbn [run run_model fold_left]. rewrite H. cbn [bind]. apply IH.
Qed.

Lemma V1_run (lines : list jsstring) (st : pstate Id) :
  run (V1.step random) st lines = Ok (run_model random rev1 st lines).
Proof. apply run_step_model, V1_step_model. Qed.

Lemma V2_run (lines : list jsstring) (st : pstate Id) :
  run (V2.step random) st lines = Ok (run_model random rev2 st lines).
Proof. apply run_step_model, V2_step_model. Qed.

Lemma V1_parseChat_model (txt : jsstring) :
  V1.parseChat random txt =
  let st := run_model random rev1 initial (body_lines txt) in
  Ok (mkParsedChat (messages st) (users st)
                   (title_of (List.map trim (split_nl txt)))).
Proof.
  unfold V1.parseChat, parse_with. cbv zeta. fold (body_lines txt).
  now rewrite V1_run.
Qed.

Lemma V2_parseChat_model (txt : jsstring) :
  V2.parseChat random txt =
  let st := run_model random rev2 initial (body_lines txt) in
  Ok (mkParsedChat (messages st) (users st)
                   (title_of (List.map trim (split_nl txt)))).
Proof.
  unfold V2.parseChat, parse_with. cbv zeta. fold (body_lines txt).
  now rewrite V2_run.
Qed.
End StepModel.

(** ** Lists updated in place *)

Lemma update_length {A : Type} (i : nat) (a : A) (l : list A) :
  List.length (update i a l) = List.length l.
Proof.
  revert i; induction l as [|x l IH]; intros [|i]; simpl; auto.
Qed.

Lemma update_app_r {A : Type} (l1 l2 : list A) (i : nat) (a : A) :
  (List.length l1 <= i)%nat ->
  update i a (l1 ++ l2) = l1 ++ update (i - List.length l1) a l2.
Proof.
  revert i; induction l1 as [|x l1 IH]; intros i H; simpl in *.
  - now rewrite Nat.sub_0_r.
  - destruct i as [|i]; [lia|]. simpl. f_equal. apply IH. lia.
Qed.

Lemma update_last {A : Type} (l : list A) (x a : A) :
  update (List.length l) a (l ++ [x]) = l ++ [a].
Proof. rewrite update_app_r, Nat.sub_diag by lia. reflexivity. Qed.

Lemma nth_error_update {A : Type} (l : list A) (i j : nat) (a : A) :
  nth_error (update i a l) j =
  if Nat.eqb i j then option_map (fun _ => a) (nth_error l j)
  else nth_error l j.
Proof.
  revert i j; induction l as [|x l IH]; intros [|i] [|j]; simpl; auto.
  - now destruct (Nat.eqb i j).
Qed.

Lemma nth_error_snoc {A : Type} (l : list A) (x : A) :
  nth_error (l ++ [x]) (List.length l) = Some x.
Proof. rewrite nth_error_app2, Nat.sub_diag by lia. reflexivity. Qed.

(** ** What the readers tell about a classified line *)

Lemma qDATE_truthy (s d : jsstring) (u : list (nat * jsstring)) (r : jsstring) :
  qDATE s = Some (d, u, r) -> truthy d = true.
Proof.
  unfold qDATE. intros H. apply qseq_inv in H.
  destruct H as (c1 & u1 & r1 & c2 & u2 & H & _ & -> & _).
  destruct (qcount_digit4_inv _ _ _ _ H) as (a & b & c & e & -> & _). reflexivity.
Qed.

Lemma date_text_qDATE (s d : jsstring) (u : list (nat * jsstring)) (r : jsstring) :
  qDATE s = Some (d, u, r) -> date_text s = d.
Proof. intros H. unfold date_text. now rewrite (match_datePart _ _ _ _ H). Qed.

Lemma header_date_inv (line d : jsstring) :
  header_date line = Some d ->
  exists t, line = d ++ t /\ qDATE line = Some (d, [], t)
            /\ qTIME t = Some (t, [], []).
Proof.
  unfold header_date. intros H.
  destruct (qDATE line) as [[[d' u] r]|] eqn:ED; [|discriminate].
  destruct (qTIME r) as [[[t u'] [|? ?]]|] eqn:ET; try discriminate.
  injection H as ->.
  destruct (qDATE_shape _ _ _ _ ED) as [-> ->].
  destruct (qTIME_shape _ _ _ _ ET) as [-> E]. rewrite app_nil_r in E. subst r.
  exists t. auto.
Qed.

Lemma date_text_header (line d : jsstring) :
  header_date line = Some d -> date_text line = d.
Proof.
  intros H. destruct (header_date_inv _ _ H) as (t & _ & Q & _).
  exact (date_text_qDATE _ _ _ _ Q).
Qed.

(** The timestamp of a message line is itself a date-only header. *)
Lemma message_parts_inv (line ts name body : jsstring) :
  message_parts line = Some (ts, name, body) ->
  exists d t, qDATE ts = Some (d, [], t) /\ header_date ts = Some d
              /\ parseTimestampToDisplayTime ts <> [].
Proof.
  unfold message_parts. intros H.
  destruct (qseq qDATE qTIME line) as [[[ts' u] r]|] eqn:ET; [|discriminate].
  assert (ts' = ts) as ->.
  { destruct r as [|a [|b r]]; try discriminate.
    destruct ((a =? COMMA) && (b =? SP)); [|discriminate].
    destruct (split_speaker [] r) as [[? ?]|]; [|discriminate]. congruence. }
  clear H. pose proof (display_time_nonempty _ _ _ _ ET) as DT.
  destruct (local_timestamp _ _ _ _ ET) as [_ L]. specialize (L []).
  rewrite app_nil_r in L. clear ET. revert L. unfold qseq. intros H.
  destruct (qDATE ts) as [[[d u1] r1]|] eqn:ED; [|discriminate].
  destruct (qTIME r1) as [[[t u2] r2]|] eqn:E2; [|discriminate].
  injection H as H1 H2 H3. subst r2.
  destruct (qDATE_shape _ _ _ _ ED) as [-> _].
  exists d, r1. split; [reflexivity|]. split; [|exact DT].
  unfold header_date. now rewrite ED, E2.
Qed.

(** ** Invariants of the loop *)

Lemma classify_header_inv (line d : jsstring) :
  classify line = KHeader d ->
  header_date line = Some d /\ truthy line = true /\ line <> DELETED.
Proof.
  unfold classify. destruct (truthy line); cbn [negb]; [|discriminate].
  destruct (str_eqb line DELETED) eqn:E; [discriminate|].
  apply str_eqb_neq in E.
  destruct (header_date line); [|destruct (message_parts line) as [[[? ?] ?]|]; discriminate].
  intros H. injection H as ->. auto.
Qed.

Lemma classify_message_inv (line ts : jsstring) (od : option jsstring)
    (name body : jsstring) :
  classify line = KMessage ts od name body ->
  exists d t, od = Some d /\ qDATE ts = Some (d, [], t)
              /\ header_date ts = Some d
              /\ parseTimestampToDisplayTime ts <> [] /\ truthy d = true.
Proof.
  unfold classify. destruct (negb (truthy line)); [discriminate|].
  destruct (str_eqb line DELETED); [discriminate|].
  destruct (header_date line); [discriminate|].
  destruct (message_parts line) as [[[ts' n'] b']|] eqn:M; [|discriminate].
  intros H. injection H as -> <- -> ->.
  destruct (message_parts_inv _ _ _ _ M) as (d & t & Q & HD & DT).
  exists d, t. rewrite Q. repeat split; auto. exact (qDATE_truthy _ _ _ _ Q).
Qed.

Section ModelFacts.
Context {Id : Type}.
Variable random : nat -> Id.
Variable v : revision.

(** Induction over a run, one case per transition. *)
Lemma run_model_ind (P : pstate Id -> Prop) :
  (forall st, P st -> P (delete_notice random st)) ->
  (forall st line d, header_date line = Some d -> P st ->
                     P (on_header random v line d st)) ->
  (forall st ts d t name body,
      qDATE ts = Some (d, [], t) -> header_date ts = Some d ->
      parseTimestampToDisplayTime ts <> [] -> truthy d = true -> P st ->
      P (on_message random v ts (Some d) name body st)) ->
  (forall st line, P st -> P (absorb st line)) ->
  forall lines st, P st -> P (run_model random v st lines).
Proof.
  intros HD HH HM HA. induction lines as [|l ls IH]; intros st H; [exact H|].
  cbn [run_model fold_left]. apply IH. unfold step_model.
  destruct (classify l) as [| |d|ts od name body|] eqn:C; auto.
  - apply HH; [apply (classify_header_inv _ _ C) | exact H].
  - destruct (classify_message_inv _ _ _ _ _ C) as (d & t & -> & Q & E & DT & T).
    eapply HM; eauto.
Qed.

Lemma tracker_of_snoc (l : list (ChatItem Id)) (x : ChatItem Id) :
  tracker_of (l ++ [x]) = if is_message x then Some (List.length l) else None.
Proof.
  unfold tracker_of. rewrite rev_unit, length_app. cbn [List.length].
  replace (Nat.pred (List.length l + 1)) with (List.length l) by lia.
  now destruct x.
Qed.

Lemma tracker_of_inv (l : list (ChatItem Id)) (i : nat) :
  tracker_of l = Some i ->
  exists l' m, l = l' ++ [ItemMessage m] /\ i = List.length l'.
Proof.
  induction l as [|x l _] using rev_ind; [discriminate|].
  rewrite tracker_of_snoc. destruct x as [m| |]; try discriminate.
  intros H. injection H as <-. now exists l, m.
Qed.

(** Between two iterations [lastMessage] is the last item of [messages]
    when that item is a message, and [null] otherwise. *)
Lemma tracker_invariant (lines : list jsstring) (st : pstate Id) :
  lastMessage st = tracker_of (messages st) ->
  lastMessage (run_model random v st lines)
  = tracker_of (messages (run_model random v st lines)).
Proof.
  revert lines st. apply run_model_ind.
  - intros st _. unfold delete_notice, push. cbn [messages lastMessage].
    now rewrite tracker_of_snoc.
  - intros st line d _ H. unfold on_header.
    destruct (negb (opt_str_eqb _ _)); [|exact H].
    cbn [messages lastMessage]. now rewrite tracker_of_snoc.
  - intros st ts d t name body _ _ _ _ _. unfold on_message.
    cbn [messages lastMessage]. now rewrite tracker_of_snoc.
  - intros st line H. unfold absorb.
    destruct (lastMessage st) as [i|] eqn:L; [|exact (eq_trans L H)].
    symmetry in H. destruct (tracker_of_inv _ _ H) as (l' & m & E & ->).
    rewrite E, nth_error_snoc. cbn [messages lastMessage].
    now rewrite update_last, tracker_of_snoc.
Qed.
End ModelFacts.

(** ** Totality (C9) and short inputs (C7) *)

Lemma trimStart_all_space (s : jsstring) :
  forallb is_space s = true -> trimStart s = [].
Proof.
  induction s as [|c s IH]; [reflexivity|]. simpl.
  destruct (is_space c); [exact IH | discriminate].
Qed.

Lemma trim_blank (s : jsstring) : forallb is_space s = true -> trim s = [].
Proof. intros H. unfold trim, trimEnd. now rewrite (trimStart_all_space s H). Qed.

Lemma split_nl_cons (s : jsstring) : exists l ls, split_nl s = l :: ls.
Proof.
  induction s as [|c s (l & ls & IH)]; simpl; [eauto|].
  destruct (c =? 10); [eauto|]. rewrite IH. eauto.
Qed.

(** C9: [parseChat] returns a result for every input string and never
    throws; a line that is neither the deletion marker nor a date-only
    header nor a message line is either dropped (the state is unchanged) or
    appended to the body of the message [lastMessage] refers to. *)
Theorem parseChat_total {Id : Type} (random : nat -> Id) (txt : jsstring) :
  (exists out, V1.parseChat random txt = Ok out)
  /\ forall (st : pstate Id) (line : jsstring),
       line <> DELETED ->
       jsmatch line V1.dateSeparatorRegex = None ->
       jsmatch line messageRegex = None ->
       V1.step random st line = Ok st
       \/ exists i m,
            lastMessage st = Some i
            /\ nth_error (messages st) i = Some (ItemMessage m)
            /\ V1.step random st line
               = Ok (mkState (update i (ItemMessage (absorbed m line)) (messages st))
                             (users st) (lastMessage st) (lastDate st) (draws st)).
Proof.
  split.
  - rewrite V1_parseChat_model. eauto.
  - intros st line HD HH HM. rewrite V1_step_model. unfold step_model, classify.
    destruct (negb (truthy line)); [now left|].
    apply str_eqb_neq in HD. rewrite HD.
    rewrite match_header_v1 in HH. rewrite match_message in HM.
    destruct (header_date line); [discriminate|].
    destruct (message_parts line) as [[[? ?] ?]|]; [discriminate|].
    unfold absorb. destruct (lastMessage st) as [i|]; [|now left].
    destruct (nth_error (messages st) i) as [[m| |]|] eqn:E; try now left.
    right. exists i, m. auto.
Qed.

Lemma parseChat_total_witness :
  let st : pstate nat := initial in
  let line := utf16 "stray" in
  V1.step (fun n : nat => n) st line = Ok st
  \/ exists i m,
       lastMessage st = Some i
       /\ nth_error (messages st) i = Some (ItemMessage m)
       /\ V1.step (fun n : nat => n) st line
          = Ok (mkState (update i (ItemMessage (absorbed m line)) (messages st))
                        (users st) (lastMessage st) (lastDate st) (draws st)).
Proof.
  intros st line.
  apply (proj2 (parseChat_total (fun n : nat => n) [])).
  - discriminate.
  - reflexivity.
  - reflexivity.
Defined.

(** C7: an input of fewer than four lines yields no item, and an input
    whose first line is blank gets the placeholder title. *)
Theorem parseChat_short_input {Id : Type} (random : nat -> Id) (txt : jsstring) :
  exists out,
    V1.parseChat random txt = Ok out
    /\ ((List.length (split_nl txt) < 4)%nat -> chat_messages out = [])
    /\ (forallb is_space (hd [] (split_nl txt)) = true ->
        chat_title out = DEFAULT_TITLE).
Proof.
  rewrite V1_parseChat_model. eexists. split; [reflexivity|].
  cbn [chat_messages chat_title]. split.
  - intros H. unfold body_lines. rewrite skipn_all2; [reflexivity|].
    rewrite length_map. lia.
  - intros H. destruct (split_nl_cons txt) as (l & ls & E). rewrite E in *.
    cbn [hd List.map title_of] in *. now rewrite (trim_blank l H).
Qed.

Lemma parseChat_short_input_witness :
  exists out,
    V1.parseChat (fun n : nat => n) (join_nl [utf16 "  "; utf16 "x"]) = Ok out
    /\ chat_messages out = [] /\ chat_title out = DEFAULT_TITLE.
Proof.
  destruct (parseChat_short_input (fun n : nat => n)
              (join_nl [utf16 "  "; utf16 "x"])) as (out & E & H1 & H2).
  exists out. split; [exact E|]. split.
  - apply H1. vm_compute. lia.
  - apply H2. reflexivity.
Defined.

(** ** Display timestamps (C10) *)

Lemma In_update {A : Type} (i : nat) (a x : A) (l : list A) :
  In x (update i a l) -> x = a \/ In x l.
Proof.
  revert i; induction l as [|y l IH]; intros [|i] H; simpl in *; auto.
  - destruct H as [H|H]; auto.
  - destruct H as [H|H]; auto. destruct (IH _ H); auto.
Qed.

Lemma In_snoc {A : Type} (x y : A) (l : list A) :
  In x (l ++ [y]) -> In x l \/ x = y.
Proof.
  intros H. apply in_app_or in H as [H|[H|[]]]; auto.
Qed.

Section Timestamps.
Context {Id : Type}.
Variable random : nat -> Id.
Variable v : revision.

Lemma message_date_state_items (ts : jsstring) (od : option jsstring)
    (st : pstate Id) :
  messages (message_date_state random v ts od st) = messages st
  \/ exists d, od = Some d
       /\ messages (message_date_state random v ts od st)
          = messages st ++ [ItemDate (random (draws st)) (message_payload v ts d)].
Proof.
  unfold message_date_state. destruct od as [d|]; [|now left].
  destruct (truthy d && negb (opt_str_eqb (formatDateWithDay d) (lastDate st)));
    [right; now exists d | now left].
Qed.

Lemma timestamps_set_run (lines : list jsstring) (st : pstate Id) :
  timestamps_set st -> timestamps_set (run_model random v st lines).
Proof.
  revert lines st. apply run_model_ind; unfold timestamps_set.
  - intros st H m Hm. unfold delete_notice, push in Hm. cbn [messages] in Hm.
    apply In_snoc in Hm as [Hm|Hm]; [auto | discriminate].
  - intros st line d _ H m Hm. unfold on_header in Hm.
    destruct (negb (opt_str_eqb _ _)); [|auto]. cbn [messages] in Hm.
    apply In_snoc in Hm as [Hm|Hm]; [auto | discriminate].
  - intros st ts d t name body _ _ DT _ H m Hm. unfold on_message in Hm.
    cbn [messages] in Hm. apply In_snoc in Hm as [Hm|Hm].
    + destruct (message_date_state_items ts (Some d) st) as [E|(d' & _ & E)];
        rewrite E in Hm; [auto|].
      apply In_snoc in Hm as [Hm|Hm]; [auto | discriminate].
    + injection Hm as ->. exact DT.
  - intros st line H m Hm. unfold absorb in Hm.
    destruct (lastMessage st) as [i|]; [|auto].
    destruct (nth_error (messages st) i) as [[m0| |]|] eqn:E; auto.
    cbn [messages] in Hm. apply In_update in Hm as [Hm|Hm]; [|auto].
    injection Hm as ->. cbn [timestamp]. apply H. eapply nth_error_In, E.
Qed.
End Timestamps.

(** C10: every message item [parseChat] returns has a non-empty display
    timestamp. *)
Theorem parseChat_timestamps_nonempty {Id : Type} (random : nat -> Id)
    (txt : jsstring) :
  exists out,
    V1.parseChat random txt = Ok out
    /\ forall m, In (ItemMessage m) (chat_messages out) -> timestamp m <> [].
Proof.
  rewrite V1_parseChat_model. eexists. split; [reflexivity|].
  cbn [chat_messages]. apply timestamps_set_run. intros m [].
Qed.

(** ** Speakers (C8) *)

Lemma str_eqb_sym (a b : jsstring) : str_eqb a b = str_eqb b a.
Proof.
  destruct (str_eqb a b) eqn:E.
  - apply str_eqb_eq in E. subst. symmetry. apply str_eqb_refl.
  - symmetry. apply str_eqb_neq. apply str_eqb_neq in E. congruence.
Qed.

Lemma existsb_filter_other (x y : jsstring) (l : list jsstring) :
  str_eqb x y = false ->
  existsb (str_eqb x) (filter (fun z => negb (str_eqb y z)) l)
  = existsb (str_eqb x) l.
Proof.
  intros N. induction l as [|z l IH]; [reflexivity|]. simpl.
  destruct (str_eqb y z) eqn:E; simpl; rewrite IH; [|reflexivity].
  apply str_eqb_eq in E. subst z. now rewrite N.
Qed.

Lemma nub_snoc (l : list jsstring) (x : jsstring) :
  nub (l ++ [x]) = set_add x (nub l).
Proof.
  unfold set_add. induction l as [|y l IH]; [reflexivity|].
  cbn [app nub existsb]. rewrite IH.
  destruct (str_eqb x y) eqn:E.
  - apply str_eqb_eq in E. subst y. cbn [orb].
    destruct (existsb (str_eqb x) (nub l)); [reflexivity|].
    rewrite filter_app. cbn [filter]. rewrite str_eqb_refl. cbn [negb].
    now rewrite app_nil_r.
  - cbn [orb]. rewrite (existsb_filter_other x y (nub l) E).
    destruct (existsb (str_eqb x) (nub l)); [reflexivity|].
    rewrite filter_app. cbn [filter]. rewrite (str_eqb_sym y x), E. reflexivity.
Qed.

Lemma nub_In (l : list jsstring) (x : jsstring) : In x (nub l) <-> In x l.
Proof.
  induction l as [|y l IH]; [reflexivity|]. cbn [nub In].
  rewrite filter_In, IH. split.
  - intros [H|[H _]]; auto.
  - intros [H|H]; [auto|]. destruct (str_eqb y x) eqn:E.
    + left. now apply str_eqb_eq.
    + right. auto.
Qed.

Lemma nub_NoDup (l : list jsstring) : NoDup (nub l).
Proof.
  induction l as [|y l IH]; cbn [nub]; constructor.
  - rewrite filter_In. intros [_ H]. now rewrite str_eqb_refl in H.
  - now apply NoDup_filter.
Qed.

Lemma flat_map_update {A B : Type} (f : A -> list B) (i : nat) (a b : A)
    (l : list A) :
  nth_error l i = Some b -> f a = f b -> flat_map f (update i a l) = flat_map f l.
Proof.
  revert i; induction l as [|y l IH]; intros [|i] H E; simpl in *;
    try discriminate.
  - injection H as ->. now rewrite E.
  - f_equal. now apply IH.
Qed.

Lemma speakers_of_snoc {Id : Type} (l : list (ChatItem Id)) (x : ChatItem Id) :
  speakers_of (l ++ [x])
  = speakers_of l ++ match x with ItemMessage m => [user m] | _ => [] end.
Proof. unfold speakers_of. rewrite flat_map_app. simpl. now rewrite app_nil_r. Qed.

Section Speakers.
Context {Id : Type}.
Variable random : nat -> Id.
Variable v : revision.

Lemma users_ok_run (lines : list jsstring) (st : pstate Id) :
  users_ok st -> users_ok (run_model random v st lines).
Proof.
  revert lines st. apply run_model_ind; unfold users_ok.
  - intros st H. unfold delete_notice, push. cbn [messages users].
    now rewrite speakers_of_snoc, app_nil_r.
  - intros st line d _ H. unfold on_header.
    destruct (negb (opt_str_eqb _ _)); [|exact H]. cbn [messages users].
    now rewrite speakers_of_snoc, app_nil_r.
  - intros st ts d t name body _ _ _ _ H. unfold on_message.
    cbn [messages users]. rewrite speakers_of_snoc. cbn [user].
    rewrite nub_snoc. f_equal. unfold message_date_state.
    destruct (truthy d && negb (opt_str_eqb (formatDateWithDay d) (lastDate st)));
      [|exact H].
    cbn [messages users]. now rewrite speakers_of_snoc, app_nil_r.
  - intros st line H. unfold absorb.
    destruct (lastMessage st) as [i|]; [|exact H].
    destruct (nth_error (messages st) i) as [[m0| |]|] eqn:E; try exact H.
    cbn [messages users]. rewrite H. f_equal. symmetry.
    unfold speakers_of. eapply flat_map_update; [exact E | reflexivity].
Qed.
End Speakers.

(** C8: the speakers returned by [parseChat] are the distinct (trimmed)
    speaker names of the message items, each once, in first-seen order. *)
Theorem parseChat_speakers {Id : Type} (random : nat -> Id) (txt : jsstring) :
  exists out,
    V1.parseChat random txt = Ok out
    /\ chat_users out = nub (speakers_of (chat_messages out))
    /\ NoDup (chat_users out)
    /\ forall name, In name (chat_users out)
                    <-> In name (speakers_of (chat_messages out)).
Proof.
  rewrite V1_parseChat_model. eexists. split; [reflexivity|].
  cbn [chat_messages chat_users].
  assert (H : users_ok (run_model random rev1 initial (body_lines txt)))
    by (apply users_ok_run; reflexivity).
  unfold users_ok in H. rewrite H. split; [reflexivity|]. split.
  - apply nub_NoDup.
  - intros name. apply nub_In.
Qed.

(** The example of the design notes: speakers A, B, A give [A; B]. *)
Example parseChat_speakers_ABA :
  exists out,
    V1.parseChat (fun n : nat => n)
      (join_nl (List.map utf16
         ["T"; "x"; "";
          "2024년 1월 1일 오전 9:00, A : one";
          "2024년 1월 1일 오전 9:01, B : two";
          "2024년 1월 1일 오전 9:02, A : three"]%string)) = Ok out
    /\ chat_users out = [utf16 "A"; utf16 "B"].
Proof. eexists. split; vm_compute; reflexivity. Qed.

(** ** Resets freeze the items emitted so far (C6, C2) *)

Lemma find_snoc {A : Type} (f : A -> bool) (l : list A) (x : A) :
  find f (l ++ [x]) = match find f l with
                      | Some y => Some y
                      | None => if f x then Some x else None
                      end.
Proof.
  induction l as [|y l IH]; simpl; [reflexivity|]. now destruct (f y).
Qed.

Lemma first_message_fresh_snoc {Id : Type} (l : list (ChatItem Id))
    (x : ChatItem Id) :
  first_message_fresh l ->
  (find is_message l = None ->
   match x with ItemMessage m => isContinuation m = false | _ => True end) ->
  first_message_fresh (l ++ [x]).
Proof.
  unfold first_message_fresh. rewrite find_snoc. intros H1 H2.
  destruct (find is_message l) as [y|]; [exact H1|].
  destruct x as [m| |]; cbn [is_message]; auto.
Qed.

Lemma first_message_fresh_update {Id : Type} (l : list (ChatItem Id)) (j : nat)
    (m : Message Id) (line : jsstring) :
  nth_error l j = Some (ItemMessage m) ->
  first_message_fresh l ->
  first_message_fresh (update j (ItemMessage (absorbed m line)) l).
Proof.
  unfold first_message_fresh. revert j.
  induction l as [|y l IH]; intros [|j] E H; simpl in *; try discriminate.
  - injection E as ->. exact H.
  - destruct (is_message y); [exact H|]. now apply IH.
Qed.

Lemma find_none_not_message {Id : Type} (l : list (ChatItem Id)) (j : nat)
    (m : Message Id) :
  find is_message l = None -> nth_error l j <> Some (ItemMessage m).
Proof.
  intros F E. apply nth_error_In in E.
  apply (find_none _ _ F) in E. discriminate.
Qed.

Section Frozen.
Context {Id : Type}.
Variable random : nat -> Id.
Variable v : revision.

Lemma frozen_run (base : list (ChatItem Id)) (lines : list jsstring)
    (st : pstate Id) :
  frozen base st -> frozen base (run_model random v st lines).
Proof.
  revert lines st. apply run_model_ind; unfold frozen, tracker_after.
  - intros st (cur & E & F & T). unfold delete_notice, push.
    cbn [messages lastMessage]. exists (cur ++ [ItemSystem (random (draws st)) DELETED]).
    rewrite E, app_assoc. repeat split; [|discriminate].
    apply first_message_fresh_snoc; auto.
  - intros st line d _ (cur & E & F & T). unfold on_header.
    destruct (negb (opt_str_eqb _ _)); [|now exists cur].
    cbn [messages lastMessage]. eexists. rewrite E, <- app_assoc.
    repeat split; [|discriminate]. apply first_message_fresh_snoc; auto.
  - intros st ts d t name body _ _ _ _ (cur & E & F & T).
    assert (S1 : exists cur1,
               messages (message_date_state random v ts (Some d) st) = base ++ cur1
               /\ first_message_fresh cur1
               /\ (find is_message cur = None -> find is_message cur1 = None)).
    { destruct (message_date_state_items random v ts (Some d) st) as [E1|(d' & _ & E1)];
        rewrite E1, E.
      - exists cur. auto.
      - eexists. rewrite <- app_assoc. split; [reflexivity|]. split.
        + apply first_message_fresh_snoc; auto.
        + intros N. rewrite find_snoc, N. reflexivity. }
    destruct S1 as (cur1 & E1 & F1 & N1).
    assert (L1 : lastMessage (message_date_state random v ts (Some d) st)
                 = lastMessage st).
    { unfold message_date_state.
      destruct (truthy d && negb (opt_str_eqb (formatDateWithDay d) (lastDate st)));
        reflexivity. }
    unfold on_message. cbn [messages lastMessage]. rewrite E1.
    eexists. rewrite <- app_assoc. split; [reflexivity|]. split.
    + apply first_message_fresh_snoc; [exact F1|]. intros N. cbn [isContinuation].
      unfold continues, lastMessage_object. rewrite L1, E1.
      destruct (lastMessage st) as [i|] eqn:L; [|reflexivity].
      specialize (T i eq_refl). rewrite nth_error_app2 by exact T.
      destruct (nth_error cur1 (i - List.length base)) as [[m| |]|] eqn:C;
        try reflexivity.
      exfalso. exact (find_none_not_message _ _ _ N C).
    + intros i H. injection H as <-. rewrite length_app. lia.
  - intros st line (cur & E & F & T). unfold absorb.
    destruct (lastMessage st) as [i|] eqn:L; [|exists cur; rewrite L; auto].
    specialize (T i eq_refl).
    destruct (nth_error (messages st) i) as [[m| |]|] eqn:C;
      try (exists cur; rewrite L; repeat split; auto; intros ? H; now injection H as <-).
    cbn [messages lastMessage]. rewrite E in *. rewrite update_app_r by exact T.
    rewrite nth_error_app2 in C by exact T.
    eexists. split; [reflexivity|]. split.
    + now apply first_message_fresh_update.
    + intros ? H. now injection H as <-.
Qed.

(** After a reset every later line leaves the items emitted so far as they
    are, and the next message emitted is not a continuation. *)
Lemma reset_freezes (st : pstate Id) (lines : list jsstring) :
  lastMessage st = None ->
  exists tail,
    messages (run_model random v st lines) = messages st ++ tail
    /\ first_message_fresh tail.
Proof.
  intros L.
  destruct (frozen_run (messages st) lines st) as (tail & E & F & _).
  - exists []. rewrite app_nil_r. repeat split. intros i H. congruence.
  - eauto.
Qed.
End Frozen.

Lemma run_model_app {Id : Type} (random : nat -> Id) (v : revision)
    (st : pstate Id) (l1 l2 : list jsstring) :
  run_model random v st (l1 ++ l2)
  = run_model random v (run_model random v st l1) l2.
Proof. apply fold_left_app. Qed.

Lemma step_model_DELETED {Id : Type} (random : nat -> Id) (v : revision)
    (st : pstate Id) :
  step_model random v st DELETED = delete_notice random st.
Proof. reflexivity. Qed.

(** C6: the deletion marker emits a system item carrying the sentinel and
    resets the tracker; the items emitted before it are returned as they
    were when the marker was read, whatever follows, and the first message
    after the marker is not a continuation. *)
Theorem deletion_marker_resets {Id : Type} (random : nat -> Id) (txt : jsstring)
    (header before after : list jsstring) :
  List.map trim (split_nl txt) = header ++ before ++ DELETED :: after ->
  List.length header = 3%nat ->
  exists out st st' tail,
    V1.parseChat random txt = Ok out
    /\ run (V1.step random) initial before = Ok st
    /\ V1.step random st DELETED = Ok st'
    /\ lastMessage st' = None
    /\ messages st' = messages st ++ [ItemSystem (random (draws st)) DELETED]
    /\ chat_messages out = messages st' ++ tail
    /\ first_message_fresh tail.
Proof.
  intros E H. rewrite V1_parseChat_model. cbv zeta.
  assert (B : body_lines txt = before ++ [DELETED] ++ after).
  { unfold body_lines. rewrite E, skipn_app, H, Nat.sub_diag.
    rewrite skipn_all2 by lia. reflexivity. }
  rewrite B, !run_model_app.
  set (st := run_model random rev1 initial before).
  destruct (reset_freezes random rev1 (run_model random rev1 st [DELETED]) after)
    as (tail & T & F); [reflexivity|].
  exists (mkParsedChat (messages (run_model random rev1
                                    (run_model random rev1 st [DELETED]) after))
                       (users (run_model random rev1
                                 (run_model random rev1 st [DELETED]) after))
                       (title_of (List.map trim (split_nl txt)))),
    st, (delete_notice random st), tail.
  repeat split; auto. apply V1_run.
Qed.

Lemma deletion_marker_resets_witness :
  exists out st st' tail,
    V1.parseChat (fun n : nat => n)
      (join_nl (List.map utf16
         ["Title"; "saved"; "";
          "2024년 1월 1일 오전 9:00, A : hello";
          "메시지가 삭제되었습니다.";
          "stray";
          "2024년 1월 1일 오전 9:00, A : again"]%string)) = Ok out
    /\ run (V1.step (fun n : nat => n)) initial
         [utf16 "2024년 1월 1일 오전 9:00, A : hello"] = Ok st
    /\ V1.step (fun n : nat => n) st DELETED = Ok st'
    /\ lastMessage st' = None
    /\ messages st' = messages st ++ [ItemSystem (draws st) DELETED]
    /\ chat_messages out = messages st' ++ tail
    /\ first_message_fresh tail.
Proof.
  apply (deletion_marker_resets (fun n : nat => n) _
           (List.map utf16 ["Title"; "saved"; ""]%string)
           [utf16 "2024년 1월 1일 오전 9:00, A : hello"]
           (List.map utf16 ["stray"; "2024년 1월 1일 오전 9:00, A : again"]%string)).
  - vm_compute. reflexivity.
  - reflexivity.
Defined.

(** ** Date-only headers (C2) and continuation lines (C5) *)

Lemma header_date_DELETED : header_date DELETED = None.
Proof. reflexivity. Qed.

Lemma classify_header (line d : jsstring) :
  header_date line = Some d -> classify line = KHeader d.
Proof.
  intros H. unfold classify.
  destruct (header_date_inv _ _ H) as (t & E & Q & _).
  pose proof (qDATE_truthy _ _ _ _ Q) as T.
  assert (TL : truthy line = true) by (rewrite E; destruct d; [discriminate|reflexivity]).
  rewrite TL. cbn [negb].
  destruct (str_eqb line DELETED) eqn:D.
  - apply str_eqb_eq in D. rewrite D, header_date_DELETED in H. discriminate.
  - now rewrite H.
Qed.

Lemma header_law_model {Id : Type} (random : nat -> Id) (v : revision)
    (step : pstate Id -> jsstring -> result (pstate Id))
    (payload : jsstring -> jsstring) (st : pstate Id) (line d : jsstring) :
  (forall st line, step st line = Ok (step_model random v st line)) ->
  header_payload v line d = payload line ->
  header_date line = Some d ->
  header_law random step payload st line.
Proof.
  intros HS HP HD. unfold header_law. rewrite (date_text_header _ _ HD).
  assert (E : step st line = Ok (on_header random v line d st)).
  { rewrite HS. unfold step_model. now rewrite (classify_header _ _ HD). }
  rewrite E. unfold on_header. split; intros C; rewrite C; cbn [negb];
    [reflexivity|].
  eexists. split; [reflexivity|]. cbn [messages lastMessage lastDate].
  rewrite HP. repeat split. intros later.
  rewrite (run_step_model random v step HS).
  match goal with
  | |- context [run_model random v ?s later] =>
      destruct (reset_freezes random v s later) as (tail & T & F); [reflexivity|];
      exists (run_model random v s later), tail
  end.
  auto.
Qed.

Lemma V1_header_law {Id : Type} (random : nat -> Id) (st : pstate Id)
    (line : jsstring) :
  jsmatch line V1.dateSeparatorRegex <> None ->
  header_law random (V1.step random) (fun l => l) st line.
Proof.
  intros H. rewrite match_header_v1 in H.
  destruct (header_date line) as [d|] eqn:HD; [|contradiction].
  apply (header_law_model random rev1 _ _ st line d);
    [apply V1_step_model | reflexivity | exact HD].
Qed.

Lemma V2_header_law {Id : Type} (random : nat -> Id) (st : pstate Id)
    (line : jsstring) :
  jsmatch line V2.dateSeparatorRegex <> None ->
  header_law random (V2.step random)
             (fun l => formatDateWithDay (date_text l)) st line.
Proof.
  intros H. rewrite match_header_v2 in H.
  destruct (header_date line) as [d|] eqn:HD; [|contradiction].
  apply (header_law_model random rev2 _ _ st line d);
    [apply V2_step_model | | exact HD].
  cbn [header_payload rev2]. now rewrite (date_text_header _ _ HD).
Qed.

(** C2 (as the code has it): a date-only header resets the tracker exactly
    when it emits a date item, that is, when its formatted date differs
    from [lastDate]; a duplicate header leaves the whole state, tracker
    included, unchanged.  After an emitted header no later line is absorbed
    into a message emitted before it and the next message is no
    continuation.  Both revisions. *)
Theorem date_header_resets_when_emitted {Id : Type} (random : nat -> Id)
    (st : pstate Id) (line : jsstring) :
  (jsmatch line V1.dateSeparatorRegex <> None ->
   header_law random (V1.step random) (fun l => l) st line)
  /\ (jsmatch line V2.dateSeparatorRegex <> None ->
      header_law random (V2.step random)
                 (fun l => formatDateWithDay (date_text l)) st line).
Proof.
  split; intros H; [now apply V1_header_law | now apply V2_header_law].
Qed.

Lemma date_header_resets_when_emitted_witness :
  let st : pstate nat := initial in
  let line := utf16 "2024년 1월 1일 오전 9:00" in
  header_law (fun n : nat => n) (V1.step (fun n : nat => n)) (fun l => l) st line
  /\ header_law (fun n : nat => n) (V2.step (fun n : nat => n))
       (fun l => formatDateWithDay (date_text l)) st line.
Proof.
  intros st line.
  destruct (date_header_resets_when_emitted (fun n : nat => n) st line) as [H1 H2].
  split; [apply H1 | apply H2]; vm_compute; discriminate.
Defined.

(** C2 as stated fails: the header on the fifth line repeats the date of the
    message before it, so it is skipped without a reset, and the stray line
    after it is absorbed into that message. *)
Lemma date_header_reset_counterexample :
  let header := utf16 "2024년 1월 1일 오전 9:05" in
  exists out i m,
    jsmatch header V1.dateSeparatorRegex <> None
    /\ V1.parseChat (fun n : nat => n)
         (join_nl [utf16 "Title"; utf16 "saved"; [];
                   utf16 "2024년 1월 1일 오전 9:00, A : hello";
                   header;
                   utf16 "stray"]) = Ok out
    /\ chat_messages out
       = [ItemDate i (utf16 "2024년 1월 1일 오전 9:00"); ItemMessage m]
    /\ content m = utf16 "hello" ++ 0x0A :: utf16 "stray".
Proof.
  intros header. eexists. eexists. eexists.
  split; [vm_compute; discriminate|].
  split; [vm_compute; reflexivity|].
  split; reflexivity.
Qed.

(** C5 (as the code has it): a non-empty line that is neither the deletion
    marker nor a date-only header nor a message line, read while the
    tracker refers to a message, is appended to the body of that message
    after a single line feed, and no item is added. *)
Theorem continuation_line_absorbed {Id : Type} (random : nat -> Id)
    (st : pstate Id) (line : jsstring) (i : nat) (m : Message Id) :
  truthy line = true ->
  line <> DELETED ->
  jsmatch line V1.dateSeparatorRegex = None ->
  jsmatch line messageRegex = None ->
  lastMessage st = Some i ->
  nth_error (messages st) i = Some (ItemMessage m) ->
  exists st',
    V1.step random st line = Ok st'
    /\ messages st' = update i (ItemMessage (absorbed m line)) (messages st)
    /\ nth_error (messages st') i = Some (ItemMessage (absorbed m line))
    /\ content (absorbed m line) = content m ++ 0x0A :: line
    /\ List.length (messages st') = List.length (messages st)
    /\ lastMessage st' = Some i.
Proof.
  intros T D HH HM L E. rewrite V1_step_model. unfold step_model, classify.
  rewrite T. cbn [negb]. apply str_eqb_neq in D. rewrite D.
  rewrite match_header_v1 in HH. rewrite match_message in HM.
  destruct (header_date line); [discriminate|].
  destruct (message_parts line) as [[[? ?] ?]|]; [discriminate|].
  unfold absorb. rewrite L, E. eexists. split; [reflexivity|].
  cbn [messages lastMessage]. repeat split.
  - rewrite nth_error_update, Nat.eqb_refl, E. reflexivity.
  - apply update_length.
Qed.

Lemma continuation_line_absorbed_witness :
  let st : pstate nat :=
    mkState [ItemMessage (mkMessage 0%nat (utf16 "A") (utf16 "hello")
                                    (utf16 "오전 9:00") None false)]
            [utf16 "A"] (Some 0%nat) None 1 in
  let line := utf16 "stray" in
  exists st',
    V1.step (fun n : nat => n) st line = Ok st'
    /\ messages st'
       = update 0 (ItemMessage (absorbed (mkMessage 0%nat (utf16 "A") (utf16 "hello")
                                            (utf16 "오전 9:00") None false) line))
                (messages st)
    /\ nth_error (messages st') 0
       = Some (ItemMessage (absorbed (mkMessage 0%nat (utf16 "A") (utf16 "hello")
                                        (utf16 "오전 9:00") None false) line))
    /\ content (absorbed (mkMessage 0%nat (utf16 "A") (utf16 "hello")
                            (utf16 "오전 9:00") None false) line)
       = utf16 "hello" ++ 0x0A :: line
    /\ List.length (messages st') = List.length (messages st)
    /\ lastMessage st' = Some 0%nat.
Proof.
  intros st line.
  apply (continuation_line_absorbed (fun n : nat => n) st line 0
           (mkMessage 0%nat (utf16 "A") (utf16 "hello") (utf16 "오전 9:00") None false)).
  - reflexivity.
  - discriminate.
  - reflexivity.
  - reflexivity.
  - reflexivity.
  - reflexivity.
Defined.

(** C5 as stated fails on a blank line: it matches none of the three
    patterns, the tracker refers to the message just emitted, and yet the
    line is skipped and the body stays as it is. *)
Lemma continuation_line_counterexample :
  exists (st st' : pstate nat) (i : nat) (m : Message nat),
    run (V1.step (fun n : nat => n)) initial
        [utf16 "2024년 1월 1일 오전 9:00, A : hello"] = Ok st
    /\ lastMessage st = Some i
    /\ nth_error (messages st) i = Some (ItemMessage m)
    /\ ([] : jsstring) <> DELETED
    /\ jsmatch [] V1.dateSeparatorRegex = None
    /\ jsmatch [] messageRegex = None
    /\ V1.step (fun n : nat => n) st [] = Ok st'
    /\ nth_error (messages st') i = Some (ItemMessage m)
    /\ content m <> content m ++ 0x0A :: [].
Proof.
  eexists. eexists. eexists. eexists.
  split; [vm_compute; reflexivity|].
  split; [reflexivity|].
  split; [reflexivity|].
  split; [discriminate|].
  split; [reflexivity|].
  split; [reflexivity|].
  split; [reflexivity|].
  split; [reflexivity|].
  discriminate.
Qed.

(** ** Date markers (C4) *)

Lemma last_error_snoc {A : Type} (l : list A) (x : A) :
  last_error (l ++ [x]) = Some x.
Proof. unfold last_error. now rewrite rev_unit. Qed.

Lemma last_error_cons {A : Type} (x y : A) (l : list A) :
  last_error (x :: y :: l) = last_error (y :: l).
Proof.
  unfold last_error. cbn [rev]. destruct (rev l) as [|z r]; reflexivity.
Qed.

Lemma adjacent_distinct_snoc (l : list jsstring) (p : jsstring) :
  adjacent_distinct l ->
  (forall q, last_error l = Some q -> date_text q <> date_text p) ->
  adjacent_distinct (l ++ [p]).
Proof.
  induction l as [|a l IH]; intros H L; [exact I|].
  destruct l as [|b l].
  - cbn. split; [|exact I]. apply L. reflexivity.
  - destruct H as [H1 H2]. split; [exact H1|].
    apply IH; [exact H2|]. intros q Hq. apply L. now rewrite last_error_cons.
Qed.

Lemma adjacent_distinct_neighbours (l : list jsstring) :
  adjacent_distinct l ->
  forall pre p1 p2 post, l = pre ++ p1 :: p2 :: post ->
                         date_text p1 <> date_text p2.
Proof.
  intros H pre. revert l H. induction pre as [|a pre IH]; intros l H p1 p2 post E.
  - subst l. exact (proj1 H).
  - subst l. refine (IH (pre ++ p1 :: p2 :: post) _ p1 p2 post eq_refl).
    cbn [app adjacent_distinct] in H.
    destruct (pre ++ p1 :: p2 :: post) eqn:X; [destruct pre; discriminate|].
    exact (proj2 H).
Qed.

Lemma dates_of_snoc {Id : Type} (l : list (ChatItem Id)) (x : ChatItem Id) :
  dates_of (l ++ [x])
  = dates_of l ++ match x with ItemDate _ d => [d] | _ => [] end.
Proof. unfold dates_of. rewrite flat_map_app. simpl. now rewrite app_nil_r. Qed.

Lemma opt_str_eqb_false (a b : jsstring) :
  opt_str_eqb a (Some b) = false -> a <> b.
Proof. cbn. apply str_eqb_neq. Qed.

Section Dates.
Context {Id : Type}.
Variable random : nat -> Id.
Variable v : revision.
Hypothesis Hv : keeps_date_text v.

(** Appending a date item whose formatted date is not [lastDate]. *)
Lemma dates_ok_push (st : pstate Id) (p d : jsstring) (lm : option nat) :
  dates_ok st -> date_text p = d ->
  negb (opt_str_eqb (formatDateWithDay d) (lastDate st)) = true ->
  dates_ok (mkState (messages st ++ [ItemDate (random (draws st)) p]) (users st)
                    lm (Some (formatDateWithDay d)) (S (draws st))).
Proof.
  intros [A L] E N. unfold dates_ok. cbn [messages lastDate].
  rewrite dates_of_snoc. split.
  - apply adjacent_distinct_snoc; [exact A|]. intros q Hq C.
    rewrite (L q Hq), C, E in N. cbn [opt_str_eqb] in N.
    now rewrite str_eqb_refl in N.
  - intros q Hq. rewrite last_error_snoc in Hq. injection Hq as <-. now rewrite E.
Qed.

Lemma dates_ok_run (lines : list jsstring) (st : pstate Id) :
  dates_ok st -> dates_ok (run_model random v st lines).
Proof.
  destruct Hv as [HvH HvM].
  revert lines st. apply run_model_ind.
  - intros st [A L]. unfold dates_ok, delete_notice, push.
    cbn [messages lastDate]. rewrite dates_of_snoc, app_nil_r. auto.
  - intros st line d HD H. unfold on_header.
    destruct (negb (opt_str_eqb _ _)) eqn:N; [|exact H].
    apply dates_ok_push; auto.
  - intros st ts d t name body Q _ _ _ H. unfold on_message.
    assert (H1 : dates_ok (message_date_state random v ts (Some d) st)).
    { unfold message_date_state.
      destruct (truthy d && negb (opt_str_eqb (formatDateWithDay d) (lastDate st)))
        eqn:N; [|exact H].
      apply andb_prop in N as [_ N]. apply dates_ok_push; eauto. }
    destruct H1 as [A L]. unfold dates_ok. cbn [messages lastDate].
    rewrite dates_of_snoc, app_nil_r. auto.
  - intros st line [A L]. unfold dates_ok, absorb.
    destruct (lastMessage st) as [i|]; [|auto].
    destruct (nth_error (messages st) i) as [[m0| |]|] eqn:E; auto.
    cbn [messages lastDate].
    assert (X : dates_of (update i (ItemMessage (absorbed m0 line)) (messages st))
                = dates_of (messages st)).
    { unfold dates_of. eapply flat_map_update; [exact E | reflexivity]. }
    fold (absorbed m0 line). rewrite X. auto.
Qed.
End Dates.

Lemma keeps_date_text_rev1 : keeps_date_text rev1.
Proof.
  split; cbn [header_payload message_payload rev1].
  - intros line d H. now apply date_text_header.
  - intros ts d t H. exact (date_text_qDATE _ _ _ _ H).
Qed.

Lemma keeps_date_text_rev2 : keeps_date_text rev2.
Proof.
  assert (K : forall s d u r, qDATE s = Some (d, u, r) ->
                              date_text (formatDateWithDay d) = d).
  { intros s d u r H. destruct (formatDateWithDay_date _ _ _ _ H) as [w ->].
    destruct (local_DATE _ _ _ _ H) as [_ L].
    exact (date_text_qDATE _ _ _ _ (L _)). }
  split; cbn [header_payload message_payload rev2].
  - intros line d H. destruct (header_date_inv _ _ H) as (t & _ & Q & _). eauto.
  - intros ts d t H. eauto.
Qed.

(** C4 (as the code has it): two date items that are neighbours among the
    date items returned carry different date texts, the [YYYY년 M월 D일]
    part as written; and of two date-only header lines with the same date
    text read one after the other the second changes nothing, so that the
    pair emits one date item when the first does and none otherwise. *)
Theorem date_markers_deduplicated {Id : Type} (random : nat -> Id) :
  (forall txt, exists out,
      V1.parseChat random txt = Ok out
      /\ forall pre p1 p2 post,
           dates_of (chat_messages out) = pre ++ p1 :: p2 :: post ->
           date_text p1 <> date_text p2)
  /\ (forall (st st1 : pstate Id) (line1 line2 : jsstring),
         jsmatch line1 V1.dateSeparatorRegex <> None ->
         jsmatch line2 V1.dateSeparatorRegex <> None ->
         date_text line1 = date_text line2 ->
         V1.step random st line1 = Ok st1 ->
         V1.step random st1 line2 = Ok st1
         /\ (messages st1 = messages st
             \/ messages st1 = messages st ++ [ItemDate (random (draws st)) line1])).
Proof.
  split.
  - intros txt. rewrite V1_parseChat_model. eexists. split; [reflexivity|].
    cbn [chat_messages]. apply adjacent_distinct_neighbours.
    apply (dates_ok_run random rev1 keeps_date_text_rev1).
    split; [exact I | discriminate].
  - intros st st1 line1 line2 H1 H2 E S1.
    destruct (V1_header_law random st line1 H1) as [A1 B1].
    assert (L1 : lastDate st1 = Some (formatDateWithDay (date_text line1))
                 /\ (messages st1 = messages st
                     \/ messages st1
                        = messages st ++ [ItemDate (random (draws st)) line1])).
    { destruct (opt_str_eqb (formatDateWithDay (date_text line1)) (lastDate st)) eqn:C.
      - rewrite (A1 eq_refl) in S1. injection S1 as <-. split; [|now left].
        destruct (lastDate st) as [ld|]; [|discriminate]. cbn in C.
        apply str_eqb_eq in C. now subst.
      - destruct (B1 eq_refl) as (st' & S' & M & _ & LD & _).
        rewrite S' in S1. injection S1 as <-. split; [exact LD | now right]. }
    destruct L1 as [LD M]. split; [|exact M].
    destruct (V1_header_law random st1 line2 H2) as [A2 _].
    apply A2. rewrite LD, E. cbn. apply str_eqb_refl.
Qed.

Lemma date_markers_deduplicated_witness :
  let line := utf16 "2024년 1월 1일 오전 9:00" in
  let st : pstate nat := initial in
  let st1 : pstate nat :=
    mkState [ItemDate 0%nat line] [] None
            (Some (formatDateWithDay (utf16 "2024년 1월 1일"))) 1 in
  V1.step (fun n : nat => n) st1 line = Ok st1
  /\ (messages st1 = messages st
      \/ messages st1 = messages st ++ [ItemDate (draws st) line]).
Proof.
  intros line st st1.
  apply (proj2 (date_markers_deduplicated (fun n : nat => n)) st st1 line line).
  - vm_compute. discriminate.
  - vm_compute. discriminate.
  - reflexivity.
  - vm_compute. reflexivity.
Defined.

(** C4 as stated fails: the two header lines spell the same calendar day,
    1 January 2024, once without and once with leading zeros; both are
    emitted. *)
Lemma date_markers_counterexample :
  exists out i1 i2 p1 p2,
    V1.parseChat (fun n : nat => n)
      (join_nl (List.map utf16
         ["Title"; "saved"; "";
          "2024년 1월 1일 오전 9:00";
          "2024년 01월 01일 오전 9:00"]%string)) = Ok out
    /\ chat_messages out = [ItemDate i1 p1; ItemDate i2 p2]
    /\ calendar_date p1 = Some (2024, 1, 1)
    /\ calendar_date p2 = Some (2024, 1, 1).
Proof.
  do 5 eexists. split; [vm_compute; reflexivity|].
  split; [reflexivity|]. split; vm_compute; reflexivity.
Qed.

(** ** The two revisions side by side (C3) *)

Lemma Forall2_snoc {A B : Type} (R : A -> B -> Prop) (l1 : list A) (l2 : list B)
    (a : A) (b : B) :
  Forall2 R l1 l2 -> R a b -> Forall2 R (l1 ++ [a]) (l2 ++ [b]).
Proof. intros H1 H2. apply Forall2_app; [exact H1 | now constructor]. Qed.

Lemma Forall2_update {A B : Type} (R : A -> B -> Prop) (l1 : list A)
    (l2 : list B) (i : nat) (a : A) (b : B) :
  Forall2 R l1 l2 -> R a b -> Forall2 R (update i a l1) (update i b l2).
Proof.
  intros H Hab. revert i. induction H as [|x y l1 l2 Hxy H IH]; intros [|i];
    simpl; constructor; auto.
Qed.

Lemma Forall2_nth_error {A B : Type} (R : A -> B -> Prop) (l1 : list A)
    (l2 : list B) (i : nat) :
  Forall2 R l1 l2 ->
  match nth_error l1 i, nth_error l2 i with
  | Some a, Some b => R a b
  | None, None => True
  | _, _ => False
  end.
Proof.
  intros H. revert i. induction H as [|x y l1 l2 Hxy H IH]; intros [|i]; simpl; auto.
  apply IH.
Qed.

Section TwoRevisions.
Context {Id1 Id2 : Type}.
Variable random1 : nat -> Id1.
Variable random2 : nat -> Id2.

Lemma continues_rel (st1 : pstate Id1) (st2 : pstate Id2) (name ts : jsstring) :
  Forall2 item_rel (messages st1) (messages st2) ->
  lastMessage st1 = lastMessage st2 ->
  continues st1 name ts = continues st2 name ts.
Proof.
  intros F L. unfold continues, lastMessage_object. rewrite <- L.
  destruct (lastMessage st1) as [i|]; [|reflexivity].
  pose proof (Forall2_nth_error _ _ _ i F) as N.
  destruct (nth_error (messages st1) i) as [[m1|? ?|? ?]|];
    destruct (nth_error (messages st2) i) as [[m2|? ?|? ?]|];
    cbn [item_rel] in N; try contradiction; try reflexivity.
  destruct N as (-> & _ & -> & _). reflexivity.
Qed.

Lemma absorb_rel (st1 : pstate Id1) (st2 : pstate Id2) (line : jsstring) :
  state_rel st1 st2 -> state_rel (absorb st1 line) (absorb st2 line).
Proof.
  intros (F & U & L & D). unfold absorb. rewrite <- L.
  destruct (lastMessage st1) as [i|] eqn:L1; [|unfold state_rel; rewrite L1; auto].
  pose proof (Forall2_nth_error _ _ _ i F) as N.
  destruct (nth_error (messages st1) i) as [[m1|? ?|? ?]|];
    destruct (nth_error (messages st2) i) as [[m2|? ?|? ?]|];
    cbn [item_rel] in N; try contradiction;
    try (unfold state_rel; rewrite L1; auto).
  cbn [messages users lastMessage lastDate]. repeat split; auto.
  apply Forall2_update; [exact F|]. cbn [item_rel user content timestamp isContinuation].
  destruct N as (-> & -> & -> & ->). auto.
Qed.

Lemma date_state_rel (st1 : pstate Id1) (st2 : pstate Id2) (ts d : jsstring) :
  header_date ts = Some d ->
  state_rel st1 st2 ->
  state_rel (message_date_state random1 rev1 ts (Some d) st1)
            (message_date_state random2 rev2 ts (Some d) st2).
Proof.
  intros HD (F & U & L & D). unfold message_date_state. rewrite <- D.
  destruct (truthy d && negb (opt_str_eqb (formatDateWithDay d) (lastDate st1)));
    [|unfold state_rel; auto].
  unfold state_rel. cbn [messages users lastMessage lastDate]. repeat split; auto.
  apply Forall2_snoc; [exact F|].
  cbn [item_rel message_payload rev1 rev2]. split.
  - rewrite match_header_v1, HD. discriminate.
  - now rewrite (date_text_header _ _ HD).
Qed.

Lemma step_model_rel (st1 : pstate Id1) (st2 : pstate Id2) (line : jsstring) :
  state_rel st1 st2 ->
  state_rel (step_model random1 rev1 st1 line) (step_model random2 rev2 st2 line).
Proof.
  intros R. unfold step_model.
  destruct (classify line) as [| |d|ts od name body|] eqn:C.
  - exact R.
  - destruct R as (F & U & L & D). unfold state_rel, delete_notice, push.
    cbn [messages users lastMessage lastDate]. repeat split; auto.
    apply Forall2_snoc; [exact F | reflexivity].
  - destruct (classify_header_inv _ _ C) as (HD & _ & _).
    destruct R as (F & U & L & D). unfold on_header. rewrite <- D.
    destruct (negb (opt_str_eqb (formatDateWithDay d) (lastDate st1)));
      [|unfold state_rel; auto].
    unfold state_rel. cbn [messages users lastMessage lastDate]. repeat split; auto.
    apply Forall2_snoc; [exact F|].
    cbn [item_rel header_payload rev1 rev2]. split.
    + rewrite match_header_v1, HD. discriminate.
    + now rewrite (date_text_header _ _ HD).
  - destruct (classify_message_inv _ _ _ _ _ C) as (d & t & -> & _ & HD & _ & _).
    pose proof (date_state_rel st1 st2 ts d HD R) as (F & U & L & D).
    unfold on_message, state_rel.
    cbn [messages users lastMessage lastDate]. repeat split.
    + apply Forall2_snoc; [exact F|].
      cbn [item_rel user content timestamp isContinuation]. repeat split.
      now apply continues_rel.
    + now rewrite U.
    + now rewrite (Forall2_length F).
    + exact D.
  - now apply absorb_rel.
Qed.

Lemma run_model_rel (lines : list jsstring) :
  forall (st1 : pstate Id1) (st2 : pstate Id2),
    state_rel st1 st2 ->
    state_rel (run_model random1 rev1 st1 lines) (run_model random2 rev2 st2 lines).
Proof.
  induction lines as [|l ls IH]; intros st1 st2 R; [exact R|].
  cbn [run_model fold_left]. apply IH. now apply step_model_rel.
Qed.
End TwoRevisions.

(** C3: on every input the two revisions of [parseChat] return item lists
    of the same length with the same kind of item at each position, the
    same speaker, body, display timestamp and continuation flag in each
    message, the same system text, the same speakers and the same title;
    the date items differ in their payload only, the raw timestamp in the
    first revision and its weekday-annotated date in the second. *)
Theorem revisions_agree {Id1 Id2 : Type} (random1 : nat -> Id1)
    (random2 : nat -> Id2) (txt : jsstring) :
  exists out1 out2,
    V1.parseChat random1 txt = Ok out1
    /\ V2.parseChat random2 txt = Ok out2
    /\ List.length (chat_messages out1) = List.length (chat_messages out2)
    /\ Forall2 item_rel (chat_messages out1) (chat_messages out2)
    /\ chat_users out1 = chat_users out2
    /\ chat_title out1 = chat_title out2.
Proof.
  rewrite V1_parseChat_model, V2_parseChat_model. do 2 eexists.
  split; [reflexivity|]. split; [reflexivity|].
  cbn [chat_messages chat_users chat_title].
  destruct (run_model_rel random1 random2 (body_lines txt) initial initial)
    as (F & U & _ & _).
  - repeat split; constructor.
  - repeat split; auto. exact (Forall2_length F).
Qed.

(** ** The continuation flag (C1) *)

(** C1 does not hold of the code: a message line whose date differs from
    [lastDate] pushes its own date item without resetting the tracker, so
    the message that follows the date item is flagged as a continuation of
    the message before it.  Here the same speaker writes at 9:00 on two
    consecutive days. *)
Lemma continuation_across_date_marker :
  exists out i1 p1 m1 i2 p2 m2,
    V1.parseChat (fun n : nat => n)
      (join_nl (List.map utf16
         ["Title"; "saved"; "";
          "2024년 1월 1일 오전 9:00, A : hello";
          "2024년 1월 2일 오전 9:00, A : world"]%string)) = Ok out
    /\ chat_messages out
       = [ItemDate i1 p1; ItemMessage m1; ItemDate i2 p2; ItemMessage m2]
    /\ isContinuation m2 = true.
Proof.
  do 7 eexists. split; [vm_compute; reflexivity|]. split; reflexivity.
Qed.

(** * Further properties of the parser *)


(** X2: the second revision never throws either, its messages all carry a
    display timestamp and its speakers are the distinct speakers of its
    messages in first-seen order. *)
Theorem V2_parseChat_total {Id : Type} (random : nat -> Id) (txt : jsstring) :
  exists out,
    V2.parseChat random txt = Ok out
    /\ (forall m, In (ItemMessage m) (chat_messages out) -> timestamp m <> [])
    /\ chat_users out = nub (speakers_of (chat_messages out))
    /\ NoDup (chat_users out).
Proof.
  rewrite V2_parseChat_model. eexists. split; [reflexivity|].
  cbn [chat_messages chat_users].
  assert (H : users_ok (run_model random rev2 initial (body_lines txt)))
    by (apply users_ok_run; reflexivity).
  unfold users_ok in H. rewrite H. repeat split.
  - apply timestamps_set_run. intros m [].
  - apply nub_NoDup.
Qed.

Lemma date_text_rev2_payload_inj (p1 p2 : jsstring) :
  p1 = p2 -> date_text p1 = date_text p2.
Proof. now intros ->. Qed.

(** X3: in the second revision two date items that are neighbours among the
    date items returned never carry the same payload. *)
Theorem V2_date_payloads_differ {Id : Type} (random : nat -> Id) (txt : jsstring) :
  exists out,
    V2.parseChat random txt = Ok out
    /\ forall pre p1 p2 post,
         dates_of (chat_messages out) = pre ++ p1 :: p2 :: post -> p1 <> p2.
Proof.
  rewrite V2_parseChat_model. eexists. split; [reflexivity|].
  cbn [chat_messages]. intros pre p1 p2 post E C.
  assert (H : dates_ok (run_model random rev2 initial (body_lines txt))).
  { apply (dates_ok_run random rev2 keeps_date_text_rev2).
    split; [exact I | discriminate]. }
  apply (adjacent_distinct_neighbours _ (proj1 H) pre p1 p2 post E).
  now apply date_text_rev2_payload_inj.
Qed.

Section Ids.
Context {Id : Type}.
Variable random : nat -> Id.
Variable v : revision.

Lemma ids_ok_snoc (l : list (ChatItem Id)) (x : ChatItem Id) :
  List.map item_id l = List.map random (seq 0 (List.length l)) ->
  item_id x = random (List.length l) ->
  List.map item_id (l ++ [x])
  = List.map random (seq 0 (List.length (l ++ [x]))).
Proof.
  intros H E. rewrite length_app. cbn [List.length]. rewrite seq_app, !map_app, H.
  cbn [seq List.map Nat.add]. now rewrite E.
Qed.

Lemma ids_ok_push (st : pstate Id) (x : ChatItem Id) (u : list jsstring)
    (lm : option nat) (ld : option jsstring) :
  ids_ok random st -> item_id x = random (draws st) ->
  ids_ok random (mkState (messages st ++ [x]) u lm ld (S (draws st))).
Proof.
  intros [D M] E. unfold ids_ok. cbn [messages draws]. split.
  - rewrite length_app. cbn [List.length]. lia.
  - apply ids_ok_snoc; [exact M | now rewrite E, D].
Qed.

Lemma map_update {A B : Type} (f : A -> B) (i : nat) (a b : A) (l : list A) :
  nth_error l i = Some b -> f a = f b ->
  List.map f (update i a l) = List.map f l.
Proof.
  revert i; induction l as [|y l IH]; intros [|i] H E; simpl in *;
    try discriminate.
  - injection H as ->. now rewrite E.
  - f_equal. now apply IH.
Qed.

Lemma ids_ok_run (lines : list jsstring) (st : pstate Id) :
  ids_ok random st -> ids_ok random (run_model random v st lines).
Proof.
  revert lines st. apply run_model_ind.
  - intros st H. unfold delete_notice, push. cbn [messages users lastDate draws].
    now apply ids_ok_push.
  - intros st line d _ H. unfold on_header.
    destruct (negb (opt_str_eqb _ _)); [|exact H]. now apply ids_ok_push.
  - intros st ts d t name body _ _ _ _ H. unfold on_message.
    apply ids_ok_push; [|reflexivity]. unfold message_date_state.
    destruct (truthy d && negb (opt_str_eqb (formatDateWithDay d) (lastDate st)));
      [|exact H].
    now apply ids_ok_push.
  - intros st line [D M]. unfold absorb.
    destruct (lastMessage st) as [i|]; [|now split].
    destruct (nth_error (messages st) i) as [[m0| |]|] eqn:E; try now split.
    unfold ids_ok. cbn [messages draws]. rewrite update_length. split; [exact D|].
    rewrite <- M. eapply map_update; [exact E | reflexivity].
Qed.
End Ids.

Lemma NoDup_map_injective {A B : Type} (f : A -> B) (l : list A) :
  (forall x y, f x = f y -> x = y) -> NoDup l -> NoDup (List.map f l).
Proof.
  intros Inj H. induction H as [|x l N H IH]; cbn [List.map]; constructor; auto.
  rewrite in_map_iff. intros (y & E & Hy). apply Inj in E. now subst.
Qed.

(** X4: the item at index [k] of the result carries the [k]-th value drawn
    from [Math.random]; hence the ids are pairwise distinct as soon as the
    draws are. *)
Theorem parseChat_ids {Id : Type} (random : nat -> Id) (txt : jsstring) :
  exists out,
    V1.parseChat random txt = Ok out
    /\ List.map item_id (chat_messages out)
       = List.map random (seq 0 (List.length (chat_messages out)))
    /\ ((forall i j, random i = random j -> i = j) ->
        NoDup (List.map item_id (chat_messages out))).
Proof.
  rewrite V1_parseChat_model. eexists. split; [reflexivity|].
  cbn [chat_messages].
  destruct (ids_ok_run random rev1 (body_lines txt) initial) as [_ M];
    [split; reflexivity|].
  split; [exact M|]. intros Inj. rewrite M.
  apply NoDup_map_injective; [exact Inj | apply seq_NoDup].
Qed.

Lemma parseChat_ids_witness :
  exists out,
    V1.parseChat (fun n : nat => n)
      (join_nl (List.map utf16
         ["T"; "x"; ""; "2024년 1월 1일 오전 9:00, A : one"]%string)) = Ok out
    /\ List.map item_id (chat_messages out)
       = List.map (fun n : nat => n) (seq 0 (List.length (chat_messages out)))
    /\ NoDup (List.map item_id (chat_messages out)).
Proof.
  destruct (parseChat_ids (fun n : nat => n)
              (join_nl (List.map utf16
                 ["T"; "x"; ""; "2024년 1월 1일 오전 9:00, A : one"]%string)))
    as (out & E & M & N).
  exists out. split; [exact E|]. split; [exact M|]. apply N. intros i j H. exact H.
Defined.

Lemma header_excludes_message (line d : jsstring) :
  header_date line = Some d -> message_parts line = None.
Proof.
  intros H. destruct (header_date_inv _ _ H) as (t & _ & Q & T).
  unfold message_parts. now rewrite (qseq_intro _ _ _ _ _ _ _ _ _ Q T).
Qed.

(** The kind of a line in terms of the tests of the loop body. *)
Lemma classify_tests (line : jsstring) :
  matches_message line = match classify line with
                         | KMessage _ _ _ _ => true
                         | _ => false
                         end
  /\ str_eqb line DELETED = match classify line with
                            | KDeleted => true
                            | _ => false
                            end.
Proof.
  unfold matches_message, classify. rewrite match_message.
  destruct line as [|c line]; [split; reflexivity|]. cbn [truthy negb].
  destruct (str_eqb (c :: line) DELETED) eqn:D.
  - apply str_eqb_eq in D. rewrite D. split; reflexivity.
  - destruct (header_date (c :: line)) as [d|] eqn:H.
    + now rewrite (header_excludes_message _ _ H).
    + destruct (message_parts (c :: line)) as [[[? ?] ?]|]; split; reflexivity.
Qed.

Lemma filter_length_update {A : Type} (f : A -> bool) (i : nat) (a b : A)
    (l : list A) :
  nth_error l i = Some b -> f a = f b ->
  List.length (filter f (update i a l)) = List.length (filter f l).
Proof.
  revert i; induction l as [|y l IH]; intros [|i] H E; simpl in *;
    try discriminate.
  - injection H as ->. rewrite E. now destruct (f b).
  - destruct (f y); simpl; rewrite (IH i); auto.
Qed.

Lemma filter_length_snoc {A : Type} (f : A -> bool) (l : list A) (x : A) :
  List.length (filter f (l ++ [x]))
  = (List.length (filter f l) + if f x then 1 else 0)%nat.
Proof. rewrite filter_app, length_app. cbn [filter]. now destruct (f x). Qed.

Section Counts.
Context {Id : Type}.
Variable random : nat -> Id.
Variable v : revision.

Lemma counts_step (f : ChatItem Id -> bool) (st : pstate Id) (line : jsstring) :
  f = is_message \/ f = is_system ->
  List.length (filter f (messages (step_model random v st line)))
  = (List.length (filter f (messages st))
     + match classify line with
       | KDeleted => if f (ItemSystem (random 0) DELETED) then 1 else 0
       | KMessage _ _ _ _ => if f (ItemSystem (random 0) DELETED) then 0 else 1
       | _ => 0
       end)%nat.
Proof.
  intros Hf. unfold step_model.
  destruct (classify line) as [| |d|ts od name body|].
  - lia.
  - unfold delete_notice, push. cbn [messages]. rewrite filter_length_snoc.
    destruct Hf as [-> | ->]; reflexivity.
  - unfold on_header. destruct (negb (opt_str_eqb _ _)); [|lia].
    cbn [messages]. rewrite filter_length_snoc.
    destruct Hf as [-> | ->]; reflexivity.
  - unfold on_message. cbn [messages]. rewrite filter_length_snoc.
    destruct (message_date_state_items random v ts od st) as [E|(d & _ & E)];
      rewrite E; [|rewrite filter_length_snoc];
      destruct Hf as [-> | ->]; cbn [is_message is_system]; lia.
  - unfold absorb. destruct (lastMessage st) as [i|]; [|lia].
    destruct (nth_error (messages st) i) as [[m0| |]|] eqn:E; try lia.
    cbn [messages]. rewrite (filter_length_update f i _ _ _ E);
      [lia | destruct Hf as [-> | ->]; reflexivity].
Qed.

Lemma counts_run (lines : list jsstring) :
  forall st : pstate Id,
    List.length (filter is_message (messages (run_model random v st lines)))
    = (List.length (filter is_message (messages st))
       + List.length (filter matches_message lines))%nat
    /\ List.length (filter is_system (messages (run_model random v st lines)))
       = (List.length (filter is_system (messages st))
          + List.length (filter (fun l => str_eqb l DELETED) lines))%nat.
Proof.
  induction lines as [|l ls IH]; intros st; [cbn; lia|].
  cbn [run_model fold_left filter].
  destruct (IH (step_model random v st l)) as [IH1 IH2].
  fold (run_model random v (step_model random v st l) ls).
  rewrite IH1, IH2, !counts_step by auto.
  destruct (classify_tests l) as [-> ->].
  destruct (classify l); cbn [is_message is_system List.length]; lia.
Qed.
End Counts.

(** X5: nothing is lost and nothing is invented: the result has one message
    item for each line after the header block that matches [messageRegex],
    and one system item for each line equal to the deletion marker. *)
Theorem parseChat_counts {Id : Type} (random : nat -> Id) (txt : jsstring) :
  exists out,
    V1.parseChat random txt = Ok out
    /\ List.length (filter is_message (chat_messages out))
       = List.length (filter matches_message (body_lines txt))
    /\ List.length (filter is_system (chat_messages out))
       = List.length (filter (fun l => str_eqb l DELETED) (body_lines txt)).
Proof.
  rewrite V1_parseChat_model. eexists. split; [reflexivity|].
  cbn [chat_messages].
  destruct (counts_run random rev1 (body_lines txt) initial) as [H1 H2].
  now rewrite H1, H2.
Qed.

Lemma same_but_content_refl {Id : Type} (a : ChatItem Id) : same_but_content a a.
Proof. destruct a; cbn; auto. Qed.

Lemma extends_refl {Id : Type} (a : ChatItem Id) : extends a a.
Proof.
  split; [apply same_but_content_refl|]. destruct a; auto.
  exists []. now rewrite app_nil_r.
Qed.

Lemma extends_trans {Id : Type} (a b c : ChatItem Id) :
  extends a b -> extends b c -> extends a c.
Proof.
  unfold extends, same_but_content.
  destruct a as [ma| |], b as [mb| |], c as [mc| |]; intros [H1 K1] [H2 K2];
    try discriminate; try (split; congruence); try contradiction.
  - destruct H1 as (? & ? & ? & ? & ?), H2 as (? & ? & ? & ? & ?).
    destruct K1 as [x Hx], K2 as [y Hy].
    split; [repeat split; congruence|].
    exists (x ++ y). now rewrite Hy, Hx, app_assoc.
Qed.

Section Persistence.
Context {Id : Type}.
Variable random : nat -> Id.
Variable v : revision.

Lemma items_persist_run (st0 : pstate Id) (lines : list jsstring) :
  forall i it, nth_error (messages st0) i = Some it ->
    exists it', nth_error (messages (run_model random v st0 lines)) i = Some it'
                /\ extends it it'.
Proof.
  revert lines st0.
  assert (G : forall lines st,
             (fun st' => forall i it, nth_error (messages st) i = Some it ->
                exists it', nth_error (messages st') i = Some it' /\ extends it it')
               (run_model random v st lines)); [|exact G].
  intros lines st.
  apply (run_model_ind random v
           (fun st' => forall i it, nth_error (messages st) i = Some it ->
              exists it', nth_error (messages st') i = Some it' /\ extends it it')).
  - intros st' H i it E. destruct (H i it E) as (it' & E' & X).
    exists it'. split; [|exact X]. unfold delete_notice, push. cbn [messages].
    rewrite nth_error_app1; [exact E'|]. apply nth_error_Some. congruence.
  - intros st' line d _ H i it E. destruct (H i it E) as (it' & E' & X).
    exists it'. split; [|exact X]. unfold on_header.
    destruct (negb (opt_str_eqb _ _)); [|exact E']. cbn [messages].
    rewrite nth_error_app1; [exact E'|]. apply nth_error_Some. congruence.
  - intros st' ts d t name body _ _ _ _ H i it E.
    destruct (H i it E) as (it' & E' & X).
    exists it'. split; [|exact X]. unfold on_message. cbn [messages].
    assert (L : (i < List.length (messages st'))%nat)
      by (apply nth_error_Some; congruence).
    destruct (message_date_state_items random v ts (Some d) st') as [M|(d' & _ & M)];
      rewrite M.
    + rewrite nth_error_app1; [exact E' | exact L].
    + rewrite nth_error_app1; [|rewrite length_app; lia].
      rewrite nth_error_app1; [exact E' | exact L].
  - intros st' line H i it E. destruct (H i it E) as (it' & E' & X).
    unfold absorb. destruct (lastMessage st') as [j|]; [|eauto].
    destruct (nth_error (messages st') j) as [[m0| |]|] eqn:J; eauto.
    cbn [messages]. rewrite nth_error_update.
    destruct (Nat.eqb_spec j i) as [->|N]; [|eauto].
    rewrite E'. cbn [option_map]. eexists. split; [reflexivity|].
    apply (extends_trans _ _ _ X). rewrite J in E'. injection E' as <-.
    split; [cbn; auto|]. cbn [content]. eauto.
  - intros i it E. exists it. split; [exact E | apply extends_refl].
Qed.
End Persistence.

(** X6: the loop never removes or reorders an item: whatever lines follow,
    an item stays at its index with the same kind, id, speaker, timestamp
    and flag, and a message body can only have lines appended. *)
Theorem items_persist {Id : Type} (random : nat -> Id) (st : pstate Id)
    (lines : list jsstring) :
  exists st',
    run (V1.step random) st lines = Ok st'
    /\ forall i it, nth_error (messages st) i = Some it ->
         exists it', nth_error (messages st') i = Some it' /\ extends it it'.
Proof.
  rewrite V1_run. eexists. split; [reflexivity|]. apply items_persist_run.
Qed.

(** ** The continuation flag as the code sets it *)

Lemma last_or_snoc {A : Type} (prev : option A) (l : list A) (x : A) :
  last_or prev (l ++ [x]) = Some x.
Proof. unfold last_or. now rewrite last_error_snoc. Qed.

Lemma last_or_cons {A : Type} (prev : option A) (x : A) (l : list A) :
  last_or prev (x :: l) = last_or (Some x) l.
Proof.
  unfold last_or. destruct l as [|y l]; [reflexivity|].
  rewrite last_error_cons. destruct (last_error (y :: l)) eqn:E; [reflexivity|].
  unfold last_error in E. cbn [rev] in E.
  destruct (rev l); discriminate.
Qed.

Lemma flags_ok_snoc {Id : Type} (prev : option (ChatItem Id))
    (l : list (ChatItem Id)) (x : ChatItem Id) :
  flags_ok prev l -> flag_law (last_or prev l) x -> flags_ok prev (l ++ [x]).
Proof.
  revert prev. induction l as [|y l IH]; intros prev H L.
  - cbn. auto.
  - destruct H as [H1 H2]. cbn [app flags_ok]. split; [exact H1|].
    apply IH; [exact H2|]. now rewrite last_or_cons in L.
Qed.

Lemma flags_ok_neighbours {Id : Type} (l : list (ChatItem Id)) :
  forall prev, flags_ok prev l ->
    forall pre a x post, l = pre ++ a :: x :: post -> flag_law (Some a) x.
Proof.
  intros prev H pre. revert l prev H.
  induction pre as [|b pre IH]; intros l prev H a x post E; subst l.
  - exact (proj1 (proj2 H)).
  - exact (IH _ _ (proj2 H) a x post eq_refl).
Qed.

Lemma flag_law_absorbed {Id : Type} (prev : option (ChatItem Id))
    (m : Message Id) (line : jsstring) :
  flag_law prev (ItemMessage m) -> flag_law prev (ItemMessage (absorbed m line)).
Proof. destruct prev as [[m0| |]|]; auto. Qed.

Lemma flags_ok_update {Id : Type} (l : list (ChatItem Id)) (j : nat)
    (m : Message Id) (line : jsstring) :
  forall prev, nth_error l j = Some (ItemMessage m) -> flags_ok prev l ->
    flags_ok prev (update j (ItemMessage (absorbed m line)) l).
Proof.
  revert j. induction l as [|y l IH]; intros [|j] prev E H; simpl in *;
    try discriminate.
  - injection E as ->. destruct H as [H1 H2]. split.
    + now apply flag_law_absorbed.
    + destruct l as [|z l]; [exact I|]. destruct H2 as [H2 H3]. split; [|exact H3].
      destruct z; auto.
  - destruct H as [H1 H2]. split; [exact H1|]. now apply IH.
Qed.

Lemma tracker_of_last {Id : Type} (l : list (ChatItem Id)) :
  tracker_of l = match last_or None l with
                 | Some (ItemMessage _) => Some (Nat.pred (List.length l))
                 | _ => None
                 end.
Proof.
  unfold tracker_of, last_or, last_error. destruct (rev l) as [|[m| |] r]; reflexivity.
Qed.

Lemma last_or_nth {Id : Type} (l : list (ChatItem Id)) (y : ChatItem Id) :
  last_or None l = Some y -> nth_error l (Nat.pred (List.length l)) = Some y.
Proof.
  induction l as [|x l _] using rev_ind; [discriminate|].
  rewrite last_or_snoc, length_app. cbn [List.length].
  replace (Nat.pred (List.length l + 1)) with (List.length l) by lia.
  intros H. injection H as <-. apply nth_error_snoc.
Qed.

Section Flags.
Context {Id : Type}.
Variable random : nat -> Id.
Variable v : revision.

(** The flag computed from a state in which the tracker is in step with
    the items follows the law for the last item. *)
Lemma continues_law (st : pstate Id) (m : Message Id) :
  lastMessage st = tracker_of (messages st) ->
  isContinuation m = continues st (user m) (timestamp m) ->
  flag_law (last_or None (messages st)) (ItemMessage m).
Proof.
  intros T C. unfold continues, lastMessage_object in C.
  rewrite T, tracker_of_last in C. cbn [flag_law].
  destruct (last_or None (messages st)) as [[m0|i p|i c]|] eqn:L; auto.
  rewrite (last_or_nth _ _ L) in C. exact C.
Qed.

Lemma flags_invariant_run (lines : list jsstring) (st : pstate Id) :
  flags_invariant st -> flags_invariant (run_model random v st lines).
Proof.
  revert lines st. apply run_model_ind; unfold flags_invariant.
  - intros st [T F]. unfold delete_notice, push. cbn [messages lastMessage].
    rewrite tracker_of_snoc. split; [reflexivity|].
    apply flags_ok_snoc; [exact F | exact I].
  - intros st line d _ [T F]. unfold on_header.
    destruct (negb (opt_str_eqb _ _)); [|auto]. cbn [messages lastMessage].
    rewrite tracker_of_snoc. split; [reflexivity|].
    apply flags_ok_snoc; [exact F | exact I].
  - intros st ts d t name body _ _ _ _ [T F]. unfold on_message.
    cbn [messages lastMessage]. rewrite tracker_of_snoc. split; [reflexivity|].
    unfold message_date_state.
    destruct (truthy d && negb (opt_str_eqb (formatDateWithDay d) (lastDate st))).
    + cbn [messages]. apply flags_ok_snoc.
      * apply flags_ok_snoc; [exact F | exact I].
      * rewrite last_or_snoc. exact I.
    + apply flags_ok_snoc; [exact F|]. apply continues_law; [exact T | reflexivity].
  - intros st line [T F]. unfold absorb.
    destruct (lastMessage st) as [i|] eqn:L; [|rewrite L; auto].
    destruct (nth_error (messages st) i) as [[m0| |]|] eqn:E;
      try (rewrite L; auto).
    cbn [messages lastMessage]. symmetry in T.
    destruct (tracker_of_inv _ _ T) as (l' & m1 & X & ->).
    rewrite X in *. rewrite nth_error_snoc in E. injection E as <-.
    split.
    + now rewrite update_last, tracker_of_snoc.
    + fold (absorbed m1 line). apply flags_ok_update; [apply nth_error_snoc | exact F].
Qed.
End Flags.

Lemma continuation_flag_law_aux {Id : Type} (random : nat -> Id) (txt : jsstring) :
  exists out,
    V1.parseChat random txt = Ok out
    /\ forall pre a m post,
         chat_messages out = pre ++ a :: ItemMessage m :: post ->
         flag_law (Some a) (ItemMessage m).
Proof.
  rewrite V1_parseChat_model. eexists. split; [reflexivity|].
  cbn [chat_messages].
  destruct (flags_invariant_run random rev1 (body_lines txt) initial) as [_ F];
    [split; [reflexivity | exact I]|].
  intros pre a m post E.
  exact (flags_ok_neighbours _ _ F pre a (ItemMessage m) post E).
Qed.

(** X7: the continuation flag as the code sets it.  A message that directly
    follows a message is a continuation exactly when speaker and display
    timestamp are the same; a message that directly follows a system item,
    or that is the first item, never is.  (After a date item the flag is
    not determined by the list.) *)
Theorem continuation_flag_law {Id : Type} (random : nat -> Id) (txt : jsstring) :
  exists out,
    V1.parseChat random txt = Ok out
    /\ flags_ok None (chat_messages out)
    /\ forall pre a m post,
         chat_messages out = pre ++ a :: ItemMessage m :: post ->
         match a with
         | ItemMessage m0 => isContinuation m = same_group m0 m
         | ItemSystem _ _ => isContinuation m = false
         | ItemDate _ _ => True
         end.
Proof.
  rewrite V1_parseChat_model. eexists. split; [reflexivity|].
  cbn [chat_messages].
  destruct (flags_invariant_run random rev1 (body_lines txt) initial) as [_ F];
    [split; [reflexivity | exact I]|].
  split; [exact F|]. intros pre a m post E.
  pose proof (flags_ok_neighbours _ _ F pre a (ItemMessage m) post E) as L.
  destruct a; exact L.
Qed.

(** X8: on the items [parseChat] returns, the grouping of the render loop
    and the flag of the parser agree for two adjacent messages: the first
    is the last of its group exactly when the second is no continuation. *)
Theorem isLastInGroup_matches_flag {Id : Type} (random : nat -> Id)
    (txt : jsstring) :
  exists out,
    V1.parseChat random txt = Ok out
    /\ forall index item next,
         nth_error (chat_messages out) index = Some (ItemMessage item) ->
         nth_error (chat_messages out) (index + 1) = Some (ItemMessage next) ->
         isLastInGroup (chat_messages out) index item = negb (isContinuation next).
Proof.
  destruct (continuation_flag_law_aux random txt) as (out & E & F).
  exists out. split; [exact E|]. intros index item next H1 H2.
  unfold isLastInGroup. rewrite H2. f_equal.
  destruct (nth_error_split _ _ H1) as (pre & post & X & L).
  rewrite X in H2. rewrite nth_error_app2 in H2 by lia.
  replace (index + 1 - List.length pre)%nat with 1%nat in H2 by lia.
  destruct post as [|y post]; [discriminate|]. cbn in H2. injection H2 as ->.
  rewrite (F pre (ItemMessage item) next post X). unfold same_group.
  now rewrite (str_eqb_sym (user next)), (str_eqb_sym (timestamp next)).
Qed.

(** * The callers in [App.tsx] *)

Section Edit.
Context {Id : Type}.
Variable id_eqb : Id -> Id -> bool.
Hypothesis id_eqb_spec : forall a b, id_eqb a b = true <-> a = b.

Lemma handleUpdateMessage_other (id : Id) (c : jsstring) (l : list (ChatItem Id)) :
  ~ In id (List.map item_id l) -> handleUpdateMessage id_eqb id c l = l.
Proof.
  induction l as [|x l IH]; intros N; [reflexivity|].
  cbn [handleUpdateMessage List.map] in *.
  fold (handleUpdateMessage id_eqb id c l). rewrite IH by (intros H; apply N; now right).
  destruct x as [m| |]; try reflexivity.
  destruct (id_eqb (msg_id m) id) eqn:E; [|reflexivity].
  apply id_eqb_spec in E. exfalso. apply N. left. exact E.
Qed.

(** Editing by the id of a message changes that message only, when the
    ids are pairwise distinct. *)
Lemma handleUpdateMessage_exact (c : jsstring) (l : list (ChatItem Id)) :
  NoDup (List.map item_id l) ->
  forall i m, nth_error l i = Some (ItemMessage m) ->
    handleUpdateMessage id_eqb (msg_id m) c l
    = update i (ItemMessage (mkMessage (msg_id m) (user m) c (timestamp m)
                                       (fullTimestamp m) (isContinuation m))) l.
Proof.
  induction l as [|x l IH]; intros N [|i] m E; cbn in E; try discriminate.
  - injection E as ->. cbn [handleUpdateMessage List.map update].
    fold (handleUpdateMessage id_eqb (msg_id m) c l).
    rewrite (proj2 (id_eqb_spec _ _) eq_refl).
    rewrite handleUpdateMessage_other; [reflexivity|].
    cbn [List.map item_id] in N. now inversion N.
  - cbn [handleUpdateMessage List.map update].
    fold (handleUpdateMessage id_eqb (msg_id m) c l).
    cbn [List.map] in N. inversion N as [|? ? N1 N2]; subst.
    rewrite (IH N2 i m E).
    assert (X : item_id x <> msg_id m).
    { intros C. apply N1. rewrite C.
      change (msg_id m) with (item_id (ItemMessage m)).
      apply in_map. eapply nth_error_In, E. }
    destruct x as [m'| |]; try reflexivity.
    destruct (id_eqb (msg_id m') (msg_id m)) eqn:D; [|reflexivity].
    apply id_eqb_spec in D. contradiction.
Qed.

Lemma flag_law_same_prev (p p' : option (ChatItem Id)) (x : ChatItem Id) :
  same_prev p p' -> flag_law p x -> flag_law p' x.
Proof.
  destruct x as [m| |]; auto.
  destruct p as [[m0| |]|], p' as [[m0'| |]|]; cbn; try contradiction;
    try discriminate; auto.
  intros (_ & U & T & _) H. unfold same_group in *. now rewrite <- U, <- T.
Qed.

(** An edit keeps the flags in line with [flag_law]. *)
Lemma handleUpdateMessage_flags (id : Id) (c : jsstring) (l : list (ChatItem Id)) :
  forall p p', same_prev p p' -> flags_ok p l ->
               flags_ok p' (handleUpdateMessage id_eqb id c l).
Proof.
  induction l as [|x l IH]; intros p p' S H; [exact I|].
  destruct H as [H1 H2]. cbn [handleUpdateMessage List.map flags_ok].
  fold (handleUpdateMessage id_eqb id c l).
  pose proof (flag_law_same_prev p p' x S H1) as H1'.
  destruct x as [m| |].
  - destruct (id_eqb (msg_id m) id).
    + split.
      * destruct p' as [[m0| |]|]; exact H1'.
      * apply (IH (Some (ItemMessage m))); [cbn; auto | exact H2].
    + split; [exact H1'|]. apply (IH (Some (ItemMessage m))); [cbn; auto | exact H2].
  - split; [exact H1'|]. apply (IH (Some (ItemDate id0 date))); [reflexivity | exact H2].
  - split; [exact H1'|]. apply (IH (Some (ItemSystem id0 text))); [reflexivity | exact H2].
Qed.

Lemma handleUpdateMessage_speakers (id : Id) (c : jsstring) (l : list (ChatItem Id)) :
  speakers_of (handleUpdateMessage id_eqb id c l) = speakers_of l.
Proof.
  induction l as [|x l IH]; [reflexivity|].
  cbn [handleUpdateMessage List.map speakers_of flat_map].
  fold (handleUpdateMessage id_eqb id c l). fold (speakers_of l).
  fold (speakers_of (handleUpdateMessage id_eqb id c l)). rewrite IH.
  destruct x as [m| |]; try reflexivity.
  destruct (id_eqb (msg_id m) id); reflexivity.
Qed.
End Edit.

(** X9: on the items [parseChat] returns, with ids that are pairwise
    distinct, editing by the id of the message at index [i] replaces the
    body of that message and leaves every other item as it is. *)
Theorem edit_changes_one_message {Id : Type} (random : nat -> Id)
    (id_eqb : Id -> Id -> bool) (txt : jsstring) :
  (forall a b, id_eqb a b = true <-> a = b) ->
  (forall i j, random i = random j -> i = j) ->
  exists out,
    V1.parseChat random txt = Ok out
    /\ forall i m c,
         nth_error (chat_messages out) i = Some (ItemMessage m) ->
         handleUpdateMessage id_eqb (msg_id m) c (chat_messages out)
         = update i (ItemMessage (mkMessage (msg_id m) (user m) c (timestamp m)
                                            (fullTimestamp m) (isContinuation m)))
                  (chat_messages out).
Proof.
  intros HE HI. rewrite V1_parseChat_model. eexists. split; [reflexivity|].
  cbn [chat_messages]. intros i m c E.
  apply (handleUpdateMessage_exact id_eqb HE); [|exact E].
  destruct (ids_ok_run random rev1 (body_lines txt) initial) as [_ M];
    [split; reflexivity|].
  rewrite M. apply NoDup_map_injective; [exact HI | apply seq_NoDup].
Qed.

Lemma edit_changes_one_message_witness :
  exists out,
    V1.parseChat (fun n : nat => n)
      (join_nl (List.map utf16
         ["T"; "x"; ""; "2024년 1월 1일 오전 9:00, A : one"]%string)) = Ok out
    /\ forall i m c,
         nth_error (chat_messages out) i = Some (ItemMessage m) ->
         handleUpdateMessage Nat.eqb (msg_id m) c (chat_messages out)
         = update i (ItemMessage (mkMessage (msg_id m) (user m) c (timestamp m)
                                            (fullTimestamp m) (isContinuation m)))
                  (chat_messages out).
Proof.
  apply (edit_changes_one_message (fun n : nat => n) Nat.eqb).
  - intros a b. apply Nat.eqb_eq.
  - intros i j H. exact H.
Defined.

(** X10: an edit never touches what the rest of the display depends on: on
    the items [parseChat] returns, after any edit the continuation flags
    still follow the law of the parser and the speakers are the same. *)
Theorem edit_keeps_flags_and_speakers {Id : Type} (random : nat -> Id)
    (id_eqb : Id -> Id -> bool) (txt : jsstring) (id : Id) (c : jsstring) :
  exists out,
    V1.parseChat random txt = Ok out
    /\ flags_ok None (handleUpdateMessage id_eqb id c (chat_messages out))
    /\ speakers_of (handleUpdateMessage id_eqb id c (chat_messages out))
       = speakers_of (chat_messages out)
    /\ List.length (handleUpdateMessage id_eqb id c (chat_messages out))
       = List.length (chat_messages out).
Proof.
  rewrite V1_parseChat_model. eexists. split; [reflexivity|].
  cbn [chat_messages].
  destruct (flags_invariant_run random rev1 (body_lines txt) initial) as [_ F];
    [split; [reflexivity | exact I]|].
  split; [|split].
  - apply (handleUpdateMessage_flags id_eqb id c _ None None I F).
  - apply handleUpdateMessage_speakers.
  - apply length_map.
Qed.

Lemma obj_get_set_same (k : jsstring) (u : User) (o : list (jsstring * User)) :
  obj_get k (obj_set k u o) = Some u.
Proof.
  induction o as [|[k' u'] o IH]; cbn [obj_set obj_get].
  - now rewrite str_eqb_refl.
  - destruct (str_eqb k k') eqn:E; cbn [obj_get]; rewrite E; auto.
Qed.

Lemma obj_get_set_other (k k0 : jsstring) (u : User) (o : list (jsstring * User)) :
  k <> k0 -> obj_get k (obj_set k0 u o) = obj_get k o.
Proof.
  intros N. apply str_eqb_neq in N.
  induction o as [|[k' u'] o IH]; cbn [obj_set obj_get].
  - now rewrite N.
  - destruct (str_eqb k0 k') eqn:E; cbn [obj_get].
    + apply str_eqb_eq in E. subst k'. now rewrite N.
    + now rewrite IH.
Qed.

Lemma build_profiles_keeps (sel k : jsstring) (us : list jsstring) :
  forall index o, ~ In k us ->
    obj_get k (build_profiles sel index us o) = obj_get k o.
Proof.
  induction us as [|n us IH]; intros index o N; [reflexivity|].
  cbn [build_profiles]. rewrite IH by (intros H; apply N; now right).
  apply obj_get_set_other. intros ->. apply N. now left.
Qed.

(** In a list without duplicates the user at position [k] gets the profile
    made for index [k]. *)
Lemma build_profiles_nth (sel : jsstring) (us : list jsstring) :
  NoDup us ->
  forall index o k n, nth_error us k = Some n ->
    obj_get n (build_profiles sel index us o) = Some (profile_of sel n (index + k)).
Proof.
  induction 1 as [|x us N H IH]; intros index o [|k] n E; cbn in E; try discriminate.
  - injection E as ->. cbn [build_profiles].
    rewrite build_profiles_keeps by exact N.
    rewrite obj_get_set_same, Nat.add_0_r. reflexivity.
  - cbn [build_profiles]. rewrite (IH (S index) _ k n E).
    now rewrite Nat.add_succ_comm.
Qed.

Lemma AVATAR_COLORS_mod (k : nat) :
  nth_error AVATAR_COLORS (k mod List.length AVATAR_COLORS) <> None.
Proof.
  apply nth_error_Some. apply Nat.mod_upper_bound. discriminate.
Qed.

(** X11: the profiles [handleSelectUser] builds from the speakers that
    [parseChat] returns cover every message: the speaker of each message
    item has a profile, so the render loop skips none; that profile carries
    the speaker's name, is marked [isMe] exactly when the name is the
    selected one, and the speaker at position [k] has the colour at
    [k mod 6], which is never [undefined]. *)
Theorem profiles_cover_messages {Id : Type} (random : nat -> Id) (txt : jsstring)
    (selectedName : jsstring) :
  exists out,
    V1.parseChat random txt = Ok out
    /\ (forall m, In (ItemMessage m) (chat_messages out) ->
          exists u, obj_get (user m) (userProfiles_of selectedName (chat_users out))
                    = Some u
                    /\ name u = user m
                    /\ isMe u = str_eqb (user m) selectedName
                    /\ avatarColor u <> None)
    /\ (forall k n, nth_error (chat_users out) k = Some n ->
          obj_get n (userProfiles_of selectedName (chat_users out))
          = Some (profile_of selectedName n k)).
Proof.
  rewrite V1_parseChat_model. eexists. split; [reflexivity|].
  cbn [chat_messages chat_users].
  set (st := run_model random rev1 initial (body_lines txt)).
  assert (U : users_ok st) by (apply users_ok_run; reflexivity).
  assert (ND : NoDup (users st)) by (rewrite U; apply nub_NoDup).
  assert (P : forall k n, nth_error (users st) k = Some n ->
                obj_get n (userProfiles_of selectedName (users st))
                = Some (profile_of selectedName n k)).
  { intros k n E. unfold userProfiles_of.
    now rewrite (build_profiles_nth selectedName _ ND 0 [] k n E). }
  split; [|exact P].
  intros m Hm.
  assert (Hu : In (user m) (users st)).
  { rewrite U. apply nub_In. unfold speakers_of. apply in_flat_map.
    exists (ItemMessage m). split; [exact Hm | now left]. }
  destruct (In_nth_error _ _ Hu) as [k E].
  exists (profile_of selectedName (user m) k). split; [now apply P|].
  cbn [profile_of name isMe avatarColor]. repeat split. apply AVATAR_COLORS_mod.
Qed.

(** * The helpers of [chatParser.ts] *)

Lemma search_inv (r : regex) (s : jsstring) :
  forall p m, search r p s = Some m ->
    exists pre suf y l,
      s = pre ++ suf
      /\ matches r (MState (p + List.length pre) suf []) = y :: l
      /\ m = MatchResult (firstn (pos y - (p + List.length pre)) suf) (caps y).
Proof.
  induction s as [|c s IH]; intros p m H; cbn [search] in H.
  - destruct (matches r (MState p [] [])) as [|y l] eqn:M; [discriminate|].
    injection H as <-. exists [], [], y, l. cbn [List.length app].
    rewrite Nat.add_0_r. auto.
  - destruct (matches r (MState p (c :: s) [])) as [|y l] eqn:M.
    + destruct (IH _ _ H) as (pre & suf & y & l & -> & M' & ->).
      exists (c :: pre), suf, y, l. cbn [List.length app].
      rewrite <- Nat.add_succ_comm. auto.
    + injection H as <-. exists [], (c :: s), y, l. cbn [List.length app].
      rewrite Nat.add_0_r. auto.
Qed.

Lemma qgrp_inv (i : nat) (q : reader) (s c : jsstring)
    (u : list (nat * jsstring)) (r : jsstring) :
  qgrp i q s = Some (c, u, r) ->
  exists u', q s = Some (c, u', r) /\ u = (i, c) :: u'.
Proof.
  unfold qgrp. destruct (q s) as [[[c' u'] r']|]; [|discriminate].
  intros H. injection H as <- <- <-. eauto.
Qed.

(** What the pattern of [formatDateWithDay] captures. *)
Lemma qYMD_inv (s c : jsstring) (u : list (nat * jsstring)) (r : jsstring) :
  qYMD s = Some (c, u, r) ->
  exists a b d e m dd,
    u = [(3%nat, dd); (2%nat, m); (1%nat, [a; b; d; e])]
    /\ c = [a; b; d; e] ++ NYEON :: SP :: m ++ WOL :: SP :: dd ++ [IL]
    /\ is_digit a = true /\ is_digit b = true /\ is_digit d = true
    /\ is_digit e = true /\ is_d12 m /\ is_d12 dd.
Proof.
  unfold qYMD. intros H. reader_inv. subst.
  repeat match goal with
         | H : qgrp _ _ _ = Some _ |- _ =>
             apply qgrp_inv in H; let u' := fresh "u" in
             let E := fresh "E" in destruct H as (u' & H & E)
         end.
  subst.
  match goal with
  | H0 : qcount is_digit 4 _ = Some _,
    H1 : qd12 _ = Some (?m, _, _), H2 : qd12 _ = Some (?dd, _, _) |- _ =>
      destruct (qcount_digit4_inv _ _ _ _ H0) as (a & b & d & e & -> & Ha & Hb & Hd & He);
      pose proof (nocaps_count _ _ _ _ _ _ H0);
      pose proof (qd12_is_d12 _ _ _ _ H1); pose proof (qd12_is_d12 _ _ _ _ H2);
      pose proof (nocaps_d12 _ _ _ _ H1); pose proof (nocaps_d12 _ _ _ _ H2); subst;
      first [ exists a, b, d, e, m, dd; cbn [app]; repeat split; assumption
            | exists a, b, d, e, dd, m; cbn [app]; repeat split; assumption ]
  end.
Qed.

(** X12: [formatDateWithDay] returns its argument when no date occurs in
    it; otherwise it appends a space, one of the seven day names and
    "요일".  The fallback for an invalid date is never taken: every date the
    pattern can read is a valid [Date]. *)
Theorem formatDateWithDay_cases (dateStr : jsstring) :
  (jsmatch dateStr ymdRegex = None /\ formatDateWithDay dateStr = dateStr)
  \/ (jsmatch dateStr ymdRegex <> None
      /\ exists dayOfWeek,
           In dayOfWeek KOREAN_DAYS
           /\ formatDateWithDay dateStr = dateStr ++ SP :: dayOfWeek ++ YOIL).
Proof.
  unfold formatDateWithDay.
  destruct (jsmatch dateStr ymdRegex) as [m|] eqn:J; [right | left; auto].
  split; [discriminate|].
  destruct (search_inv _ _ _ _ J) as (pre & suf & y & l & _ & M & ->).
  rewrite det_YMD in M. unfold run_reader in M. cbn [rest pos caps] in M.
  destruct (qYMD suf) as [[[c u] r]|] eqn:Q; [|discriminate].
  injection M as <- <-. cbn [caps]. rewrite app_nil_r.
  destruct (qYMD_inv _ _ _ _ Q)
    as (a & b & d & e & mo & dd & -> & _ & Ha & Hb & Hd & He & Hm & Hdd).
  cbn [mget assoc Nat.eqb groups parseInt_capture].
  destruct (parseInt_d4 a b d e Ha Hb Hd He) as (vy & -> & Hvy).
  destruct (parseInt_d12 mo Hm) as (vm & -> & Hvm).
  destruct (parseInt_d12 dd Hdd) as (vd & -> & Hvd).
  cbn [option_map].
  destruct (newDate_valid vy vm vd Hvy Hvm Hvd) as [t ->].
  destruct (KOREAN_DAYS_nth (Z.to_nat (getDay t))) as [w E].
  { pose proof (getDay_range t). lia. }
  rewrite E. exists [w]. split; [|reflexivity].
  eapply nth_error_In, E.
Qed.

(** ** The stored timestamps of a message *)

Lemma qDISPLAY_head (s : jsstring) :
  match s with c :: _ => c =? O_ | [] => false end = false -> qDISPLAY s = None.
Proof.
  intros H. unfold qDISPLAY, qseq, qgrp, qampm.
  destruct s as [|o [|j r]]; try reflexivity. now rewrite H.
Qed.

(** The search passes over a prefix in which the pattern cannot start. *)
Lemma search_skip (pre s : jsstring) :
  Forall (fun c => c <> O_) pre ->
  forall p, search displayTimeRegex p (pre ++ s)
            = search displayTimeRegex (p + List.length pre) s.
Proof.
  induction 1 as [|c pre Hc _ IH]; intros p.
  - cbn [app List.length]. now rewrite Nat.add_0_r.
  - cbn [app search List.length]. rewrite det_DISPLAY. unfold run_reader.
    cbn [rest]. rewrite qDISPLAY_head by (now apply Z.eqb_neq).
    rewrite IH. f_equal. lia.
Qed.

Lemma digit_not_O (a : char) : is_digit a = true -> a <> O_.
Proof. intros H. apply is_digit_range in H. unfold O_. lia. Qed.

Lemma d12_not_O (m : jsstring) : is_d12 m -> Forall (fun c => c <> O_) m.
Proof.
  intros [(a & -> & Ha)|(a & b & -> & Ha & Hb)];
    repeat constructor; now apply digit_not_O.
Qed.

(** No position of a date text starts a display time. *)
Lemma qDATE_not_O (s d : jsstring) (u : list (nat * jsstring)) (r : jsstring) :
  qDATE s = Some (d, u, r) -> Forall (fun c => c <> O_) d.
Proof.
  unfold qDATE. intros H. reader_inv. subst.
  destruct (qcount_digit4_inv _ _ _ _ H) as (a & b & c' & e & -> & Ha & Hb & Hc & He).
  repeat match goal with
         | H1 : qd12 _ = Some _ |- _ => apply qd12_is_d12, d12_not_O in H1
         end.
  repeat (apply Forall_app; split); try assumption;
    repeat constructor; try (now apply digit_not_O); discriminate.
Qed.

(** The time part of a timestamp is a space followed by a display time,
    whose two groups are the half of the day and the time of day. *)
Lemma qTIME_parts (s t : jsstring) (u : list (nat * jsstring)) (r : jsstring) :
  qTIME s = Some (t, u, r) ->
  exists a hm,
    t = SP :: a ++ SP :: hm
    /\ qDISPLAY (a ++ SP :: hm)
       = Some (a ++ SP :: hm, [(2%nat, hm); (1%nat, a)], [])
    /\ qTOD (a ++ SP :: hm) = Some (a ++ SP :: hm, [(1%nat, a)], []).
Proof.
  intros H0. destruct (local_TIME _ _ _ _ H0) as [_ L].
  specialize (L []). rewrite app_nil_r in L. clear H0.
  unfold qTIME in L. reader_inv. subst.
  match goal with
  | E : SP :: _ = _ |- _ => cbn [app] in E; injection E as E; subst
  end.
  match goal with
  | H1 : qampm _ = Some (?a, _, _), H2 : qd12 _ = Some (?h, _, COLON :: ?r4),
    H3 : qcount is_digit 2 _ = Some (?mm, _, _) |- _ =>
      pose proof (nocaps_ampm _ _ _ _ H1); pose proof (nocaps_d12 _ _ _ _ H2);
      pose proof (nocaps_count _ _ _ _ _ _ H3); subst;
      exists a, (h ++ COLON :: mm); split; [reflexivity|];
      pose proof (qseq_intro _ _ _ _ _ _ _ _ _ (qchr_intro COLON r4) H3) as A1;
      pose proof (qseq_intro _ _ _ _ _ _ _ _ _ H2 A1) as A2;
      apply (qgrp_intro 2) in A2;
      pose proof (qseq_intro (qcls is_space) _ (SP :: _) [SP] _ _ _ [] _
                    eq_refl A2) as A3;
      pose proof (qseq_intro _ _ _ _ _ _ _ _ _ (qgrp_intro 1 _ _ _ _ _ H1) A3) as A4;
      pose proof (qseq_intro _ _ _ _ _ _ _ _ _ (qchr_intro SP _)
                    (qseq_intro _ _ _ _ _ _ _ _ _ H2 A1)) as B1;
      pose proof (qseq_intro _ _ _ _ _ _ _ _ _ (qgrp_intro 1 _ _ _ _ _ H1) B1) as B2;
      split; [exact A4 | exact B2]
  end.
Qed.

(** A timestamp is its date text, a space and its display time. *)
Lemma display_time_exact (ts d : jsstring) :
  header_date ts = Some d -> ts = d ++ SP :: parseTimestampToDisplayTime ts.
Proof.
  unfold header_date. intros H.
  destruct (qDATE ts) as [[[d' u] r]|] eqn:Q; [|discriminate].
  destruct (qTIME r) as [[[t u'] [|? ?]]|] eqn:T; try discriminate.
  injection H as ->.
  destruct (qDATE_shape _ _ _ _ Q) as [_ ->].
  destruct (qTIME_shape _ _ _ _ T) as [_ ->]. rewrite app_nil_r.
  destruct (qTIME_parts _ _ _ _ T) as (a & hm & -> & D & _).
  f_equal. f_equal.
  unfold parseTimestampToDisplayTime, jsmatch.
  change (d ++ SP :: a ++ SP :: hm) with (d ++ [SP] ++ (a ++ SP :: hm)).
  rewrite app_assoc, search_skip.
  2:{ apply Forall_app. split; [exact (qDATE_not_O _ _ _ _ Q)|].
      repeat constructor. discriminate. }
  assert (M : matches displayTimeRegex
                (MState (0 + List.length (d ++ [SP])) (a ++ SP :: hm) [])
              = [MState (0 + List.length (d ++ [SP]) + List.length (a ++ SP :: hm))
                        [] ([(2%nat, hm); (1%nat, a)] ++ [])]).
  { rewrite det_DISPLAY. unfold run_reader. cbn [rest pos caps]. now rewrite D. }
  rewrite (search_first _ _ _ _ _ M). cbn [pos caps].
  replace (0 + List.length (d ++ [SP]) + List.length (a ++ SP :: hm)
           - (0 + List.length (d ++ [SP])))%nat
    with (List.length (a ++ SP :: hm)) by lia.
  reflexivity.
Qed.

Lemma current_date_snoc {Id : Type} (l : list (ChatItem Id)) (x : ChatItem Id) :
  forall cur,
    current_date cur (l ++ [x])
    = match x with
      | ItemDate _ p => Some (date_text p)
      | _ => current_date cur l
      end.
Proof.
  induction l as [|y l IH]; intros cur; cbn [app current_date].
  - now destruct x.
  - destruct y; apply IH.
Qed.

Lemma under_own_date_snoc {Id : Type} (l : list (ChatItem Id)) (x : ChatItem Id) :
  forall cur,
    under_own_date cur l ->
    match x with
    | ItemMessage m =>
        exists ft, fullTimestamp m = Some ft
                   /\ current_date cur l = Some (date_text ft)
    | _ => True
    end ->
    under_own_date cur (l ++ [x]).
Proof.
  induction l as [|y l IH]; intros cur H X; cbn [app under_own_date current_date] in *.
  - destruct x; auto.
  - destruct y; [destruct H as [H1 H2]; split; auto | auto | auto].
Qed.

Lemma current_date_update {Id : Type} (l : list (ChatItem Id)) (m : Message Id)
    (line : jsstring) :
  forall i cur,
    nth_error l i = Some (ItemMessage m) ->
    current_date cur (update i (ItemMessage (absorbed m line)) l) = current_date cur l.
Proof.
  induction l as [|y l IH]; intros [|i] cur H; cbn in H; try discriminate.
  - injection H as ->. reflexivity.
  - cbn [update current_date]. destruct y; now apply IH.
Qed.

Lemma under_own_date_update {Id : Type} (l : list (ChatItem Id)) (m : Message Id)
    (line : jsstring) :
  forall i cur,
    nth_error l i = Some (ItemMessage m) ->
    under_own_date cur l ->
    under_own_date cur (update i (ItemMessage (absorbed m line)) l).
Proof.
  induction l as [|y l IH]; intros [|i] cur H U; cbn in H; try discriminate.
  - injection H as ->. exact U.
  - cbn [update under_own_date] in *.
    destruct y; [destruct U as [U1 U2]; split; auto | auto | auto].
Qed.

Section Dated.
Context {Id : Type}.
Variable random : nat -> Id.

Lemma dated_push (st : pstate Id) (p d : jsstring) (lm : option nat) :
  dated st -> date_text p = d -> (exists s u r, qDATE s = Some (d, u, r)) ->
  dated (mkState (messages st ++ [ItemDate (random (draws st)) p]) (users st)
                 lm (Some (formatDateWithDay d)) (S (draws st))).
Proof.
  intros (U & L & R) E Q. unfold dated. cbn [messages lastDate].
  rewrite current_date_snoc, E. repeat split.
  - now apply under_own_date_snoc.
  - intros d' H. injection H as <-. exact Q.
Qed.

Lemma dated_run (lines : list jsstring) (st : pstate Id) :
  dated st -> dated (run_model random rev1 st lines).
Proof.
  revert lines st. apply run_model_ind.
  - intros st (U & L & R). unfold dated, delete_notice, push.
    cbn [messages lastDate]. rewrite current_date_snoc. repeat split; auto.
    now apply under_own_date_snoc.
  - intros st line d HD H. unfold on_header.
    destruct (negb (opt_str_eqb _ _)); [|exact H].
    cbn [header_payload rev1]. apply dated_push; [exact H | |].
    + now apply date_text_header.
    + destruct (header_date_inv _ _ HD) as (t & _ & Q & _). eauto.
  - intros st ts d t name body Q _ _ T H. unfold on_message.
    assert (H1 : dated (message_date_state random rev1 ts (Some d) st)
                 /\ current_date None
                      (messages (message_date_state random rev1 ts (Some d) st))
                    = Some d).
    { unfold message_date_state. rewrite T. cbn [andb].
      destruct (opt_str_eqb (formatDateWithDay d) (lastDate st)) eqn:N; cbn [negb].
      - split; [exact H|]. destruct H as (_ & L & R). rewrite L in N.
        destruct (current_date None (messages st)) as [d'|]; [|discriminate].
        cbn in N. apply str_eqb_eq in N.
        destruct (R d' eq_refl) as (s & u & r & Q').
        f_equal. symmetry. exact (formatDateWithDay_inj _ _ _ _ _ _ _ _ Q Q' N).
      - cbn [message_payload rev1]. split.
        + apply dated_push; [exact H | exact (date_text_qDATE _ _ _ _ Q) | eauto].
        + cbn [messages]. rewrite current_date_snoc.
          now rewrite (date_text_qDATE _ _ _ _ Q). }
    destruct H1 as [(U & L & R) C]. unfold dated. cbn [messages lastDate].
    rewrite current_date_snoc. repeat split; auto.
    apply under_own_date_snoc; [exact U|].
    exists ts. cbn [fullTimestamp stored_timestamp rev1].
    now rewrite (date_text_qDATE _ _ _ _ Q).
  - intros st line (U & L & R). unfold dated, absorb.
    destruct (lastMessage st) as [i|]; [|auto].
    destruct (nth_error (messages st) i) as [[m0| |]|] eqn:E; auto.
    cbn [messages lastDate]. fold (absorbed m0 line).
    rewrite (current_date_update _ _ line _ None E). repeat split; auto.
    now apply under_own_date_update.
Qed.

(** In the first revision the full timestamp of a message is its date
    text, a space and its display timestamp. *)
Lemma full_timestamps_run (lines : list jsstring) (st : pstate Id) :
  (forall m, In (ItemMessage m) (messages st) ->
             exists ft, fullTimestamp m = Some ft
                        /\ ft = date_text ft ++ SP :: timestamp m) ->
  forall m, In (ItemMessage m) (messages (run_model random rev1 st lines)) ->
            exists ft, fullTimestamp m = Some ft
                       /\ ft = date_text ft ++ SP :: timestamp m.
Proof.
  revert lines st.
  apply (run_model_ind random rev1
           (fun st => forall m, In (ItemMessage m) (messages st) ->
                        exists ft, fullTimestamp m = Some ft
                                   /\ ft = date_text ft ++ SP :: timestamp m)).
  - intros st H m Hm. unfold delete_notice, push in Hm. cbn [messages] in Hm.
    apply In_snoc in Hm as [Hm|Hm]; [auto | discriminate].
  - intros st line d _ H m Hm. unfold on_header in Hm.
    destruct (negb (opt_str_eqb _ _)); [|auto]. cbn [messages] in Hm.
    apply In_snoc in Hm as [Hm|Hm]; [auto | discriminate].
  - intros st ts d t name body Q HD _ _ H m Hm. unfold on_message in Hm.
    cbn [messages] in Hm. apply In_snoc in Hm as [Hm|Hm].
    + destruct (message_date_state_items random rev1 ts (Some d) st)
        as [E|(d' & _ & E)]; rewrite E in Hm; [auto|].
      apply In_snoc in Hm as [Hm|Hm]; [auto | discriminate].
    + injection Hm as ->. exists ts. cbn [fullTimestamp timestamp stored_timestamp rev1].
      split; [reflexivity|].
      rewrite (date_text_qDATE _ _ _ _ Q). now apply display_time_exact.
  - intros st line H m Hm. unfold absorb in Hm.
    destruct (lastMessage st) as [i|]; [|auto].
    destruct (nth_error (messages st) i) as [[m0| |]|] eqn:E; auto.
    cbn [messages] in Hm. apply In_update in Hm as [Hm|Hm]; [|auto].
    injection Hm as ->. cbn [timestamp fullTimestamp]. apply H.
    eapply nth_error_In, E.
Qed.
End Dated.

(** X13: in the first revision every message stores the timestamp of its
    line, and that timestamp is its date text, one space and the display
    timestamp of the message; the second revision stores no full
    timestamp. *)
Theorem parseChat_full_timestamps {Id : Type} (random : nat -> Id)
    (txt : jsstring) :
  exists out1 out2,
    V1.parseChat random txt = Ok out1
    /\ V2.parseChat random txt = Ok out2
    /\ (forall m, In (ItemMessage m) (chat_messages out1) ->
          exists ft, fullTimestamp m = Some ft
                     /\ ft = date_text ft ++ SP :: timestamp m)
    /\ (forall m, In (ItemMessage m) (chat_messages out2) ->
          fullTimestamp m = None).
Proof.
  rewrite V1_parseChat_model, V2_parseChat_model. do 2 eexists.
  split; [reflexivity|]. split; [reflexivity|]. cbn [chat_messages]. split.
  - apply full_timestamps_run. intros m [].
  - assert (G : forall lines (st : pstate Id),
               (forall m, In (ItemMessage m) (messages st) -> fullTimestamp m = None) ->
               forall m, In (ItemMessage m) (messages (run_model random rev2 st lines)) ->
                         fullTimestamp m = None).
    { apply (run_model_ind random rev2
               (fun st => forall m, In (ItemMessage m) (messages st) ->
                            fullTimestamp m = None)).
      - intros st H m Hm. unfold delete_notice, push in Hm. cbn [messages] in Hm.
        apply In_snoc in Hm as [Hm|Hm]; [auto | discriminate].
      - intros st line d _ H m Hm. unfold on_header in Hm.
        destruct (negb (opt_str_eqb _ _)); [|auto]. cbn [messages] in Hm.
        apply In_snoc in Hm as [Hm|Hm]; [auto | discriminate].
      - intros st ts d t name body _ _ _ _ H m Hm. unfold on_message in Hm.
        cbn [messages] in Hm. apply In_snoc in Hm as [Hm|Hm].
        + destruct (message_date_state_items random rev2 ts (Some d) st)
            as [E|(d' & _ & E)]; rewrite E in Hm; [auto|].
          apply In_snoc in Hm as [Hm|Hm]; [auto | discriminate].
        + injection Hm as ->. reflexivity.
      - intros st line H m Hm. unfold absorb in Hm.
        destruct (lastMessage st) as [i|]; [|auto].
        destruct (nth_error (messages st) i) as [[m0| |]|] eqn:E; auto.
        cbn [messages] in Hm. apply In_update in Hm as [Hm|Hm]; [|auto].
        injection Hm as ->. cbn [fullTimestamp]. apply H.
        eapply nth_error_In, E. }
    apply G. intros m [].
Qed.

(** X14: in the items the first revision returns every message comes after
    a date item, and the date text of its full timestamp is the date text
    of the nearest date item before it. *)
Theorem messages_under_own_date {Id : Type} (random : nat -> Id)
    (txt : jsstring) :
  exists out,
    V1.parseChat random txt = Ok out
    /\ under_own_date None (chat_messages out).
Proof.
  rewrite V1_parseChat_model. eexists. split; [reflexivity|].
  cbn [chat_messages]. apply dated_run.
  repeat split. intros d H. discriminate.
Qed.

(** ** A message line is read back *)

Lemma split_speaker_name (body : jsstring) :
  forall nm acc,
    nm <> [] ->
    Forall (fun c => c <> COLON /\ is_line_terminator c = false) nm ->
    split_speaker acc (nm ++ SP :: COLON :: SP :: body) = Some (acc ++ nm, body).
Proof.
  intros nm. induction nm as [|x nm IH]; intros acc N F; [contradiction|].
  destruct (Forall_inv F) as [_ Hx]. pose proof (Forall_inv_tail F) as F'.
  cbn [app split_speaker]. rewrite Hx.
  destruct nm as [|y nm].
  - cbn [app]. now rewrite !Z.eqb_refl.
  - assert (E : split_speaker (acc ++ [x]) ((y :: nm) ++ SP :: COLON :: SP :: body)
                = Some (acc ++ x :: y :: nm, body)).
    { rewrite IH; [|discriminate|exact F']. now rewrite <- app_assoc. }
    pose proof (Forall_inv_tail F') as F''.
    destruct nm as [|z nm].
    + cbn [app] in *. rewrite E.
      replace (SP =? COLON) with false by reflexivity.
      now rewrite andb_false_r.
    + destruct (Forall_inv F'') as [Hz _].
      apply Z.eqb_neq in Hz.
      destruct nm as [|w nm]; cbn [app] in *; rewrite E, Hz, andb_false_r;
        reflexivity.
Qed.

Lemma qDATE_DELETED_prefix (r : jsstring) (d : jsstring)
    (u : list (nat * jsstring)) (t : jsstring) :
  qDATE (d ++ r) = Some (d, u, t) -> d ++ r <> DELETED.
Proof.
  intros Q E. rewrite E in Q. vm_compute in Q. discriminate.
Qed.

(** The line [<timestamp>, <name> : <body>] is a message line with these
    three parts, when the name is not empty and holds neither a colon nor a
    line terminator. *)
Lemma classify_message_line (ts d name body : jsstring) :
  header_date ts = Some d ->
  name <> [] ->
  Forall (fun c => c <> COLON /\ is_line_terminator c = false) name ->
  classify (ts ++ COMMA :: SP :: name ++ SP :: COLON :: SP :: body)
  = KMessage ts (Some d) name body.
Proof.
  intros HD N F. destruct (header_date_inv _ _ HD) as (t & -> & Q & T).
  set (rest := COMMA :: SP :: name ++ SP :: COLON :: SP :: body).
  destruct (local_DATE _ _ _ _ Q) as [_ LD].
  destruct (local_TIME _ _ _ _ T) as [_ LT].
  assert (QD : qDATE ((d ++ t) ++ rest) = Some (d, [], t ++ rest)).
  { rewrite <- app_assoc. apply LD. }
  assert (QT : qTIME (t ++ rest) = Some (t, [], rest)) by apply LT.
  unfold classify.
  assert (TR : truthy ((d ++ t) ++ rest) = true).
  { pose proof (qDATE_truthy _ _ _ _ Q) as X. destruct d; [discriminate | reflexivity]. }
  rewrite TR. cbn [negb].
  assert (ND : str_eqb ((d ++ t) ++ rest) DELETED = false).
  { apply str_eqb_neq. rewrite <- app_assoc.
    eapply qDATE_DELETED_prefix. rewrite app_assoc. exact QD. }
  rewrite ND.
  assert (HN : header_date ((d ++ t) ++ rest) = None).
  { unfold header_date. rewrite QD, QT. reflexivity. }
  rewrite HN. unfold message_parts.
  rewrite (qseq_intro _ _ _ _ _ _ _ _ _ QD QT). unfold rest.
  rewrite !Z.eqb_refl. cbn [andb].
  rewrite split_speaker_name by assumption. cbn [app].
  now rewrite Q.
Qed.

(** X15: a line [<timestamp>, <name> : <body>] is read back.  When the name
    is not empty and holds neither a colon nor a line terminator, the loop
    body of either revision appends one message whose speaker is the
    trimmed name, whose body is the trimmed body and whose display
    timestamp is that of the timestamp; it registers the speaker and makes
    the message the one that continuation lines extend.  At most a date
    item is emitted before the message. *)
Theorem message_line_read_back {Id : Type} (random : nat -> Id)
    (st : pstate Id) (ts d name body : jsstring) :
  header_date ts = Some d ->
  name <> [] ->
  Forall (fun c => c <> COLON /\ is_line_terminator c = false) name ->
  let line := ts ++ COMMA :: SP :: name ++ SP :: COLON :: SP :: body in
  forall step, step = V1.step random \/ step = V2.step random ->
  exists st' pre m,
    step st line = Ok st'
    /\ messages st' = pre ++ [ItemMessage m]
    /\ (pre = messages st
        \/ exists id payload, pre = messages st ++ [ItemDate id payload])
    /\ user m = trim name
    /\ content m = trim body
    /\ timestamp m = parseTimestampToDisplayTime ts
    /\ users st' = set_add (trim name) (users st)
    /\ lastMessage st' = Some (List.length pre).
Proof.
  intros HD N F line step Hstep.
  assert (G : forall v, exists pre m,
               messages (step_model random v st line) = pre ++ [ItemMessage m]
               /\ (pre = messages st
                   \/ exists id payload, pre = messages st ++ [ItemDate id payload])
               /\ user m = trim name
               /\ content m = trim body
               /\ timestamp m = parseTimestampToDisplayTime ts
               /\ users (step_model random v st line) = set_add (trim name) (users st)
               /\ lastMessage (step_model random v st line) = Some (List.length pre)).
  { intros v. unfold step_model, line.
    rewrite (classify_message_line _ _ _ _ HD N F). unfold on_message.
    cbn [messages users lastMessage]. do 2 eexists.
    split; [reflexivity|]. cbn [user content timestamp].
    assert (U : users (message_date_state random v ts (Some d) st) = users st).
    { unfold message_date_state.
      now destruct (truthy d && negb (opt_str_eqb (formatDateWithDay d) (lastDate st))). }
    rewrite U. repeat split; auto.
    destruct (message_date_state_items random v ts (Some d) st) as [E|(d' & _ & E)];
      rewrite E; [now left | right; eauto]. }
  destruct Hstep as [-> | ->].
  - rewrite V1_step_model. destruct (G rev1) as (pre & m & H).
    exists (step_model random rev1 st line), pre, m. split; [reflexivity | exact H].
  - rewrite V2_step_model. destruct (G rev2) as (pre & m & H).
    exists (step_model random rev2 st line), pre, m. split; [reflexivity | exact H].
Qed.

Lemma message_line_read_back_witness :
  exists st' pre m,
    V1.step (fun n : nat => n) initial
      (utf16 "2024년 1월 1일 오전 9:00" ++
       COMMA :: SP :: utf16 "Kim" ++ SP :: COLON :: SP :: utf16 "hello  ") = Ok st'
    /\ messages st' = pre ++ [ItemMessage m]
    /\ (pre = messages (@initial nat)
        \/ exists id payload, pre = messages (@initial nat) ++ [ItemDate id payload])
    /\ user m = trim (utf16 "Kim")
    /\ content m = trim (utf16 "hello  ")
    /\ timestamp m = parseTimestampToDisplayTime (utf16 "2024년 1월 1일 오전 9:00")
    /\ users st' = set_add (trim (utf16 "Kim")) (users (@initial nat))
    /\ lastMessage st' = Some (List.length pre).
Proof.
  apply (message_line_read_back (fun n : nat => n) initial
           (utf16 "2024년 1월 1일 오전 9:00") (utf16 "2024년 1월 1일")
           (utf16 "Kim") (utf16 "hello  ")).
  - vm_compute. reflexivity.
  - discriminate.
  - repeat constructor; discriminate.
  - left. reflexivity.
Defined.

(** * The display of a date item ([App.tsx]) *)

Lemma det_TOD : det timeOfDayRegex qTOD.
Proof. unfold timeOfDayRegex, qTOD. det_tac. Qed.

Lemma qTOD_head (s : jsstring) :
  match s with c :: _ => c =? O_ | [] => false end = false -> qTOD s = None.
Proof.
  intros H. unfold qTOD, qseq, qgrp, qampm.
  destruct s as [|o [|j r]]; try reflexivity. now rewrite H.
Qed.

Lemma search_skip_TOD (pre s : jsstring) :
  Forall (fun c => c <> O_) pre ->
  forall p, search timeOfDayRegex p (pre ++ s)
            = search timeOfDayRegex (p + List.length pre) s.
Proof.
  induction 1 as [|c pre Hc _ IH]; intros p.
  - cbn [app List.length]. now rewrite Nat.add_0_r.
  - cbn [app search List.length]. rewrite det_TOD. unfold run_reader.
    cbn [rest]. rewrite qTOD_head by (now apply Z.eqb_neq).
    rewrite IH. f_equal. lia.
Qed.

(** Written back, the number read from one or two digits loses its leading
    zero. *)
Lemma number_toString_d12 (m : jsstring) :
  is_d12 m -> number_toString (parseInt10 m) = without_leading_zero m.
Proof.
  intros [(a & -> & Ha)|(a & b & -> & Ha & Hb)].
  - digit_cases a Ha; vm_compute; reflexivity.
  - digit_cases a Ha; digit_cases b Hb; vm_compute; reflexivity.
Qed.

(** The two displays of the payload of a first-revision date item. *)
Lemma date_payload_display (p d : jsstring) :
  header_date p = Some d ->
  formatDateForDisplay p Kakaotalk = formatDateWithDay d
  /\ exists y m dd,
       d = y ++ NYEON :: SP :: m ++ WOL :: SP :: dd ++ [IL]
       /\ formatDateForDisplay p Instagram
          = y ++ DOT :: SP :: without_leading_zero m
              ++ DOT :: SP :: without_leading_zero dd
              ++ DOT :: SP :: parseTimestampToDisplayTime p.
Proof.
  intros HD. pose proof (display_time_exact _ _ HD) as X.
  destruct (header_date_inv _ _ HD) as (t & -> & Q & T).
  destruct (qYMD_of_qDATE _ _ _ _ Q)
    as (a0 & b0 & c0 & e0 & m0 & dd0 & QY & _).
  destruct (qYMD_inv _ _ _ _ QY)
    as (a & b & c & e & m & dd & Eu & Ed & Ha & Hb & Hc & He & Hm & Hdd).
  injection Eu as -> -> -> -> -> ->.
  assert (J : jsmatch (d ++ t) ymdRegex
              = Some (MatchResult d [(3%nat, dd); (2%nat, m); (1%nat, [a; b; c; e])])).
  { unfold jsmatch.
    assert (M : matches ymdRegex (MState 0 (d ++ t) [])
                = [MState (0 + List.length d) t
                     ([(3%nat, dd); (2%nat, m); (1%nat, [a; b; c; e])] ++ [])]).
    { rewrite det_YMD. unfold run_reader. cbn [rest pos caps]. now rewrite QY. }
    rewrite (search_first _ _ _ _ _ M). cbn [pos caps Nat.add app].
    now rewrite Nat.sub_0_r, firstn_length_app. }
  unfold formatDateForDisplay. rewrite J. cbn [whole]. split; [reflexivity|].
  exists [a; b; c; e], m, dd. split; [exact Ed|].
  cbn [mget assoc Nat.eqb groups interpolate parseInt10_capture].
  rewrite !number_toString_d12 by assumption.
  destruct (qTIME_parts _ _ _ _ T) as (ap & hm & -> & _ & D).
  apply app_inv_head in X. injection X as X. rewrite <- X.
  assert (K : jsmatch (d ++ SP :: ap ++ SP :: hm) timeOfDayRegex
              = Some (MatchResult (ap ++ SP :: hm) [(1%nat, ap)])).
  { unfold jsmatch.
    change (d ++ SP :: ap ++ SP :: hm) with (d ++ [SP] ++ (ap ++ SP :: hm)).
    rewrite app_assoc, search_skip_TOD.
    2:{ apply Forall_app. split; [exact (qDATE_not_O _ _ _ _ Q)|].
        repeat constructor. discriminate. }
    assert (M : matches timeOfDayRegex
                  (MState (0 + List.length (d ++ [SP])) (ap ++ SP :: hm) [])
                = [MState (0 + List.length (d ++ [SP]) + List.length (ap ++ SP :: hm))
                          [] ([(1%nat, ap)] ++ [])]).
    { rewrite det_TOD. unfold run_reader. cbn [rest pos caps]. now rewrite D. }
    rewrite (search_first _ _ _ _ _ M). cbn [pos caps app].
    replace (0 + List.length (d ++ [SP]) + List.length (ap ++ SP :: hm)
             - (0 + List.length (d ++ [SP])))%nat
      with (List.length (ap ++ SP :: hm)) by lia.
    now rewrite firstn_all. }
  rewrite K. cbn [whole]. reflexivity.
Qed.

Section DatePayloads.
Context {Id : Type}.
Variable random : nat -> Id.

(** Every date item of the first revision carries a full timestamp. *)
Lemma date_payloads_run (lines : list jsstring) (st : pstate Id) :
  (forall id p, In (ItemDate id p) (messages st) -> header_date p <> None) ->
  forall id p, In (ItemDate id p) (messages (run_model random rev1 st lines)) ->
               header_date p <> None.
Proof.
  revert lines st.
  apply (run_model_ind random rev1
           (fun st => forall id p, In (ItemDate id p) (messages st) ->
                                   header_date p <> None)).
  - intros st H id p Hp. unfold delete_notice, push in Hp. cbn [messages] in Hp.
    apply In_snoc in Hp as [Hp|Hp]; [eauto | discriminate].
  - intros st line d HD H id p Hp. unfold on_header in Hp.
    destruct (negb (opt_str_eqb _ _)); [|eauto]. cbn [messages] in Hp.
    apply In_snoc in Hp as [Hp|Hp]; [eauto|].
    cbn [header_payload rev1] in Hp. injection Hp as _ <-. now rewrite HD.
  - intros st ts d t name body _ HD _ _ H id p Hp. unfold on_message in Hp.
    cbn [messages] in Hp. apply In_snoc in Hp as [Hp|Hp]; [|discriminate].
    destruct (message_date_state_items random rev1 ts (Some d) st)
      as [E|(d' & _ & E)]; rewrite E in Hp; [eauto|].
    apply In_snoc in Hp as [Hp|Hp]; [eauto|].
    cbn [message_payload rev1] in Hp. injection Hp as _ <-. now rewrite HD.
  - intros st line H id p Hp. unfold absorb in Hp.
    destruct (lastMessage st) as [i|]; [|eauto].
    destruct (nth_error (messages st) i) as [[m0| |]|] eqn:E; eauto.
    cbn [messages] in Hp. apply In_update in Hp as [Hp|Hp]; [discriminate | eauto].
Qed.
End DatePayloads.

(** X16: what the first [App.tsx] displays for a date item in the
    [kakaotalk] mode is what the second revision of the parser stores in
    the date item at the same position, which the second [App.tsx]
    displays as it is; and the two item lists have their date items at the
    same positions. *)
Theorem date_display_agrees {Id1 Id2 : Type} (random1 : nat -> Id1)
    (random2 : nat -> Id2) (txt : jsstring) :
  exists out1 out2,
    V1.parseChat random1 txt = Ok out1
    /\ V2.parseChat random2 txt = Ok out2
    /\ Forall2 same_date_display (chat_messages out1) (chat_messages out2).
Proof.
  rewrite V1_parseChat_model, V2_parseChat_model. do 2 eexists.
  split; [reflexivity|]. split; [reflexivity|]. cbn [chat_messages].
  destruct (run_model_rel random1 random2 (body_lines txt) initial initial)
    as (F & _).
  - repeat split; constructor.
  - revert F. apply Forall2_impl. intros [m1|id1 p1|id1 c1] [m2|id2 p2|id2 c2];
      cbn [item_rel same_date_display]; auto.
    intros [H ->]. rewrite match_header_v1 in H.
    destruct (header_date p1) as [d|] eqn:HD; [|now contradiction H].
    rewrite (date_text_header _ _ HD).
    exact (proj1 (date_payload_display _ _ HD)).
Qed.

(** X17: in the [instagram] mode the first [App.tsx] displays a date item
    of the parser as year, month and day separated by a dot and a space,
    month and day without a leading zero, followed by a dot, a space and
    the display time of the payload; neither [NaN] nor [undefined] is
    shown. *)
Theorem date_display_instagram {Id : Type} (random : nat -> Id) (txt : jsstring) :
  exists out,
    V1.parseChat random txt = Ok out
    /\ forall id p, In (ItemDate id p) (chat_messages out) ->
         exists y m dd,
           date_text p = y ++ NYEON :: SP :: m ++ WOL :: SP :: dd ++ [IL]
           /\ formatDateForDisplay p Instagram
              = y ++ DOT :: SP :: without_leading_zero m
                  ++ DOT :: SP :: without_leading_zero dd
                  ++ DOT :: SP :: parseTimestampToDisplayTime p.
Proof.
  rewrite V1_parseChat_model. eexists. split; [reflexivity|].
  cbn [chat_messages]. intros id p Hp.
  assert (H : header_date p <> None).
  { revert id p Hp. apply date_payloads_run. intros id p []. }
  destruct (header_date p) as [d|] eqn:HD; [|contradiction].
  rewrite (date_text_header _ _ HD).
  exact (proj2 (date_payload_display _ _ HD)).
Qed.

(** * Saving an edit ([ChatBubble.tsx]) *)

Lemma trimStart_clean (s : jsstring) : starts_clean s -> trimStart s = s.
Proof. destruct s as [|c s]; [contradiction|]. cbn. now intros ->. Qed.

Lemma trimStart_snoc (c : char) (l : jsstring) :
  is_space c = false -> exists l', trimStart (l ++ [c]) = l' ++ [c].
Proof.
  intros Hc. induction l as [|x l IH]; cbn [app trimStart].
  - rewrite Hc. now exists [].
  - destruct (is_space x); [exact IH|]. now exists (x :: l).
Qed.

Lemma starts_clean_trimStart (s : jsstring) :
  trimStart s <> [] -> starts_clean (trimStart s).
Proof.
  induction s as [|c s IH]; cbn [trimStart]; [contradiction|].
  destruct (is_space c) eqn:E; [exact IH|]. intros _. exact E.
Qed.

Lemma tidy_trim_fixed (s : jsstring) : tidy s -> trim s = s.
Proof.
  intros [A B]. unfold trim, trimEnd.
  now rewrite (trimStart_clean _ A), (trimStart_clean _ B), rev_involutive.
Qed.

Lemma tidy_trimEnd (s : jsstring) : starts_clean s -> tidy (trimEnd s).
Proof.
  destruct s as [|c s]; [contradiction|]. intros Hc. cbn in Hc.
  unfold trimEnd. cbn [rev].
  destruct (trimStart_snoc c (rev s) Hc) as [l' E]. rewrite E. split.
  - rewrite rev_unit. exact Hc.
  - rewrite rev_involutive, <- E. apply starts_clean_trimStart.
    rewrite E. apply app_cons_not_nil.
Qed.

(** A trimmed text is empty or tidy. *)
Lemma trim_empty_or_tidy (s : jsstring) : trim s = [] \/ tidy (trim s).
Proof.
  unfold trim. destruct (trimStart s) as [|c s1] eqn:E; [now left|].
  right. apply tidy_trimEnd. rewrite <- E. apply starts_clean_trimStart.
  now rewrite E.
Qed.

Lemma tidy_trim (s : jsstring) : starts_clean (rev s) -> tidy (trim s).
Proof.
  intros H. destruct (trim_empty_or_tidy s) as [E|T]; [|exact T].
  exfalso. destruct (rev s) as [|c r] eqn:R; [contradiction|]. cbn in H.
  assert (S : s = rev r ++ [c]).
  { rewrite <- (rev_involutive s), R. reflexivity. }
  destruct (trimStart_snoc c (rev r) H) as [l' E1].
  unfold trim, trimEnd in E. rewrite S, E1, rev_unit in E.
  cbn [trimStart] in E. rewrite H in E. cbn [rev] in E.
  exact (app_cons_not_nil _ _ _ E).
Qed.

Lemma tidy_join (x y : jsstring) (c : char) : tidy x -> tidy y -> tidy (x ++ c :: y).
Proof.
  intros [A _] [_ B]. split.
  - destruct x; [contradiction | exact A].
  - rewrite rev_app_distr. cbn [rev]. rewrite <- app_assoc.
    destruct (rev y); [contradiction | exact B].
Qed.

(** The text behind a space at which a tidy text is cut ends as the text
    does, and is not empty. *)
Lemma tidy_suffix (pre body : jsstring) :
  tidy (pre ++ SP :: body) -> starts_clean (rev body).
Proof.
  intros [_ B]. rewrite rev_app_distr in B. cbn [rev] in B.
  rewrite <- app_assoc in B.
  destruct (rev body) as [|b r]; [cbn in B; discriminate | exact B].
Qed.

Lemma split_speaker_inv (s : jsstring) :
  forall acc n b,
    split_speaker acc s = Some (n, b) -> acc ++ s = n ++ SP :: COLON :: SP :: b.
Proof.
  induction s as [|x s IH]; intros acc n b H; cbn [split_speaker] in H;
    [discriminate|].
  destruct (is_line_terminator x); [discriminate|].
  assert (R : split_speaker (acc ++ [x]) s = Some (n, b) ->
              acc ++ x :: s = n ++ SP :: COLON :: SP :: b).
  { intros H'. apply IH in H'. now rewrite <- app_assoc in H'. }
  destruct s as [|a [|b0 [|c0 body]]]; try exact (R H).
  destruct ((a =? SP) && (b0 =? COLON) && (c0 =? SP)) eqn:E; [|exact (R H)].
  apply andb_prop in E as [E E3]. apply andb_prop in E as [E1 E2].
  apply Z.eqb_eq in E1, E2, E3. subst. injection H as <- <-.
  now rewrite <- app_assoc.
Qed.

(** A message line is its three parts with their separators. *)
Lemma message_parts_line (line ts nm body : jsstring) :
  message_parts line = Some (ts, nm, body) ->
  line = ts ++ COMMA :: SP :: nm ++ SP :: COLON :: SP :: body.
Proof.
  unfold message_parts. intros H.
  destruct (qseq qDATE qTIME line) as [[[ts' u] r]|] eqn:ET; [|discriminate].
  destruct (local_timestamp _ _ _ _ ET) as [-> _].
  destruct r as [|a [|b r]]; try discriminate.
  destruct ((a =? COMMA) && (b =? SP)) eqn:E; [|discriminate].
  apply andb_prop in E as [E1 E2]. apply Z.eqb_eq in E1, E2. subst.
  destruct (split_speaker [] r) as [[n' b']|] eqn:S; [|discriminate].
  injection H as -> -> ->. apply split_speaker_inv in S. cbn [app] in S.
  now rewrite S.
Qed.

Lemma classify_message_parts (line ts : jsstring) (od : option jsstring)
    (nm body : jsstring) :
  classify line = KMessage ts od nm body -> message_parts line = Some (ts, nm, body).
Proof.
  unfold classify. destruct (negb (truthy line)); [discriminate|].
  destruct (str_eqb line DELETED); [discriminate|].
  destruct (header_date line); [discriminate|].
  destruct (message_parts line) as [[[ts' n'] b']|]; [|discriminate].
  intros H. now injection H as -> _ -> ->.
Qed.

Section Tidy.
Context {Id : Type}.
Variable random : nat -> Id.
Variable v : revision.

Lemma contents_tidy_push (st : pstate Id) (x : ChatItem Id) :
  contents_tidy st ->
  match x with ItemMessage m => tidy (content m) | _ => True end ->
  forall m, In (ItemMessage m) (messages st ++ [x]) -> tidy (content m).
Proof.
  intros H X m Hm. apply In_snoc in Hm as [Hm|Hm]; [now apply H|].
  now subst x.
Qed.

Lemma contents_tidy_step (st : pstate Id) (line : jsstring) :
  line = [] \/ tidy line ->
  contents_tidy st -> contents_tidy (step_model random v st line).
Proof.
  intros L H. unfold step_model.
  destruct (classify line) as [| |d|ts od nm body|] eqn:C.
  - exact H.
  - unfold contents_tidy, delete_notice, push. cbn [messages].
    now apply contents_tidy_push.
  - unfold on_header. destruct (negb (opt_str_eqb _ _)); [|exact H].
    unfold contents_tidy. cbn [messages]. now apply contents_tidy_push.
  - assert (T : tidy line).
    { destruct L as [-> | T]; [discriminate C | exact T]. }
    pose proof (message_parts_line _ _ _ _ (classify_message_parts _ _ _ _ _ C)) as E.
    assert (B : tidy (trim body)).
    { apply tidy_trim.
      apply (tidy_suffix (ts ++ COMMA :: SP :: nm ++ [SP; COLON])).
      rewrite E in T.
      replace ((ts ++ COMMA :: SP :: nm ++ [SP; COLON]) ++ SP :: body)
        with (ts ++ COMMA :: SP :: nm ++ SP :: COLON :: SP :: body); [exact T|].
      rewrite <- app_assoc. cbn [app]. now rewrite <- app_assoc. }
    unfold on_message, contents_tidy. cbn [messages].
    apply contents_tidy_push; [|exact B].
    intros m Hm.
    destruct (message_date_state_items random v ts od st) as [E'|(d' & _ & E')];
      rewrite E' in Hm; [now apply H|].
    exact (contents_tidy_push st (ItemDate _ _) H I m Hm).
  - assert (T : tidy line).
    { destruct L as [-> | T]; [discriminate C | exact T]. }
    unfold absorb.
    destruct (lastMessage st) as [i|]; [|exact H].
    destruct (nth_error (messages st) i) as [[m0| |]|] eqn:E; try exact H.
    intros m Hm. cbn [messages] in Hm. apply In_update in Hm as [Hm|Hm]; [|now apply H].
    injection Hm as ->. cbn [content]. apply tidy_join; [|exact T].
    apply H. eapply nth_error_In, E.
Qed.

Lemma contents_tidy_run (lines : list jsstring) :
  Forall (fun l => l = [] \/ tidy l) lines ->
  forall st, contents_tidy st -> contents_tidy (run_model random v st lines).
Proof.
  induction 1 as [|l ls Hl _ IH]; intros st H; [exact H|].
  cbn [run_model fold_left]. apply IH. now apply contents_tidy_step.
Qed.
End Tidy.

Lemma body_lines_tidy (txt : jsstring) :
  Forall (fun l => l = [] \/ tidy l) (body_lines txt).
Proof.
  unfold body_lines. apply Forall_forall. intros l Hl.
  assert (Hl' : In l (List.map trim (split_nl txt))).
  { rewrite <- (firstn_skipn 3 (List.map trim (split_nl txt))).
    apply in_or_app. now right. }
  apply in_map_iff in Hl' as (s & <- & _). apply trim_empty_or_tidy.
Qed.

(** X18: the body of every message [parseChat] returns is not empty and
    has no white space at either end, so trimming leaves it as it is.
    Hence saving a bubble whose text was not edited changes no item:
    [handleSave] does not call [onUpdate]. *)
Theorem unedited_save_changes_nothing {Id : Type} (random : nat -> Id)
    (id_eqb : Id -> Id -> bool) (txt : jsstring) :
  exists out,
    V1.parseChat random txt = Ok out
    /\ forall m, In (ItemMessage m) (chat_messages out) ->
         content m <> []
         /\ trim (content m) = content m
         /\ handleSave id_eqb m (content m) (chat_messages out) = chat_messages out.
Proof.
  rewrite V1_parseChat_model. eexists. split; [reflexivity|].
  cbn [chat_messages]. intros m Hm.
  assert (T : tidy (content m)).
  { revert m Hm. apply contents_tidy_run; [apply body_lines_tidy|].
    intros m []. }
  pose proof (tidy_trim_fixed _ T) as E. repeat split.
  - destruct T as [A _]. intros C. now rewrite C in A.
  - exact E.
  - unfold handleSave. now rewrite E, str_eqb_refl.
Qed.

(** * Images *)

Lemma endsWith_inv (s suffix : jsstring) :
  endsWith s suffix = true -> exists pre, s = pre ++ suffix.
Proof.
  unfold endsWith. destruct (List.length s <? List.length suffix)%nat; [discriminate|].
  intros H. apply str_eqb_eq in H.
  exists (firstn (List.length s - List.length suffix) s).
  pose proof (firstn_skipn (List.length s - List.length suffix) s) as F.
  rewrite H in F. now symmetry.
Qed.

(** A name that a bubble takes for an image passes the filter of the
    folder upload. *)
Lemma isImage_matches (content : jsstring) :
  isImage content = true -> jsmatch content imageFileRegex <> None.
Proof.
  unfold isImage. intros H.
  assert (E : exists pre suffix,
             content = pre ++ suffix
             /\ (suffix = DOT_JPG \/ suffix = DOT_PNG \/ suffix = DOT_JPEG)).
  { apply orb_prop in H as [H|H]; [apply orb_prop in H as [H|H]|];
      destruct (endsWith_inv _ _ H) as [pre ->]; eauto 6. }
  destruct E as (pre & suffix & -> & S). unfold jsmatch. apply search_hit.
  generalize (0 + List.length pre)%nat. intros k.
  destruct S as [-> | [-> | ->]]; vm_compute; discriminate.
Qed.

Section FolderUploadFacts.
Context {File Url : Type}.
Variable file_name : File -> jsstring.
Variable createObjectURL : File -> Url.

Lemma store_get_set_same (k : jsstring) (v : Url) (o : list (jsstring * Url)) :
  store_get k (store_set k v o) = Some v.
Proof.
  induction o as [|[k' v'] o IH]; cbn [store_set store_get].
  - now rewrite str_eqb_refl.
  - destruct (str_eqb k k') eqn:E; cbn [store_get]; rewrite E; auto.
Qed.

Lemma fill_store_last (k : jsstring) (files : list File) :
  forall store,
    (exists f, In f files /\ file_name f = k
               /\ store_get k (fill_store file_name createObjectURL files store)
                  = Some (createObjectURL f))
    \/ store_get k (fill_store file_name createObjectURL files store)
       = store_get k store.
Proof.
  induction files as [|g fs IH]; intros store; [now right|].
  cbn [fill_store].
  destruct (IH (store_set (file_name g) (createObjectURL g) store))
    as [(f & I & N & G)|G].
  - left. exists f. repeat split; auto. now right.
  - destruct (str_eqb k (file_name g)) eqn:E.
    + apply str_eqb_eq in E. left. exists g. repeat split; [now left | auto |].
      rewrite G, E. apply store_get_set_same.
    + right. rewrite G. clear G IH. apply str_eqb_neq in E.
      induction store as [|[k' v'] o IHo]; cbn [store_set store_get].
      * apply str_eqb_neq in E. now rewrite E.
      * destruct (str_eqb (file_name g) k') eqn:E'; cbn [store_get].
        -- apply str_eqb_eq in E'. subst k'. apply str_eqb_neq in E. now rewrite E.
        -- now rewrite IHo.
Qed.

Lemma fill_store_has (f : File) (files : list File) :
  forall store, In f files ->
    exists f', In f' files /\ file_name f' = file_name f
               /\ store_get (file_name f)
                    (fill_store file_name createObjectURL files store)
                  = Some (createObjectURL f').
Proof.
  induction files as [|g fs IH]; intros store H; [contradiction|].
  cbn [fill_store]. destruct H as [->|H].
  - destruct (fill_store_last (file_name f) fs
                (store_set (file_name f) (createObjectURL f) store))
      as [(f' & I & N & G)|G].
    + exists f'. repeat split; auto. now right.
    + exists f. repeat split; [now left|]. rewrite G. apply store_get_set_same.
  - destruct (IH (store_set (file_name g) (createObjectURL g) store) H)
      as (f' & I & N & G).
    exists f'. repeat split; auto. now right.
Qed.
End FolderUploadFacts.

(** X19: a bubble whose text ends in [.jpg], [.png] or [.jpeg] looks its
    text up in the image store.  When the folder that was uploaded holds a
    file of that name, the store has an entry for it: the filter of the
    upload accepts every name the bubble takes for an image, and the entry
    is the URL made for a file of that name. *)
Theorem image_bubble_has_url {File Url : Type} (file_name : File -> jsstring)
    (createObjectURL : File -> Url) (fileArray : list File) (content : jsstring) :
  isImage content = true ->
  (exists f, In f fileArray /\ file_name f = content) ->
  exists f, In f fileArray /\ file_name f = content
            /\ store_get content (folderImageStore file_name createObjectURL fileArray)
               = Some (createObjectURL f).
Proof.
  intros HI (f & I & <-). unfold folderImageStore.
  pose proof (isImage_matches _ HI) as M.
  destruct (fill_store_has file_name createObjectURL f
              (filter (fun f => match jsmatch (file_name f) imageFileRegex with
                                | Some _ => true
                                | None => false
                                end) fileArray) [])
    as (f' & I' & N & G).
  - apply filter_In. split; [exact I|].
    destruct (jsmatch (file_name f) imageFileRegex); [reflexivity | contradiction].
  - exists f'. apply filter_In in I' as [I' _]. auto.
Qed.

Lemma image_bubble_has_url_witness :
  exists f, In f [utf16 "KakaoTalkChats.txt"; utf16 "photo.JPG"; utf16 "photo.jpg"]
            /\ f = utf16 "photo.jpg"
            /\ store_get (utf16 "photo.jpg")
                 (folderImageStore (fun f : jsstring => f)
                    (fun f : jsstring => utf16 "blob:" ++ f)
                    [utf16 "KakaoTalkChats.txt"; utf16 "photo.JPG"; utf16 "photo.jpg"])
               = Some (utf16 "blob:" ++ f).
Proof.
  apply (image_bubble_has_url (fun f : jsstring => f)
           (fun f : jsstring => utf16 "blob:" ++ f)
           [utf16 "KakaoTalkChats.txt"; utf16 "photo.JPG"; utf16 "photo.jpg"]
           (utf16 "photo.jpg")).
  - vm_compute. reflexivity.
  - exists (utf16 "photo.jpg"). split; [|reflexivity]. right. right. now left.
Defined.
